(** * RMTFinder: the extraction store, the run orchestrator, the match engine
      and the reputation aggregator

    A shallow embedding of
      - [tools/incremental_rmt_system.py]   (RMTMonitoringDatabase, IncrementalRMTMonitor),
      - [tools/run_analysis_only.py]        (AnalysisOnlyRunner),
      - [tools/rmt_review_extractor.py]     (RMTReviewExtractor.find_text_matches),
      - [tools/gemini_review_analyzer.py]   (GeminiReviewAnalyzer._calculate_composite_score).

    Conventions of the embedding.
      - A Python [str] is a Rocq [string]; the texts considered are ASCII, for
        which [str.encode()] is the identity on the character codes.
      - A SQLite table with a [PRIMARY KEY] is a [gmap] from the key to the row;
        [INSERT] on a key that is present raises [sqlite3.IntegrityError].
      - Every [with sqlite3.connect(...)] block commits when it is left
        normally and rolls back when it is left by an exception, so each
        database method is one state transformer.
      - Python floats are modelled by exact rationals ([Q]). *)

From Stdlib Require Import ZArith QArith Qminmax Qround Lia Lqa Ascii String Sorted.
From stdpp Require Import base option list strings gmap fin_maps pretty.

Local Open Scope string_scope.
Local Open Scope Z_scope.

(** ** hashlib.md5 *)

Module MD5.

Definition add32 (a b : Z) : Z := (a + b) mod 2 ^ 32.

Definition not32 (a : Z) : Z := Z.lxor a 4294967295.

Definition rotl32 (x c : Z) : Z :=
  Z.lor (Z.shiftl x c mod 2 ^ 32) (Z.shiftr x (32 - c)).

(** Per-round shift amounts. *)
Definition shifts : list Z :=
  [ 7; 12; 17; 22; 7; 12; 17; 22; 7; 12; 17; 22; 7; 12; 17; 22;
    5; 9; 14; 20; 5; 9; 14; 20; 5; 9; 14; 20; 5; 9; 14; 20;
    4; 11; 16; 23; 4; 11; 16; 23; 4; 11; 16; 23; 4; 11; 16; 23;
    6; 10; 15; 21; 6; 10; 15; 21; 6; 10; 15; 21; 6; 10; 15; 21 ].

(** [floor (2^32 * abs (sin (i + 1)))] for [i = 0 .. 63]. *)
Definition sines : list Z :=
  [ 3614090360; 3905402710; 606105819; 3250441966; 4118548399; 1200080426;
    2821735955; 4249261313; 1770035416; 2336552879; 4294925233; 2304563134;
    1804603682; 4254626195; 2792965006; 1236535329; 4129170786; 3225465664;
    643717713; 3921069994; 3593408605; 38016083; 3634488961; 3889429448;
    568446438; 3275163606; 4107603335; 1163531501; 2850285829; 4243563512;
    1735328473; 2368359562; 4294588738; 2272392833; 1839030562; 4259657740;
    2763975236; 1272893353; 4139469664; 3200236656; 681279174; 3936430074;
    3572445317; 76029189; 3654602809; 3873151461; 530742520; 3299628645;
    4096336452; 1126891415; 2878612391; 4237533241; 1700485571; 2399980690;
    4293915773; 2240044497; 1873313359; 4264355552; 2734768916; 1309151649;
    4149444226; 3174756917; 718787259; 3951481745 ].

Definition bytes_of_string (s : string) : list Z :=
  (fun c => Z.of_N (Ascii.N_of_ascii c)) <$> String.list_ascii_of_string s.

(** Little-endian bytes of [z], [n] of them. *)
Fixpoint le_bytes (n : nat) (z : Z) : list Z :=
  match n with
  | O => []
  | S n' => z mod 256 :: le_bytes n' (z / 256)
  end.

Definition pad (msg : list Z) : list Z :=
  let len := Z.of_nat (length msg) in
  msg ++ [128] ++ replicate (Z.to_nat ((55 - len) mod 64)) 0
      ++ le_bytes 8 ((8 * len) mod 2 ^ 64).

Definition word_of (b0 b1 b2 b3 : Z) : Z :=
  b0 + 256 * b1 + 65536 * b2 + 16777216 * b3.

Fixpoint words (bs : list Z) : list Z :=
  match bs with
  | b0 :: b1 :: b2 :: b3 :: rest => word_of b0 b1 b2 b3 :: words rest
  | _ => []
  end.

Definition state : Type := Z * Z * Z * Z.

Definition round (m : list Z) (st : state) (i : nat) : state :=
  let '(a, b, c, d) := st in
  let iz := Z.of_nat i in
  let '(f, g) :=
    if iz <? 16 then (Z.lor (Z.land b c) (Z.land (not32 b) d), iz)
    else if iz <? 32 then
      (Z.lor (Z.land d b) (Z.land (not32 d) c), (5 * iz + 1) mod 16)
    else if iz <? 48 then (Z.lxor b (Z.lxor c d), (3 * iz + 5) mod 16)
    else (Z.lxor c (Z.lor b (not32 d)), (7 * iz) mod 16) in
  let f' := add32 (add32 (add32 f a) (nth i sines 0)) (nth (Z.to_nat g) m 0) in
  (d, add32 b (rotl32 f' (nth i shifts 0)), b, c).

Definition block (st : state) (m : list Z) : state :=
  let '(a0, b0, c0, d0) := st in
  let '(a, b, c, d) := foldl (round m) st (seq 0 64) in
  (add32 a0 a, add32 b0 b, add32 c0 c, add32 d0 d).

Fixpoint blocks (fuel : nat) (st : state) (ws : list Z) : state :=
  match fuel with
  | O => st
  | S fuel' =>
      match ws with
      | [] => st
      | _ => blocks fuel' (block st (take 16 ws)) (drop 16 ws)
      end
  end.

Definition init : state := (1732584193, 4023233417, 2562383102, 271733878).

Definition digest (s : string) : state :=
  let ws := words (pad (bytes_of_string s)) in
  blocks (S (length ws)) init ws.

Definition hex_digit (z : Z) : ascii :=
  match String.list_ascii_of_string "0123456789abcdef" !! Z.to_nat z with
  | Some c => c
  | None => "0"%char
  end.

Definition hex_byte (z : Z) : list ascii :=
  [hex_digit (z / 16); hex_digit (z mod 16)].

Definition hex_word (w : Z) : list ascii :=
  le_bytes 4 w ≫= hex_byte.

(** [hashlib.md5(s.encode()).hexdigest()] *)
Definition hexdigest (s : string) : string :=
  let '(a, b, c, d) := digest s in
  String.string_of_list_ascii (hex_word a ++ hex_word b ++ hex_word c ++ hex_word d).

End MD5.

(** ** Python helpers *)

(** [x or d] on an optional (possibly [None]/[NULL]) string or integer. *)
Definition str_or (x : option string) (d : string) : string :=
  match x with
  | Some s => if decide (s = "") then d else s
  | None => d
  end.

Definition int_or (x : option Z) (d : Z) : Z :=
  match x with
  | Some z => if decide (z = 0) then d else z
  | None => d
  end.

(** [max(l) if l else 0] *)
Definition max_or_zero (l : list Z) : Z :=
  match l with
  | [] => 0
  | x :: l' => foldl Z.max x l'
  end.

(** [str(e)] of a raised exception; the model identifies an exception with
    its message. *)
Definition exn : Type := string.

Inductive result (A : Type) : Type :=
| Ok (a : A)
| Raise (e : exn).
Arguments Ok {A} a.
Arguments Raise {A} e.

(** [datetime.now()] and [int(time.time())]: seconds since the epoch. *)
Definition timestamp : Type := Z.

(** ** Data model *)

(** One entry of [RMTData.practice_locations]. *)
Record PracticeLocation : Type := {
  employerName : option string;
  businessAddress : option string;
  businessCity : option string;
  province : option string;
}.

(** [rmt_review_extractor.RMTData]; [asdict] keeps the same fields. *)
Record RMTData : Type := {
  profile_id : string;
  first_name : string;
  last_name : string;
  common_first_name : string;
  common_last_name : string;
  practice_locations : list PracticeLocation;
  cmto_endpoint : string;
  registration_status : string;
  authorized_to_practice : bool;
}.

(** [ReviewExtraction.review_data]: a dict; the keys read with [.get] may be
    absent. *)
Record ReviewData : Type := {
  text : string;
  rating : option Z;
  time : option Z;
  author_name : option string;
  relative_time_description : option string;
}.

(** [ReviewExtraction.place_data]: the [place_info] dict of
    [get_place_reviews], which is [{}] when the lookup failed. *)
Record PlaceData : Type := {
  place_id : option string;
  name : option string;
  address : option string;
}.

(** [rmt_review_extractor.ReviewExtraction] ([extraction_metadata] is not read
    by the store). *)
Record ReviewExtraction : Type := {
  extraction_id : string;
  rmt_data : RMTData;
  matched_text_segments : list string;
  confidence_scores : list Z;
  review_data : ReviewData;
  place_data : PlaceData;
}.

(** One object of the JSON array [rmt_profiles.reviews_data]. *)
Record StoredReview : Type := {
  review_hash : string;
  sr_extraction_id : string;
  sr_place_id : string;
  place_name : string;
  place_address : string;
  review_text : string;
  review_rating : Z;
  review_author : string;
  review_timestamp : Z;
  review_time_description : string;
  sr_matched_text_segments : list string;
  sr_confidence_scores : list Z;
  max_confidence : Z;
  extracted_at : timestamp;
  extraction_run_id : string;
}.

(** A row of [rmt_profiles], keyed by [profile_id]. *)
Record ProfileRow : Type := {
  pr_first_name : string;
  pr_last_name : string;
  pr_common_first_name : string;
  pr_common_last_name : string;
  pr_registration_status : string;
  pr_authorized_to_practice : bool;
  pr_practice_locations : list PracticeLocation;
  pr_cmto_endpoint : string;
  reviews_data : option (list StoredReview);
  total_reviews : option Z;
  last_review_date : option timestamp;
  first_seen_run_id : option string;
  last_updated_run_id : option string;
  last_updated_at : option timestamp;
}.

(** A row of [monitoring_runs], keyed by [run_id]. *)
Record RunRow : Type := {
  run_type : string;
  started_at : timestamp;
  completed_at : option timestamp;
  search_keywords : list string;
  rmts_processed : Z;
  reviews_extracted : Z;
  reviews_analyzed : Z;
  status : string;
  error_message : option string;
}.

(** [gemini_review_analyzer.ComprehensiveRMTAnalysis], with the nested
    pydantic models flattened to the fields the store and the aggregator
    read. *)
Record ComprehensiveRMTAnalysis : Type := {
  an_extraction_id : string;
  overall_sentiment : string;
  confidence_score : Q;
  mention_confidence : Q;
  technical_skill_rating : option Z;
  communication_rating : option Z;
  professionalism_rating : option Z;
  review_authenticity : string;
  repeat_client_indicated : bool;
  recommendation_given : bool;
  overall_analysis_confidence : Q;
  potential_false_positive : bool;
}.

(** A row of [ai_analyses], keyed by [analysis_id]. *)
Record AnalysisRow : Type := {
  ar_profile_id : string;
  analysis_run_id : string;
  ar_review_hash : string;
  ar_mention_confidence : option Q;
  analysis_json : ComprehensiveRMTAnalysis;
  analyzed_at : timestamp;
  gemini_model_used : string;
}.

(** A row of [leaderboard_snapshots], keyed by [snapshot_id]. *)
Record SnapshotRow : Type := {
  sn_run_id : string;
  sn_profile_id : string;
  rmt_name : string;
  total_reviews_analyzed : Z;
  positive_sentiment_count : Z;
  negative_sentiment_count : Z;
  average_sentiment_score : Q;
  composite_reputation_score : Q;
  recommendation_rate : Q;
  repeat_client_rate : Q;
  potential_false_positives : Z;
  snapshot_at : timestamp;
}.

(** The SQLite file. *)
Record DB : Type := {
  monitoring_runs : gmap string RunRow;
  rmt_profiles : gmap string ProfileRow;
  ai_analyses : gmap string AnalysisRow;
  leaderboard_snapshots : gmap string SnapshotRow;
}.

Definition empty_db : DB :=
  {| monitoring_runs := ∅; rmt_profiles := ∅; ai_analyses := ∅;
     leaderboard_snapshots := ∅ |}.

Definition set_monitoring_runs (db : DB) (m : gmap string RunRow) : DB :=
  {| monitoring_runs := m; rmt_profiles := rmt_profiles db;
     ai_analyses := ai_analyses db;
     leaderboard_snapshots := leaderboard_snapshots db |}.

Definition set_rmt_profiles (db : DB) (m : gmap string ProfileRow) : DB :=
  {| monitoring_runs := monitoring_runs db; rmt_profiles := m;
     ai_analyses := ai_analyses db;
     leaderboard_snapshots := leaderboard_snapshots db |}.

Definition set_ai_analyses (db : DB) (m : gmap string AnalysisRow) : DB :=
  {| monitoring_runs := monitoring_runs db; rmt_profiles := rmt_profiles db;
     ai_analyses := m;
     leaderboard_snapshots := leaderboard_snapshots db |}.

Definition set_leaderboard_snapshots (db : DB) (m : gmap string SnapshotRow) : DB :=
  {| monitoring_runs := monitoring_runs db; rmt_profiles := rmt_profiles db;
     ai_analyses := ai_analyses db;
     leaderboard_snapshots := m |}.

(** ** RMTMonitoringDatabase: profiles, extractions and analyses *)

(** [s.split(sep)] for a one-character separator: never the empty list. *)
Fixpoint split_on (sep : ascii) (s : string) : list string :=
  match s with
  | EmptyString => [""]
  | String c s' =>
      if decide (c = sep) then "" :: split_on sep s'
      else match split_on sep s' with
           | [] => [String c ""]
           | p :: ps => String c p :: ps
           end
  end.

(** [RMTMonitoringDatabase.save_rmt_profile] *)
Definition save_rmt_profile (db : DB) (rmt : RMTData) (run_id : string)
    (now : timestamp) : DB :=
  match rmt_profiles db !! profile_id rmt with
  | Some existing =>
      set_rmt_profiles db
        (<[profile_id rmt :=
             {| pr_first_name := first_name rmt;
                pr_last_name := last_name rmt;
                pr_common_first_name := common_first_name rmt;
                pr_common_last_name := common_last_name rmt;
                pr_registration_status := registration_status rmt;
                pr_authorized_to_practice := authorized_to_practice rmt;
                pr_practice_locations := practice_locations rmt;
                pr_cmto_endpoint := cmto_endpoint rmt;
                reviews_data := reviews_data existing;
                total_reviews := total_reviews existing;
                last_review_date := last_review_date existing;
                first_seen_run_id := first_seen_run_id existing;
                last_updated_run_id := Some run_id;
                last_updated_at := Some now |}]> (rmt_profiles db))
  | None =>
      set_rmt_profiles db
        (<[profile_id rmt :=
             {| pr_first_name := first_name rmt;
                pr_last_name := last_name rmt;
                pr_common_first_name := common_first_name rmt;
                pr_common_last_name := common_last_name rmt;
                pr_registration_status := registration_status rmt;
                pr_authorized_to_practice := authorized_to_practice rmt;
                pr_practice_locations := practice_locations rmt;
                pr_cmto_endpoint := cmto_endpoint rmt;
                reviews_data := None;
                total_reviews := Some 0;
                last_review_date := None;
                first_seen_run_id := Some run_id;
                last_updated_run_id := Some run_id;
                last_updated_at := Some now |}]> (rmt_profiles db))
  end.

(** The deduplication key of [save_review_extraction]:
    [md5(f"{text}|{author_name}|{time}")]. *)
Definition review_content (rd : ReviewData) : string :=
  text rd +:+ "|" +:+ default "" (author_name rd) +:+ "|"
    +:+ pretty (default 0 (time rd)).

Definition review_hash_of (rd : ReviewData) : string :=
  MD5.hexdigest (review_content rd).

Definition new_review (e : ReviewExtraction) (run_id : string)
    (now : timestamp) : StoredReview :=
  {| review_hash := review_hash_of (review_data e);
     sr_extraction_id := extraction_id e;
     sr_place_id := default "" (place_id (place_data e));
     place_name := default "" (name (place_data e));
     place_address := default "" (address (place_data e));
     review_text := text (review_data e);
     review_rating := default 0 (rating (review_data e));
     review_author := default "" (author_name (review_data e));
     review_timestamp := default 0 (time (review_data e));
     review_time_description :=
       default "" (relative_time_description (review_data e));
     sr_matched_text_segments := matched_text_segments e;
     sr_confidence_scores := confidence_scores e;
     max_confidence := max_or_zero (confidence_scores e);
     extracted_at := now;
     extraction_run_id := run_id |}.

(** [RMTMonitoringDatabase.save_review_extraction]; [now1] and [now2] are the
    two readings of [datetime.now()].  The [UPDATE] changes the row of the
    profile when there is one and nothing otherwise. *)
Definition save_review_extraction (db : DB) (e : ReviewExtraction)
    (run_id : string) (now1 now2 : timestamp) : bool * DB :=
  let pid := profile_id (rmt_data e) in
  let existing_data := rmt_profiles db !! pid in
  let '(reviews, total) :=
    match existing_data with
    | Some row => (default [] (reviews_data row), int_or (total_reviews row) 0)
    | None => ([], 0)
    end in
  let existing_review_hashes := review_hash <$> reviews in
  if decide (review_hash_of (review_data e) ∈ existing_review_hashes)
  then (false, db)
  else
    let nr := new_review e run_id now1 in
    let db' :=
      match rmt_profiles db !! pid with
      | Some row =>
          set_rmt_profiles db
            (<[pid :=
                 {| pr_first_name := pr_first_name row;
                    pr_last_name := pr_last_name row;
                    pr_common_first_name := pr_common_first_name row;
                    pr_common_last_name := pr_common_last_name row;
                    pr_registration_status := pr_registration_status row;
                    pr_authorized_to_practice := pr_authorized_to_practice row;
                    pr_practice_locations := pr_practice_locations row;
                    pr_cmto_endpoint := pr_cmto_endpoint row;
                    reviews_data := Some (reviews ++ [nr])%list;
                    total_reviews := Some (total + 1);
                    last_review_date := Some (extracted_at nr);
                    first_seen_run_id := first_seen_run_id row;
                    last_updated_run_id := Some run_id;
                    last_updated_at := Some now2 |}]> (rmt_profiles db))
      | None => db
      end in
    (true, db').

(** [RMTMonitoringDatabase.save_ai_analysis]; [now1] is [int(time.time())],
    [now2] is [datetime.now()].  The columns copied from the analysis are kept
    in [analysis_json]. *)
Definition save_ai_analysis (db : DB) (analysis : ComprehensiveRMTAnalysis)
    (run_id model_used : string) (now1 now2 : timestamp) : result DB :=
  let parts := split_on "_" (an_extraction_id analysis) in
  if decide (3 ≤ length parts)%nat then
    let pid := default "" (head parts) in
    let rhash := default "" (last parts) in
    let analysis_id :=
      "analysis_" +:+ an_extraction_id analysis +:+ "_" +:+ pretty now1 in
    match ai_analyses db !! analysis_id with
    | Some _ => Raise "UNIQUE constraint failed: ai_analyses.analysis_id"
    | None =>
        Ok (set_ai_analyses db
              (<[analysis_id :=
                   {| ar_profile_id := pid;
                      analysis_run_id := run_id;
                      ar_review_hash := rhash;
                      ar_mention_confidence := Some (mention_confidence analysis);
                      analysis_json := analysis;
                      analyzed_at := now2;
                      gemini_model_used := model_used |}]> (ai_analyses db)))
    end
  else Ok db.

(** The dict built for each unanalyzed review. *)
Record ExtractionData : Type := {
  ed_extraction_id : string;
  ed_profile_id : string;
  ed_review_text : string;
  ed_review_rating : Z;
  ed_review_author : string;
  ed_review_time_description : string;
  ed_place_id : string;
  ed_place_name : string;
  ed_place_address : string;
  ed_matched_text_segments : list string;
  ed_confidence_scores : list Z;
  ed_max_confidence : Z;
}.

Definition extraction_data (pid : string) (r : StoredReview) : ExtractionData :=
  {| ed_extraction_id := sr_extraction_id r;
     ed_profile_id := pid;
     ed_review_text := review_text r;
     ed_review_rating := review_rating r;
     ed_review_author := review_author r;
     ed_review_time_description := review_time_description r;
     ed_place_id := sr_place_id r;
     ed_place_name := place_name r;
     ed_place_address := place_address r;
     ed_matched_text_segments := sr_matched_text_segments r;
     ed_confidence_scores := sr_confidence_scores r;
     ed_max_confidence := max_confidence r |}.

(** [SELECT ... LIMIT n]: [if limit:] skips [None] and [0]; SQLite reads a
    negative limit as no limit. *)
Definition sql_limit {A : Type} (limit : option Z) (rows : list A) : list A :=
  match limit with
  | Some n => if decide (0 < n) then take (Z.to_nat n) rows else rows
  | None => rows
  end.

(** [SELECT review_hash FROM ai_analyses WHERE profile_id = ?] *)
Definition analyzed_hashes (db : DB) (pid : string) : list string :=
  ar_review_hash <$>
    filter (fun row => ar_profile_id row = pid)
           ((map_to_list (ai_analyses db)).*2).

(** The profiles selected by the query of [get_unanalyzed_extractions]:
    [reviews_data IS NOT NULL AND reviews_data != '[]']. *)
Definition profiles_with_reviews (db : DB) : list (string * list StoredReview) :=
  omap (fun '(pid, row) =>
          match reviews_data row with
          | Some (r :: rs) => Some (pid, r :: rs)
          | _ => None
          end)
       (map_to_list (rmt_profiles db)).

(** The reviews selected by [get_unanalyzed_extractions], each with its
    profile. *)
Definition unanalyzed_reviews (db : DB) (limit : option Z)
    : list (string * StoredReview) :=
  '(pid, reviews) ← sql_limit limit (profiles_with_reviews db);
  (fun r => (pid, r)) <$>
    filter (fun r => review_hash r ∉ analyzed_hashes db pid) reviews.

(** [RMTMonitoringDatabase.get_unanalyzed_extractions] *)
Definition get_unanalyzed_extractions (db : DB) (limit : option Z)
    : list ExtractionData :=
  (fun '(pid, r) => extraction_data pid r) <$> unanalyzed_reviews db limit.

(** The reviews stored for a profile, and how many of them carry a hash. *)
Definition stored_reviews (db : DB) (pid : string) : list StoredReview :=
  match rmt_profiles db !! pid with
  | Some row => default [] (reviews_data row)
  | None => []
  end.

Definition copies (db : DB) (pid h : string) : nat :=
  length (filter (fun r => review_hash r = h) (stored_reviews db pid)).

(** What "the second call is suppressed" says of two calls of
    [save_review_extraction], the first on [db]. *)
Definition second_save_suppressed (db : DB) (e e' : ReviewExtraction)
    (run_id run_id' : string) (t1 t2 t3 t4 : timestamp) : Prop :=
  let db1 := (save_review_extraction db e run_id t1 t2).2 in
  save_review_extraction db1 e' run_id' t3 t4 = (false, db1).

(** ** RMTMonitoringDatabase: monitoring runs *)

(** The [stats] dict of a run; [stats.get(k, 0)] reads a field. *)
Record Stats : Type := {
  st_rmts_processed : Z;
  st_reviews_extracted : Z;
  st_reviews_analyzed : Z;
}.

Definition zero_stats : Stats :=
  {| st_rmts_processed := 0; st_reviews_extracted := 0; st_reviews_analyzed := 0 |}.

(** Truth value of an [Optional[str]]: [None] and [''] are false. *)
Definition truthy (x : option string) : bool :=
  match x with
  | Some s => if decide (s = "") then false else true
  | None => false
  end.

(** [RMTMonitoringDatabase.start_monitoring_run]; [now1] is [int(time.time())],
    [now2] is [datetime.now()]. *)
Definition start_monitoring_run (db : DB) (rtype : string)
    (keywords : list string) (now1 now2 : timestamp) : result (string * DB) :=
  let run_id := rtype +:+ "_" +:+ pretty now1 in
  match monitoring_runs db !! run_id with
  | Some _ => Raise "UNIQUE constraint failed: monitoring_runs.run_id"
  | None =>
      Ok (run_id,
          set_monitoring_runs db
            (<[run_id :=
                 {| run_type := rtype; started_at := now2; completed_at := None;
                    search_keywords := keywords; rmts_processed := 0;
                    reviews_extracted := 0; reviews_analyzed := 0;
                    status := "running"; error_message := None |}]>
               (monitoring_runs db)))
  end.

(** [RMTMonitoringDatabase.complete_monitoring_run] *)
Definition complete_monitoring_run (db : DB) (run_id : string) (stats : Stats)
    (error : option string) (now : timestamp) : DB :=
  let new_status := if truthy error then "failed" else "completed" in
  match monitoring_runs db !! run_id with
  | Some row =>
      set_monitoring_runs db
        (<[run_id :=
             {| run_type := run_type row; started_at := started_at row;
                completed_at := Some now;
                search_keywords := search_keywords row;
                rmts_processed := st_rmts_processed stats;
                reviews_extracted := st_reviews_extracted stats;
                reviews_analyzed := st_reviews_analyzed stats;
                status := new_status; error_message := error |}]>
           (monitoring_runs db))
  | None => db
  end.

(** [SELECT * FROM monitoring_runs WHERE status = 'completed' [AND run_type = ?]
    ORDER BY completed_at DESC LIMIT 1]: a completed run with the latest
    [completed_at]. *)
Definition later_run (best : option (string * RunRow)) (cand : string * RunRow)
    : option (string * RunRow) :=
  match best with
  | Some b =>
      if decide (default 0 (completed_at b.2) < default 0 (completed_at cand.2))
      then Some cand else Some b
  | None => Some cand
  end.

Definition is_successful_run (rtype : option string) (r : string * RunRow)
    : bool :=
  bool_decide (status r.2 = "completed") &&
  match rtype with
  | Some t => bool_decide (t = "") || bool_decide (run_type r.2 = t)
  | None => true
  end.

Definition get_last_successful_run (db : DB) (rtype : option string)
    : option (string * RunRow) :=
  foldl later_run None
    (filter (fun r => is_successful_run rtype r = true)
            (map_to_list (monitoring_runs db))).

(** ** AnalysisOnlyRunner: monitoring runs and analyses *)

(** [AnalysisOnlyRunner.create_monitoring_run] *)
Definition create_monitoring_run (db : DB) (run_id : string) (now : timestamp)
    : result DB :=
  match monitoring_runs db !! run_id with
  | Some _ => Raise "UNIQUE constraint failed: monitoring_runs.run_id"
  | None =>
      Ok (set_monitoring_runs db
            (<[run_id :=
                 {| run_type := "analysis_only"; started_at := now;
                    completed_at := None;
                    search_keywords := ["analysis_only"]; rmts_processed := 0;
                    reviews_extracted := 0; reviews_analyzed := 0;
                    status := "running"; error_message := None |}]>
               (monitoring_runs db)))
  end.

(** [AnalysisOnlyRunner.update_monitoring_run] *)
Definition update_monitoring_run (db : DB) (run_id : string)
    (n_analyzed successful failed : Z) (now : timestamp) : DB :=
  match monitoring_runs db !! run_id with
  | Some row =>
      set_monitoring_runs db
        (<[run_id :=
             {| run_type := run_type row; started_at := started_at row;
                completed_at := Some now;
                search_keywords := search_keywords row;
                rmts_processed := rmts_processed row;
                reviews_extracted := reviews_extracted row;
                reviews_analyzed := n_analyzed;
                status := if decide (failed = 0) then "completed"
                          else "completed_with_errors";
                error_message :=
                  if decide (0 < failed)
                  then Some ("Analysis complete: " +:+ pretty successful
                               +:+ " successful, " +:+ pretty failed +:+ " failed")
                  else None |}]>
           (monitoring_runs db))
  | None => db
  end.

(** [str.isspace] on an ASCII character: tab to carriage return, the four
    separators FS, GS, RS, US, and the space. *)
Definition is_space (c : ascii) : bool :=
  let n := Ascii.nat_of_ascii c in
  ((9 <=? n) && (n <=? 13) || (28 <=? n) && (n <=? 32))%nat.

(** [p in s] for strings. *)
Fixpoint is_prefix (p s : string) : bool :=
  match p, s with
  | EmptyString, _ => true
  | String a p', String b s' => if decide (a = b) then is_prefix p' s' else false
  | String _ _, EmptyString => false
  end.

Fixpoint contains (s p : string) : bool :=
  is_prefix p s ||
  match s with
  | EmptyString => false
  | String _ s' => contains s' p
  end.

(** [s.strip() == ''] *)
Fixpoint all_space (s : string) : bool :=
  match s with
  | EmptyString => true
  | String c s' => is_space c && all_space s'
  end.

(** A value of no fixed type: what a field may hold before validation. *)
Inductive py_value : Type :=
| PyNone
| PyInt (z : Z)
| PyStr (s : string).

Definition sentinels : list string :=
  ["N/A"; "id"; "review"; "unknown"; "placeholder"; "prompt"; "not"; "provided"].

(** The guard of [save_analysis] and [get_unanalyzed_reviews]:
    [not extraction_id or not isinstance(extraction_id, str)
     or extraction_id.strip() == '' or any(x in extraction_id for x in [...])] *)
Definition bad_extraction_id (v : py_value) : bool :=
  match v with
  | PyStr s =>
      bool_decide (s = "") || all_space s || existsb (contains s) sentinels
  | _ => true
  end.

(** [AnalysisOnlyRunner.save_analysis]; the identifier is passed as read from
    [analysis.extraction_id].  The first component is what [logger.error]
    wrote. *)
Definition save_analysis (db : DB) (id : py_value)
    (analysis : ComprehensiveRMTAnalysis) (run_id : string)
    (now1 now2 : timestamp) : list string * result DB :=
  if bad_extraction_id id then
    (["Skipping analysis with bad extraction_id"], Ok db)
  else
    match id with
    | PyStr extraction_id =>
        let pid := default "" (head (split_on "_" extraction_id)) in
        let rhash := default "" (last (split_on "_" extraction_id)) in
        let analysis_id := "analysis_" +:+ pid +:+ "_" +:+ pretty now1 in
        match ai_analyses db !! analysis_id with
        | Some _ =>
            ([], Raise "UNIQUE constraint failed: ai_analyses.analysis_id")
        | None =>
            ([], Ok (set_ai_analyses db
                       (<[analysis_id :=
                            {| ar_profile_id := pid;
                               analysis_run_id := run_id;
                               ar_review_hash := rhash;
                               ar_mention_confidence := None;
                               analysis_json := analysis;
                               analyzed_at := now2;
                               gemini_model_used :=
                                 "gemini-2.5-flash-preview-04-17" |}]>
                          (ai_analyses db))))
        end
    | _ => ([], Raise "extraction_id is not a string")
    end.

(** ** GeminiReviewAnalyzer: the composite reputation score *)

(** [sum(l)] and [sum(l) / len(l)] on numbers. *)
Definition Qsum (l : list Q) : Q := foldr Qplus 0%Q l.

Definition Qmean (l : list Q) : Q :=
  (Qsum l / inject_Z (Z.of_nat (length l)))%Q.

(** The quality component of [_calculate_composite_score]:
    [quality_scores = technical + communication + professionalism] and
    [(sum(quality_scores) / len(quality_scores) - 1) * 7.5 if quality_scores
     else 15]. *)
Definition quality_score (technical communication professionalism : list Q)
    : Q :=
  let quality_scores := (technical ++ communication ++ professionalism)%list in
  match quality_scores with
  | [] => 15%Q
  | _ :: _ => ((Qmean quality_scores - 1) * (75 # 10))%Q
  end.

(** [GeminiReviewAnalyzer._calculate_composite_score] *)
Definition _calculate_composite_score (n_reviews high_confidence authentic
    positive negative : Z) (avg_sentiment : Q)
    (technical communication professionalism : list Q)
    (recommendations repeat_clients false_positives : Z) : Q :=
  if decide (n_reviews = 0) then 0%Q
  else
    let sentiment_score := Qmax 0 (Qmin 40 ((avg_sentiment + 1) * 20)) in
    let quality := quality_score technical communication professionalism in
    let confidence_ratio :=
      if decide (0 < n_reviews)
      then (inject_Z high_confidence / inject_Z n_reviews)%Q else 0%Q in
    let volume_bonus := inject_Z (Z.min 10 n_reviews) in
    let confidence_bonus := (confidence_ratio * 10)%Q in
    let recommendation_bonus :=
      if decide (0 < n_reviews)
      then (inject_Z recommendations / inject_Z n_reviews * 5)%Q else 0%Q in
    let repeat_client_bonus :=
      if decide (0 < n_reviews)
      then (inject_Z repeat_clients / inject_Z n_reviews * 5)%Q else 0%Q in
    let false_positive_penalty := inject_Z (Z.min 20 (false_positives * 5)) in
    let composite :=
      (sentiment_score + quality + volume_bonus + confidence_bonus
       + recommendation_bonus + repeat_client_bonus
       - false_positive_penalty)%Q in
    Qmax 0 (Qmin 100 composite).

(** ** RMTReviewExtractor: the match engine *)

(** [\w] on an ASCII character: letters, digits and the underscore. *)
Definition is_word (c : ascii) : bool :=
  let n := Ascii.nat_of_ascii c in
  ((48 <=? n) && (n <=? 57) || (65 <=? n) && (n <=? 90) || (n =? 95)
   || (97 <=? n) && (n <=? 122))%nat.

(** [str.lower] on an ASCII character. *)
Definition lower_char (c : ascii) : ascii :=
  let n := Ascii.nat_of_ascii c in
  if ((65 <=? n) && (n <=? 90))%nat then Ascii.ascii_of_nat (n + 32) else c.

Fixpoint map_string (f : ascii → ascii) (s : string) : string :=
  match s with
  | EmptyString => EmptyString
  | String c s' => String (f c) (map_string f s')
  end.

Definition lower (s : string) : string := map_string lower_char s.

(** The classes above are those of the ASCII characters, on which [\w],
    [\s], [str.lower], [str.split] and [re.IGNORECASE] do what these
    definitions say; on other characters Python consults the Unicode tables.
    The statements that depend on the classes are about ASCII texts and
    terms. *)
Definition is_ascii (c : ascii) : bool := (Ascii.nat_of_ascii c <? 128)%nat.

Fixpoint ascii_text (s : string) : bool :=
  match s with
  | EmptyString => true
  | String c s' => is_ascii c && ascii_text s'
  end.

(** [re.sub(r'[^\w\s]', ' ', text.lower())] *)
Definition clean_char (c : ascii) : ascii :=
  if is_word c || is_space c then c else " "%char.

Definition clean_text_of (text : string) : string :=
  map_string clean_char (lower text).

(** [s.split()]: the maximal runs of characters that are not spaces. *)
Fixpoint split_words (s : string) : list string :=
  match s with
  | EmptyString => []
  | String c s' =>
      if is_space c then split_words s'
      else
        match s' with
        | EmptyString => [String c EmptyString]
        | String c' _ =>
            if is_space c' then String c EmptyString :: split_words s'
            else
              match split_words s' with
              | w :: ws => String c w :: ws
              | [] => [String c EmptyString]
              end
        end
  end.

(** [' '.join(ws)] *)
Fixpoint join_words (ws : list string) : string :=
  match ws with
  | [] => EmptyString
  | [w] => w
  | w :: ws' => w +:+ " " +:+ join_words ws'
  end.

Fixpoint drop_string (n : nat) (s : string) : string :=
  match n, s with
  | O, _ => s
  | S n', String _ s' => drop_string n' s'
  | S _, EmptyString => EmptyString
  end.

(** The patterns the engine builds:
    [re.escape(term).replace(r'\ ', r'\s+')] is a sequence of literal
    characters in which every space has become [\s+]. *)
Inductive tok : Type :=
| Lit (c : ascii)
| Spaces.

Definition pattern_of (term : string) : list tok :=
  (fun c => if decide (c = " "%char) then Spaces else Lit c)
    <$> String.list_ascii_of_string term.

(** A literal against a character, under [re.IGNORECASE] or not. *)
Definition char_eq (icase : bool) (c x : ascii) : bool :=
  if icase then bool_decide (lower_char c = lower_char x)
  else bool_decide (c = x).

(** The length of the run of spaces at the start of [s]. *)
Fixpoint space_run (s : string) : nat :=
  match s with
  | String c s' => if is_space c then S (space_run s') else O
  | EmptyString => O
  end.

Definition next_is_word (s : string) : bool :=
  match s with
  | String c _ => is_word c
  | EmptyString => false
  end.

(** [\s+] is greedy: it takes [k] spaces for the largest [k] from [n] down
    to 1 with which the rest of the pattern matches. *)
Fixpoint try_spaces (rest : string → option nat) (s : string) (k : nat)
    : option nat :=
  match k with
  | O => None
  | S k' =>
      match rest (drop_string k s) with
      | Some m => Some (k + m)%nat
      | None => try_spaces rest s k'
      end
  end.

(** The match of a pattern at the start of [s], as the backtracking engine
    finds it: the number of characters matched.  [bound_end] asks for a word
    boundary [\b] after the pattern; [prev_word] tells whether the character
    before [s] is a word character. *)
Fixpoint match_here (icase bound_end : bool) (ts : list tok) (prev_word : bool)
    (s : string) : option nat :=
  match ts with
  | [] =>
      if bound_end then
        if xorb prev_word (next_is_word s) then Some O else None
      else Some O
  | Lit c :: ts' =>
      match s with
      | String x s' =>
          if char_eq icase c x
          then S <$> match_here icase bound_end ts' (is_word x) s'
          else None
      | EmptyString => None
      end
  | Spaces :: ts' =>
      try_spaces (match_here icase bound_end ts' false) s (space_run s)
  end.

(** [re.search]: the leftmost position at which the pattern matches, with the
    length of the match. *)
Fixpoint search_from (m : bool → string → option nat) (prev_word : bool)
    (s : string) (pos : nat) : option (nat * nat) :=
  match m prev_word s with
  | Some len => Some (pos, len)
  | None =>
      match s with
      | EmptyString => None
      | String c s' => search_from m (is_word c) s' (S pos)
      end
  end.

Definition search (m : bool → string → option nat) (s : string)
    : option (nat * nat) :=
  search_from m false s O.

(** [match.group()] *)
Definition group (s : string) (m : nat * nat) : string :=
  String.substring m.1 m.2 s.

(** The pattern of methods 1 and 4, and the pattern [\b...\b] of method 2. *)
Definition plain_match (icase : bool) (term : string)
    : bool → string → option nat :=
  match_here icase false (pattern_of term).

Definition word_match (icase : bool) (term : string)
    : bool → string → option nat :=
  fun prev_word s =>
    if xorb prev_word (next_is_word s)
    then match_here icase true (pattern_of term) prev_word s
    else None.

(** The two scorers of [fuzzywuzzy.fuzz] that the engine calls. *)
Record Fuzz : Type := {
  partial_ratio : string → string → Z;
  ratio : string → string → Z;
}.

(** A result of the engine: [(matched_term, confidence_score,
    matched_text_segment)]. *)
Definition MatchResult : Type := string * Z * string.

Definition name_confidence_threshold : Z := 75.
Definition location_confidence_threshold : Z := 60.

(** The windows [words[i:j]] for [j] in [range(i + 1, min(i + 5,
    len(words) + 1))], given [words[i:]]. *)
Definition windows (ws : list string) : list (list string) :=
  (fun k => take k ws) <$> seq 1 (Nat.min 4 (length ws)).

(** Method 4 for the windows that start at one word: the first window whose
    ratio reaches the threshold. *)
Definition window_match (fz : Fuzz) (text : string) (threshold : Z)
    (search_term : string) (ws : list string) : list MatchResult :=
  match
    List.find (fun combo =>
                 threshold <=? ratio fz (lower search_term) (join_words combo))
              (windows ws)
  with
  | Some combo =>
      let word_combo := join_words combo in
      let matched_segment :=
        match search (plain_match true word_combo) text with
        | Some m => group text m
        | None => word_combo
        end in
      [(search_term, ratio fz (lower search_term) word_combo, matched_segment)]
  | None => []
  end.

Fixpoint window_matches (fz : Fuzz) (text : string) (threshold : Z)
    (search_term : string) (words : list string) : list MatchResult :=
  match words with
  | [] => []
  | w :: words' =>
      (window_match fz text threshold search_term (w :: words')
       ++ window_matches fz text threshold search_term words')%list
  end.

(** The body of the loop over the search terms: what one term appends to
    [matches].  In method 2 the second pattern is
    [pattern.replace(re.escape(term_lower), search_term, 1)], which is
    [pattern] itself when the term has a space; a term without a space never
    gets there (see [word_match_needs_space]). *)
Definition term_matches (fz : Fuzz) (text : string) (threshold : Z)
    (search_term : string) : list MatchResult :=
  let clean_text := clean_text_of text in
  let term_lower := lower search_term in
  if contains clean_text term_lower then
    match search (plain_match true search_term) text with
    | Some m => [(search_term, 95, group text m)]
    | None => []
    end
  else if bool_decide (is_Some (search (word_match false term_lower) clean_text))
  then
    match search (word_match true term_lower) text with
    | Some m => [(search_term, 90, group text m)]
    | None => []
    end
  else
    let full_score := partial_ratio fz term_lower clean_text in
    if threshold <=? full_score
    then [(search_term, full_score, "[Fuzzy match in full text]")]
    else window_matches fz text threshold search_term (split_words clean_text).

(** [sorted(matches, key=lambda x: x[1], reverse=True)]: stable. *)
Fixpoint insert_desc (x : MatchResult) (l : list MatchResult)
    : list MatchResult :=
  match l with
  | [] => [x]
  | y :: l' => if y.1.2 <? x.1.2 then x :: y :: l' else y :: insert_desc x l'
  end.

Definition sort_desc (l : list MatchResult) : list MatchResult :=
  foldl (fun acc x => insert_desc x acc) [] l.

(** The first match of each term. *)
Fixpoint unique_matches (seen : list string) (l : list MatchResult)
    : list MatchResult :=
  match l with
  | [] => []
  | m :: l' =>
      if decide (m.1.1 ∈ seen) then unique_matches seen l'
      else m :: unique_matches (m.1.1 :: seen) l'
  end.

(** [RMTReviewExtractor.find_text_matches] *)
Definition find_text_matches (fz : Fuzz) (text : string)
    (search_terms : list string) (match_type : string) : list MatchResult :=
  if bool_decide (text = "") || bool_decide (search_terms = []) then []
  else
    let threshold :=
      if decide (match_type = "name") then name_confidence_threshold
      else location_confidence_threshold in
    unique_matches []
      (sort_desc (search_terms ≫= term_matches fz text threshold)).

(** ** fuzzywuzzy.fuzz over difflib.SequenceMatcher

    The scorers are a parameter of the engine.  This instance follows the
    pure-Python path of fuzzywuzzy ([fuzz.ratio] and [fuzz.partial_ratio]
    over [difflib.SequenceMatcher(None, a, b)]); it is used to run the engine
    on concrete texts. *)

Module Difflib.

(** [autojunk]: in a sequence of 200 elements or more, an element that
    occurs more than [n // 100 + 1] times is popular and is left out of
    [b2j]. *)
Definition popular (b : list ascii) (c : ascii) : bool :=
  ((200 <=? length b)
   && (length b / 100 + 1 <? length (filter (fun x => x = c) b)))%nat.

(** One pass of the inner loop of [find_longest_match]: [newj2len] for the
    element [ai], as the list of its values at [j = 0, 1, ...]; [diag] is
    [j2len.get(j - 1, 0)]. *)
Fixpoint new_row (pop : ascii → bool) (ai : ascii) (blo bhi : nat)
    (b : list ascii) (prev : list nat) (j diag : nat) : list nat :=
  match b with
  | [] => []
  | bj :: b' =>
      (if (blo <=? j)%nat && (j <? bhi)%nat && bool_decide (bj = ai)
          && negb (pop bj)
       then S diag else O)
      :: new_row pop ai blo bhi b' (tail prev) (S j) (hd O prev)
  end.

(** [if k > bestsize: besti, bestj, bestsize = i-k+1, j-k+1, k] *)
Fixpoint scan_row (i : nat) (row : list nat) (j : nat) (best : nat * nat * nat)
    : nat * nat * nat :=
  match row with
  | [] => best
  | k :: row' =>
      scan_row i row' (S j)
        (if (best.2 <? k)%nat then (i + 1 - k, j + 1 - k, k)%nat else best)
  end.

Fixpoint extend_back (a b : list ascii) (alo blo fuel : nat)
    (best : nat * nat * nat) : nat * nat * nat :=
  match fuel with
  | O => best
  | S fuel' =>
      let '(i, j, k) := best in
      if (alo <? i)%nat && (blo <? j)%nat
         && bool_decide (a !! (i - 1)%nat = b !! (j - 1)%nat)
      then extend_back a b alo blo fuel' (i - 1, j - 1, k + 1)%nat
      else best
  end.

Fixpoint extend_forth (a b : list ascii) (ahi bhi fuel : nat)
    (best : nat * nat * nat) : nat * nat * nat :=
  match fuel with
  | O => best
  | S fuel' =>
      let '(i, j, k) := best in
      if (i + k <? ahi)%nat && (j + k <? bhi)%nat
         && bool_decide (a !! (i + k)%nat = b !! (j + k)%nat)
      then extend_forth a b ahi bhi fuel' (i, j, k + 1)%nat
      else best
  end.

(** [SequenceMatcher.find_longest_match] (no junk). *)
Definition find_longest_match (a b : list ascii) (alo ahi blo bhi : nat)
    : nat * nat * nat :=
  let step (st : nat * nat * nat * list nat) (i : nat) :=
    let row :=
      new_row (popular b) (default Ascii.zero (a !! i)) blo bhi b st.2 O O in
    (scan_row i row O st.1, row) in
  let best :=
    (foldl step ((alo, blo, O), replicate (length b) O)
       (seq alo (ahi - alo))).1 in
  extend_forth a b ahi bhi ahi (extend_back a b alo blo ahi best).

(** The recursion of [get_matching_blocks], in the order of the sequences. *)
Fixpoint blocks_between (fuel : nat) (a b : list ascii) (alo ahi blo bhi : nat)
    : list (nat * nat * nat) :=
  match fuel with
  | O => []
  | S fuel' =>
      let '(i, j, k) := find_longest_match a b alo ahi blo bhi in
      if (k =? 0)%nat then []
      else
        ((if (alo <? i)%nat && (blo <? j)%nat
          then blocks_between fuel' a b alo i blo j else [])
         ++ (i, j, k)
         :: (if (i + k <? ahi)%nat && (j + k <? bhi)%nat
             then blocks_between fuel' a b (i + k) ahi (j + k) bhi else []))%list
  end.

(** Adjacent blocks are merged. *)
Fixpoint collapse (cur : nat * nat * nat) (l : list (nat * nat * nat))
    : list (nat * nat * nat) :=
  match l with
  | [] => if (cur.2 =? 0)%nat then [] else [cur]
  | (i2, j2, k2) :: l' =>
      let '(i1, j1, k1) := cur in
      if (i1 + k1 =? i2)%nat && (j1 + k1 =? j2)%nat
      then collapse (i1, j1, k1 + k2)%nat l'
      else (if (k1 =? 0)%nat then [] else [cur]) ++ collapse (i2, j2, k2) l'
  end.

(** [SequenceMatcher.get_matching_blocks] *)
Definition get_matching_blocks (a b : list ascii) : list (nat * nat * nat) :=
  (collapse (O, O, O)
     (blocks_between (S (length a)) a b O (length a) O (length b))
   ++ [(length a, length b, O)])%list.

(** [SequenceMatcher.ratio] *)
Definition matcher_ratio (a b : list ascii) : Q :=
  let matches :=
    foldr (fun t acc => (t.2 + acc)%nat) O (get_matching_blocks a b) in
  let total := (length a + length b)%nat in
  if (total =? 0)%nat then 1%Q
  else (inject_Z (2 * Z.of_nat matches) / inject_Z (Z.of_nat total))%Q.

(** [utils.intr]: [int(round(x))], halves to the even integer. *)
Definition intr (q : Q) : Z :=
  let f := Qfloor q in
  match (q - inject_Z f ?= 1 # 2)%Q with
  | Lt => f
  | Gt => f + 1
  | Eq => if Z.even f then f else f + 1
  end.

(** [fuzz.ratio] *)
Definition ratio (s1 s2 : string) : Z :=
  if decide (s1 = s2) then 100
  else if bool_decide (s1 = "") || bool_decide (s2 = "") then 0
  else intr (100 * matcher_ratio (String.list_ascii_of_string s1)
                                 (String.list_ascii_of_string s2)).

(** [max(scores)]; the list has the dummy block at least. *)
Definition Qmax_list (l : list Q) : Q :=
  match l with
  | [] => 0%Q
  | x :: l' => foldl Qmax x l'
  end.

(** [fuzz.partial_ratio] *)
Definition partial_ratio (s1 s2 : string) : Z :=
  if decide (s1 = s2) then 100
  else if bool_decide (s1 = "") || bool_decide (s2 = "") then 0
  else
    let l1 := String.list_ascii_of_string s1 in
    let l2 := String.list_ascii_of_string s2 in
    let '(shorter, longer) :=
      if (length l1 <=? length l2)%nat then (l1, l2) else (l2, l1) in
    let scores :=
      (fun block : nat * nat * nat =>
         let long_start := (block.1.2 - block.1.1)%nat in
         matcher_ratio shorter
           (take (length shorter) (drop long_start longer)))
        <$> get_matching_blocks shorter longer in
    if existsb (fun r => negb (Qle_bool r (995 # 1000))) scores then 100
    else intr (100 * Qmax_list scores).

End Difflib.

Definition fuzzywuzzy : Fuzz :=
  {| partial_ratio := Difflib.partial_ratio; ratio := Difflib.ratio |}.

(** The characters of a string, and punctuation: a character that is
    neither a word character nor a space. *)
Definition chars (s : string) : list ascii := String.list_ascii_of_string s.


(** The identifier [extract_review_data] gives an extraction:
    [review_hash = hashlib.md5(review_text.encode()).hexdigest()[:8]] and
    [extraction_id = f"{rmt_data.profile_id}_{place_id}_{review_hash}"]. *)
Definition make_extraction_id (pid place txt : string) : string :=
  pid +:+ "_" +:+ place +:+ "_" +:+ String.substring 0 8 (MD5.hexdigest txt).

(** ** The run orchestrator *)

(** A review that [extract_review_data] keeps: it was found at a place near a
    practice location, its text is long enough and has a name match. *)
Record FoundReview : Type := {
  fr_place_id : string;
  fr_place_info : PlaceData;
  fr_text : string;
  fr_rating : option Z;
  fr_time : option Z;
  fr_author_name : option string;
  fr_relative_time_description : option string;
  fr_name_matches : list (string * Z * string);
  fr_location_matches : list (string * Z * string);
}.

(** The [ReviewExtraction] that [extract_review_data] builds for a kept
    review. *)
Definition build_extraction (rmt : RMTData) (fr : FoundReview)
    : ReviewExtraction :=
  let all_matches := (fr_name_matches fr ++ fr_location_matches fr)%list in
  {| extraction_id :=
       make_extraction_id (profile_id rmt) (fr_place_id fr) (fr_text fr);
     rmt_data := rmt;
     matched_text_segments := (fun m : string * Z * string => m.2) <$> all_matches;
     confidence_scores := (fun m : string * Z * string => m.1.2) <$> all_matches;
     review_data :=
       {| text := fr_text fr;
          rating := Some (default 0 (fr_rating fr));
          time := Some (default 0 (fr_time fr));
          author_name := Some (default "" (fr_author_name fr));
          relative_time_description :=
            Some (default "" (fr_relative_time_description fr)) |};
     place_data := fr_place_info fr |}.

(** The dict handed to the AI collaborator, by the function that builds it. *)
Inductive AnalysisRequest : Type :=
| FromExtraction (e : ReviewExtraction)
| FromBacklog (d : ExtractionData)
| FromStore (pid : string) (row : ProfileRow) (id : string) (r : StoredReview).

(** The collaborators and the clock.  The first argument of each is the
    number of interactions the run has had with them so far, so that a
    collaborator may answer the same question differently over time.

    None of the three collaborators raises: [search_cmto_profiles] has its
    whole loop in [try: ... except Exception] and returns the profiles it has
    got; [extract_review_data] catches, for each practice location, every
    exception of the searches and of the matching, and returns the
    extractions it has built; [analyze_single_review] returns [None] when
    the request or the parsing of the answer fails. *)
Record Env : Type := {
  clock : nat → timestamp;
  search_cmto_profiles : nat → string → Z → bool → list RMTData;
  kept_reviews : nat → RMTData → list FoundReview;
  analyze_single_review : nat → AnalysisRequest → option ComprehensiveRMTAnalysis;
  model_name : string;
}.

(** The database, the interaction counter and the local variables of a
    run: [stats], [all_extractions] or [new_extractions] and
    [processed_rmts] of the monitor, [successful] and [failed] of the
    analysis-only runner. *)
Record RunState : Type := {
  rs_db : DB;
  rs_tick : nat;
  rs_stats : Stats;
  rs_extractions : list ReviewExtraction;
  rs_processed : list string;
  rs_successful : Z;
  rs_failed : Z;
}.

Definition with_db (s : RunState) (db : DB) : RunState :=
  {| rs_db := db; rs_tick := rs_tick s; rs_stats := rs_stats s;
     rs_extractions := rs_extractions s; rs_processed := rs_processed s;
     rs_successful := rs_successful s; rs_failed := rs_failed s |}.

Definition with_tick (s : RunState) (n : nat) : RunState :=
  {| rs_db := rs_db s; rs_tick := n; rs_stats := rs_stats s;
     rs_extractions := rs_extractions s; rs_processed := rs_processed s;
     rs_successful := rs_successful s; rs_failed := rs_failed s |}.

Definition with_stats (s : RunState) (st : Stats) : RunState :=
  {| rs_db := rs_db s; rs_tick := rs_tick s; rs_stats := st;
     rs_extractions := rs_extractions s; rs_processed := rs_processed s;
     rs_successful := rs_successful s; rs_failed := rs_failed s |}.

Definition with_extractions (s : RunState) (l : list ReviewExtraction)
    : RunState :=
  {| rs_db := rs_db s; rs_tick := rs_tick s; rs_stats := rs_stats s;
     rs_extractions := l; rs_processed := rs_processed s;
     rs_successful := rs_successful s; rs_failed := rs_failed s |}.

Definition with_processed (s : RunState) (l : list string) : RunState :=
  {| rs_db := rs_db s; rs_tick := rs_tick s; rs_stats := rs_stats s;
     rs_extractions := rs_extractions s; rs_processed := l;
     rs_successful := rs_successful s; rs_failed := rs_failed s |}.

Definition with_counts (s : RunState) (successful failed : Z) : RunState :=
  {| rs_db := rs_db s; rs_tick := rs_tick s; rs_stats := rs_stats s;
     rs_extractions := rs_extractions s; rs_processed := rs_processed s;
     rs_successful := successful; rs_failed := failed |}.

(** Computations of a run: they read and change the state and may raise; the
    state reached when an exception is raised is kept. *)
Definition M (A : Type) : Type := RunState → result A * RunState.

Definition ret {A} (a : A) : M A := fun s => (Ok a, s).

Definition raise {A} (e : exn) : M A := fun s => (Raise e, s).

Definition bind {A B} (m : M A) (k : A → M B) : M B :=
  fun s =>
    match m s with
    | (Ok a, s') => k a s'
    | (Raise e, s') => (Raise e, s')
    end.

Notation "x ←ᵣ m ; k" := (bind m (fun x => k))
  (at level 100, m at next level, right associativity, only parsing).
Notation "m ;;ᵣ k" := (bind m (fun _ => k))
  (at level 100, right associativity, only parsing).

(** [try: m  except Exception as e: h e] *)
Definition try_except {A} (m : M A) (h : exn → M A) : M A :=
  fun s =>
    match m s with
    | (Ok a, s') => (Ok a, s')
    | (Raise e, s') => h e s'
    end.

(** [for x in l: body x] *)
Fixpoint for_each {A} (l : list A) (body : A → M unit) : M unit :=
  match l with
  | [] => ret tt
  | x :: l' => body x ;;ᵣ for_each l' body
  end.

(** One interaction with the collaborators or the clock. *)
Definition ask {A} (f : nat → A) : M A :=
  fun s => (Ok (f (rs_tick s)), with_tick s (S (rs_tick s))).

Definition get {A} (f : RunState → A) : M A := fun s => (Ok (f s), s).

Definition modify (f : RunState → RunState) : M unit := fun s => (Ok tt, f s).

(** [time.sleep(self.analyzer.request_delay)]; the delay is the constant
    [1.0] that the analyzer sets when it is built. *)
Definition sleep : M unit := modify (fun s => with_tick s (S (rs_tick s))).

(** [time.sleep(delay)] for a delay that the caller gives (a finite number):
    [ValueError] when it is negative. *)
Definition sleep_for (delay : Q) : M unit :=
  if Qle_bool 0 delay then sleep
  else raise "sleep length must be non-negative".

Definition add_rmts_processed (st : Stats) : Stats :=
  {| st_rmts_processed := st_rmts_processed st + 1;
     st_reviews_extracted := st_reviews_extracted st;
     st_reviews_analyzed := st_reviews_analyzed st |}.

Definition add_reviews_extracted (st : Stats) : Stats :=
  {| st_rmts_processed := st_rmts_processed st;
     st_reviews_extracted := st_reviews_extracted st + 1;
     st_reviews_analyzed := st_reviews_analyzed st |}.

Definition add_reviews_analyzed (st : Stats) : Stats :=
  {| st_rmts_processed := st_rmts_processed st;
     st_reviews_extracted := st_reviews_extracted st;
     st_reviews_analyzed := st_reviews_analyzed st + 1 |}.

(** The database methods as computations of a run. *)
Definition start_run (env : Env) (rtype : string) (keywords : list string)
    : M string :=
  t1 ←ᵣ ask (clock env);
  t2 ←ᵣ ask (clock env);
  fun s =>
    match start_monitoring_run (rs_db s) rtype keywords t1 t2 with
    | Ok (run_id, db') => (Ok run_id, with_db s db')
    | Raise e => (Raise e, s)
    end.

Definition complete_run (env : Env) (run_id : string) (error : option string)
    : M unit :=
  t ←ᵣ ask (clock env);
  modify (fun s =>
            with_db s (complete_monitoring_run (rs_db s) run_id (rs_stats s)
                         error t)).

Definition save_profile (env : Env) (rmt : RMTData) (run_id : string)
    : M unit :=
  t ←ᵣ ask (clock env);
  modify (fun s => with_db s (save_rmt_profile (rs_db s) rmt run_id t)).

Definition save_extraction (env : Env) (e : ReviewExtraction)
    (run_id : string) : M bool :=
  t1 ←ᵣ ask (clock env);
  t2 ←ᵣ ask (clock env);
  fun s =>
    let '(is_new, db') := save_review_extraction (rs_db s) e run_id t1 t2 in
    (Ok is_new, with_db s db').

Definition save_analysis_of_run (env : Env)
    (analysis : ComprehensiveRMTAnalysis) (run_id : string) : M unit :=
  t1 ←ᵣ ask (clock env);
  t2 ←ᵣ ask (clock env);
  fun s =>
    match save_ai_analysis (rs_db s) analysis run_id (model_name env) t1 t2 with
    | Ok db' => (Ok tt, with_db s db')
    | Raise e => (Raise e, s)
    end.

(** [extract_review_data]: the kept reviews, each built into an extraction
    of the professional. *)
Definition extract_review_data (env : Env) (rmt : RMTData)
    : M (list ReviewExtraction) :=
  found ←ᵣ ask (fun n => kept_reviews env n rmt);
  ret (build_extraction rmt <$> found).

(** The rows of [ai_analyses] of a profile. *)
Definition analyses_of (db : DB) (pid : string) : list AnalysisRow :=
  filter (fun row => ar_profile_id row = pid)
         ((map_to_list (ai_analyses db)).*2).

Definition count_where {A} (p : A → bool) (l : list A) : Z :=
  Z.of_nat (length (List.filter p l)).

Definition is_positive (row : AnalysisRow) : bool :=
  bool_decide (overall_sentiment (analysis_json row) = "positive")
  || bool_decide (overall_sentiment (analysis_json row) = "very_positive").

Definition is_negative (row : AnalysisRow) : bool :=
  bool_decide (overall_sentiment (analysis_json row) = "negative")
  || bool_decide (overall_sentiment (analysis_json row) = "very_negative").

(** One row of the aggregate query of [_generate_leaderboard_snapshot]: a
    profile that has at least one analysis. *)
Record LeaderRow : Type := {
  lr_profile_id : string;
  lr_rmt_name : string;
  lr_total_reviews : Z;
  lr_positive_count : Z;
  lr_negative_count : Z;
  lr_avg_sentiment : Q;
  lr_avg_confidence : Q;
  lr_false_positives : Z;
}.

Definition leaderboard_query (db : DB) : list LeaderRow :=
  omap (fun '(pid, prow) =>
          match analyses_of db pid with
          | [] => None
          | rows =>
              Some {| lr_profile_id := pid;
                      lr_rmt_name :=
                        pr_first_name prow +:+ " " +:+ pr_last_name prow;
                      lr_total_reviews := Z.of_nat (length rows);
                      lr_positive_count := count_where is_positive rows;
                      lr_negative_count := count_where is_negative rows;
                      lr_avg_sentiment :=
                        Qmean ((fun r => confidence_score (analysis_json r))
                                 <$> rows);
                      lr_avg_confidence :=
                        Qmean ((fun r =>
                                  overall_analysis_confidence (analysis_json r))
                                 <$> rows);
                      lr_false_positives :=
                        count_where
                          (fun r => potential_false_positive (analysis_json r))
                          rows |}
          end)
       (map_to_list (rmt_profiles db)).

(** The "simplified" composite score of the snapshot. *)
Definition snapshot_score (r : LeaderRow) : Q :=
  let sentiment_score :=
    if decide (0 < lr_total_reviews r)
    then (inject_Z (lr_positive_count r - lr_negative_count r)
          / inject_Z (lr_total_reviews r) * 50 + 50)%Q
    else 50%Q in
  let confidence_penalty :=
    if Qeq_bool (lr_avg_confidence r) 0 then 0%Q
    else Qmax 0 ((1 - lr_avg_confidence r) * 20) in
  let false_positive_penalty :=
    inject_Z (Z.min 20 (lr_false_positives r * 5)) in
  Qmax 0 (Qmin 100 (sentiment_score - confidence_penalty
                    - false_positive_penalty)).

(** The inserts of [_generate_leaderboard_snapshot], all in one transaction;
    each row reads the clock twice. *)
Fixpoint insert_snapshots (env : Env) (run_id : string) (rows : list LeaderRow)
    (n : nat) (m : gmap string SnapshotRow)
    : result (gmap string SnapshotRow) * nat :=
  match rows with
  | [] => (Ok m, n)
  | r :: rows' =>
      let snapshot_id :=
        "snapshot_" +:+ lr_profile_id r +:+ "_" +:+ pretty (clock env n) in
      match m !! snapshot_id with
      | Some _ =>
          (Raise "UNIQUE constraint failed: leaderboard_snapshots.snapshot_id",
           S (S n))
      | None =>
          insert_snapshots env run_id rows' (S (S n))
            (<[snapshot_id :=
                 {| sn_run_id := run_id;
                    sn_profile_id := lr_profile_id r;
                    rmt_name := lr_rmt_name r;
                    total_reviews_analyzed := lr_total_reviews r;
                    positive_sentiment_count := lr_positive_count r;
                    negative_sentiment_count := lr_negative_count r;
                    average_sentiment_score := lr_avg_sentiment r;
                    composite_reputation_score := snapshot_score r;
                    recommendation_rate := 0;
                    repeat_client_rate := 0;
                    potential_false_positives := lr_false_positives r;
                    snapshot_at := clock env (S n) |}]> m)
      end
  end.

(** [IncrementalRMTMonitor._generate_leaderboard_snapshot] *)
Definition _generate_leaderboard_snapshot (env : Env) (run_id : string)
    : M unit :=
  fun s =>
    match insert_snapshots env run_id (leaderboard_query (rs_db s)) (rs_tick s)
            (leaderboard_snapshots (rs_db s)) with
    | (Ok m, n) =>
        (Ok tt, with_tick (with_db s (set_leaderboard_snapshots (rs_db s) m)) n)
    | (Raise e, n) => (Raise e, with_tick s n)
    end.

Definition max_rmts_per_keyword : Z := 50.

(** The loop over the extractions of one professional. *)
Definition process_extractions (env : Env) (run_id : string)
    (extractions : list ReviewExtraction) : M unit :=
  for_each extractions (fun e =>
    is_new ←ᵣ save_extraction env e run_id;
    if is_new : bool then
      modify (fun s =>
                with_stats
                  (with_extractions s (rs_extractions s ++ [e])%list)
                  (add_reviews_extracted (rs_stats s)))
    else ret tt).

(** The AI analysis of one request, persisted when there is one. *)
Definition analyze_and_save (env : Env) (run_id : string)
    (req : AnalysisRequest) : M unit :=
  analysis ←ᵣ ask (fun n => analyze_single_review env n req);
  (match analysis with
   | Some a =>
       save_analysis_of_run env a run_id ;;ᵣ
       modify (fun s => with_stats s (add_reviews_analyzed (rs_stats s)))
   | None => ret tt
   end) ;;ᵣ
  sleep.

Definition reset_locals (s : RunState) : RunState :=
  {| rs_db := rs_db s; rs_tick := rs_tick s; rs_stats := zero_stats;
     rs_extractions := []; rs_processed := [];
     rs_successful := rs_successful s; rs_failed := rs_failed s |}.

(** The handler of both runs: [error_msg = str(e)],
    [complete_monitoring_run(run_id, stats, error_msg)], [raise]. *)
Definition fail_run (env : Env) (run_id : string) (e : exn) : M string :=
  complete_run env run_id (Some e) ;;ᵣ raise e.

(** The [try] block of [run_full_analysis]. *)
Definition full_body (env : Env) (run_id : string) (keywords : list string)
    : M string :=
  for_each keywords (fun keyword =>
    profiles ←ᵣ ask (fun n =>
      search_cmto_profiles env n keyword max_rmts_per_keyword true);
    for_each profiles (fun rmt =>
      processed ←ᵣ get rs_processed;
      if decide (profile_id rmt ∈ processed) then ret tt
      else
        modify (fun s => with_processed s (profile_id rmt :: rs_processed s)) ;;ᵣ
        save_profile env rmt run_id ;;ᵣ
        modify (fun s => with_stats s (add_rmts_processed (rs_stats s))) ;;ᵣ
        extractions ←ᵣ extract_review_data env rmt;
        process_extractions env run_id extractions)) ;;ᵣ
  all_extractions ←ᵣ get rs_extractions;
  for_each all_extractions (fun e =>
    analyze_and_save env run_id (FromExtraction e)) ;;ᵣ
  _generate_leaderboard_snapshot env run_id ;;ᵣ
  complete_run env run_id None ;;ᵣ
  ret run_id.

(** [IncrementalRMTMonitor.run_full_analysis] *)
Definition run_full_analysis (env : Env) (keywords : list string) : M string :=
  run_id ←ᵣ start_run env "full" keywords;
  modify reset_locals ;;ᵣ
  try_except (full_body env run_id keywords) (fail_run env run_id).

(** [IncrementalRMTMonitor._db_extraction_to_dict]: [json.loads] is applied to
    the lists of segments and of scores, and raises [TypeError] on a list that
    is not empty. *)
Definition _db_extraction_to_dict (d : ExtractionData) : M AnalysisRequest :=
  match ed_matched_text_segments d, ed_confidence_scores d with
  | [], [] => ret (FromBacklog d)
  | _, _ => raise "the JSON object must be str, bytes or bytearray, not list"
  end.

(** The [try] block of [run_incremental_update]. *)
Definition incremental_body (env : Env) (run_id : string)
    (keywords : list string) : M string :=
  for_each keywords (fun keyword =>
    profiles ←ᵣ ask (fun n =>
      search_cmto_profiles env n keyword (Z.min max_rmts_per_keyword 20) false);
    for_each profiles (fun rmt =>
      save_profile env rmt run_id ;;ᵣ
      modify (fun s => with_stats s (add_rmts_processed (rs_stats s))) ;;ᵣ
      extractions ←ᵣ extract_review_data env rmt;
      process_extractions env run_id extractions)) ;;ᵣ
  new_extractions ←ᵣ get rs_extractions;
  for_each new_extractions (fun e =>
    analyze_and_save env run_id (FromExtraction e)) ;;ᵣ
  unanalyzed ←ᵣ get (fun s => get_unanalyzed_extractions (rs_db s) (Some 50));
  for_each unanalyzed (fun d =>
    req ←ᵣ _db_extraction_to_dict d;
    analyze_and_save env run_id req) ;;ᵣ
  _generate_leaderboard_snapshot env run_id ;;ᵣ
  complete_run env run_id None ;;ᵣ
  ret run_id.

(** [IncrementalRMTMonitor.run_incremental_update];
    the clock is read once for [lookback_date]. *)
Definition run_incremental_update (env : Env) (keywords : list string)
    : M string :=
  last_run ←ᵣ get (fun s => get_last_successful_run (rs_db s) None);
  match last_run with
  | None => run_full_analysis env keywords
  | Some _ =>
      ask (clock env) ;;ᵣ
      run_id ←ᵣ start_run env "incremental" keywords;
      modify reset_locals ;;ᵣ
      try_except (incremental_body env run_id keywords) (fail_run env run_id)
  end.


(** ** AnalysisOnlyRunner: the analysis-only run *)

(** [AnalysisOnlyRunner.get_unanalyzed_reviews]: the [LEFT JOIN] yields a
    profile once for each of its analyses, and once when it has none. *)
Definition joined_profiles (db : DB)
    : list (string * ProfileRow * list StoredReview) :=
  '(pid, row) ← map_to_list (rmt_profiles db);
  match reviews_data row with
  | Some (r :: rs) =>
      replicate (Nat.max 1 (length (analyses_of db pid))) (pid, row, r :: rs)
  | _ => []
  end.

Definition repaired_extraction_id (pid : string) (r : StoredReview) : string :=
  if bad_extraction_id (PyStr (sr_extraction_id r)) then
    pid +:+ "_" +:+ sr_place_id r +:+ "_"
      +:+ (if decide (review_hash r = "") then pretty (review_timestamp r)
           else review_hash r)
  else sr_extraction_id r.

Definition get_unanalyzed_reviews (db : DB) (limit : option Z)
    : list AnalysisRequest :=
  '(pid, row, reviews) ← sql_limit limit (joined_profiles db);
  (fun r => FromStore pid row (repaired_extraction_id pid r) r) <$>
    filter (fun r => review_hash r ∉ analyzed_hashes db pid) reviews.

(** [self.save_analysis(analysis, run_id)] as a computation of a run; the
    clock is read for the row. *)
Definition save_analysis_in_run (env : Env) (a : ComprehensiveRMTAnalysis)
    (run_id : string) : M unit :=
  t1 ←ᵣ ask (clock env);
  t2 ←ᵣ ask (clock env);
  fun s =>
    match (save_analysis (rs_db s) (PyStr (an_extraction_id a)) a run_id
             t1 t2).2 with
    | Ok db' => (Ok tt, with_db s db')
    | Raise e => (Raise e, s)
    end.

(** The loop of [run_analysis].  The body of the loop is one [try] block:
    the AI analysis, the save and [successful += 1] (or [failed += 1] when
    there is no analysis), then the sleep when a review is left.  An
    exception raised anywhere in it is caught and counted by [failed += 1];
    what was counted before it was raised stays counted. *)
Fixpoint analysis_loop (env : Env) (run_id : string) (delay : Q)
    (items : list AnalysisRequest) : M unit :=
  match items with
  | [] => ret tt
  | req :: items' =>
      try_except
        (analysis ←ᵣ ask (fun n => analyze_single_review env n req);
         (match analysis with
          | Some a =>
              save_analysis_in_run env a run_id ;;ᵣ
              modify (fun s =>
                        with_counts s (rs_successful s + 1) (rs_failed s))
          | None =>
              modify (fun s =>
                        with_counts s (rs_successful s) (rs_failed s + 1))
          end) ;;ᵣ
         match items' with
         | [] => ret tt
         | _ :: _ => sleep_for delay
         end)
        (fun _ =>
           modify (fun s =>
                     with_counts s (rs_successful s) (rs_failed s + 1))) ;;ᵣ
      analysis_loop env run_id delay items'
  end.

(** [AnalysisOnlyRunner.run_analysis] *)
Definition run_analysis (env : Env) (limit : option Z) (delay : Q)
    : M (option string) :=
  unanalyzed ←ᵣ get (fun s => get_unanalyzed_reviews (rs_db s) limit);
  match unanalyzed with
  | [] => ret None
  | _ :: _ =>
      t ←ᵣ ask (clock env);
      let run_id := "analysis_only_" +:+ pretty t in
      t' ←ᵣ ask (clock env);
      (fun s =>
         match create_monitoring_run (rs_db s) run_id t' with
         | Ok db' => (Ok tt, with_db s db')
         | Raise e => (Raise e, s)
         end) ;;ᵣ
      modify (fun s => with_counts s 0 0) ;;ᵣ
      analysis_loop env run_id delay unanalyzed ;;ᵣ
      t'' ←ᵣ ask (clock env);
      modify (fun s =>
                with_db s (update_monitoring_run (rs_db s) run_id
                             (Z.of_nat (length unanalyzed)) (rs_successful s)
                             (rs_failed s) t'')) ;;ᵣ
      ret (Some run_id)
  end.

(** ** Specifications of runs *)

(** [hoare P m Q E]: from a state in [P], [m] ends in [Q] when it returns and
    in [E] when it raises. *)
Definition hoare {A} (P : RunState → Prop) (m : M A)
    (Q : A → RunState → Prop) (E : exn → RunState → Prop) : Prop :=
  ∀ s, P s →
    match m s with
    | (Ok a, s') => Q a s'
    | (Raise e, s') => E e s'
    end.


(** An extraction is stored: its hash is among the stored reviews of its
    professional. *)
Definition extraction_stored (db : DB) (e : ReviewExtraction) : Prop :=
  review_hash_of (review_data e)
    ∈ review_hash <$> stored_reviews db (profile_id (rmt_data e)).

(** The statuses that the code writes, and the error message of a failed
    run. *)
Definition run_row_ok (row : RunRow) : Prop :=
  status row ∈ ["running"; "completed"; "failed"; "completed_with_errors"] ∧
  (status row = "failed" → ∃ msg, error_message row = Some msg ∧ msg ≠ "").

Definition runs_ok (db : DB) : Prop :=
  ∀ id row, monitoring_runs db !! id = Some row → run_row_ok row.

(** What a run [run_id] may do to the database: it keeps its own row (and
    writes no status but those above), leaves the rows of the other runs as
    they are, only appends to the stored reviews and removes no profile. *)
Definition db_step (run_id : string) (db db' : DB) : Prop :=
  (∀ row, monitoring_runs db !! run_id = Some row →
     ∃ row', monitoring_runs db' !! run_id = Some row'
             ∧ (run_row_ok row → run_row_ok row')) ∧
  (monitoring_runs db !! run_id = None →
   monitoring_runs db' !! run_id = None) ∧
  (∀ id, id ≠ run_id → monitoring_runs db' !! id = monitoring_runs db !! id) ∧
  (∀ pid, stored_reviews db pid `prefix_of` stored_reviews db' pid) ∧
  (∀ pid, is_Some (rmt_profiles db !! pid) → is_Some (rmt_profiles db' !! pid)).

(** The invariant of the [try] block of a run that started from [db0]. *)
Definition run_inv (run_id : string) (db0 : DB) (s : RunState) : Prop :=
  db_step run_id db0 (rs_db s) ∧
  ∀ e, e ∈ rs_extractions s → extraction_stored (rs_db s) e.

(** A computation that leaves the list of extractions of the run alone and
    changes the database only as a run may. *)
Definition quiet {A} (run_id : string) (m : M A) : Prop :=
  ∀ s, rs_extractions (m s).2 = rs_extractions s
       ∧ db_step run_id (rs_db s) (rs_db (m s).2).

(** The invariant while the extractions of professional [pid] are saved. *)
Definition run_inv_at (run_id : string) (db0 : DB) (pid : string)
    (s : RunState) : Prop :=
  run_inv run_id db0 s ∧ is_Some (rmt_profiles (rs_db s) !! pid).

(** The calls that write [monitoring_runs], with any arguments. *)
Inductive run_op : Type :=
| StartRun (rtype : string) (keywords : list string) (t1 t2 : timestamp)
| CompleteRun (run_id : string) (stats : Stats) (error : option string)
    (t : timestamp)
| CreateRun (run_id : string) (t : timestamp)
| UpdateRun (run_id : string) (n successful failed : Z) (t : timestamp).

Definition apply_run_op (db : DB) (op : run_op) : DB :=
  match op with
  | StartRun rtype keywords t1 t2 =>
      match start_monitoring_run db rtype keywords t1 t2 with
      | Ok (_, db') => db'
      | Raise _ => db
      end
  | CompleteRun run_id stats error t =>
      complete_monitoring_run db run_id stats error t
  | CreateRun run_id t =>
      match create_monitoring_run db run_id t with
      | Ok db' => db'
      | Raise _ => db
      end
  | UpdateRun run_id n successful failed t =>
      update_monitoring_run db run_id n successful failed t
  end.

(** The three entry points that open a monitoring run. *)
Inductive driver : Type :=
| FullAnalysis (keywords : list string)
| IncrementalUpdate (keywords : list string)
| AnalysisOnly (limit : option Z) (delay : Q).

(** The state in which an entry point leaves the run, whether it returns or
    raises. *)
Definition run_driver (env : Env) (d : driver) (s : RunState) : RunState :=
  match d with
  | FullAnalysis keywords => (run_full_analysis env keywords s).2
  | IncrementalUpdate keywords => (run_incremental_update env keywords s).2
  | AnalysisOnly limit delay => (run_analysis env limit delay s).2
  end.

(** Entry points called one after the other. *)
Definition run_drivers (env : Env) (ds : list driver) (s : RunState)
    : RunState :=
  foldl (fun s d => run_driver env d s) s ds.

(** The statuses of the data model: [running], [completed], [failed]. *)
Definition documented_status (row : RunRow) : Prop :=
  status row ∈ ["running"; "completed"; "failed"].

(** ** Sample data *)

Module Sample.

Definition jane : RMTData :=
  {| profile_id := "p1"; first_name := "Jane"; last_name := "Doe";
     common_first_name := "Janie"; common_last_name := "Doe";
     practice_locations :=
       [ {| employerName := Some "Doe Wellness Clinic";
            businessAddress := Some "12 Main Street";
            businessCity := Some "Stouffville";
            province := Some "ON" |} ];
     cmto_endpoint := "https://cmto.example/p1";
     registration_status := "Active";
     authorized_to_practice := true |}.

Definition review_text : string := "Jane Doe was wonderful".

Definition extraction : ReviewExtraction :=
  {| extraction_id := make_extraction_id "p1" "ChIJ" review_text;
     rmt_data := jane;
     matched_text_segments := ["Jane Doe"];
     confidence_scores := [95];
     review_data :=
       {| text := review_text; rating := Some 5; time := Some 1700000000;
          author_name := Some "Alice";
          relative_time_description := Some "a week ago" |};
     place_data :=
       {| place_id := Some "ChIJ"; name := Some "Doe Wellness Clinic";
          address := Some "12 Main Street" |} |}.

(** The store after [save_rmt_profile] in run [full_100]. *)
Definition db_profile : DB := save_rmt_profile empty_db jane "full_100" 100.

(** ... and after [save_review_extraction] of [extraction]. *)
Definition db_extraction : DB :=
  (save_review_extraction db_profile extraction "full_100" 101 102).2.

(** What the AI collaborator returns for [extraction]: it echoes the
    identifier of the extraction it was given. *)
Definition analysis : ComprehensiveRMTAnalysis :=
  {| an_extraction_id := extraction_id extraction;
     overall_sentiment := "very_positive";
     confidence_score := 9 # 10;
     mention_confidence := 9 # 10;
     technical_skill_rating := Some 5;
     communication_rating := None;
     professionalism_rating := Some 4;
     review_authenticity := "authentic";
     repeat_client_indicated := false;
     recommendation_given := true;
     overall_analysis_confidence := 8 # 10;
     potential_false_positive := false |}.

(** ... and after [save_ai_analysis] of [analysis]. *)
Definition db_analysed : DB :=
  match save_ai_analysis db_extraction analysis "full_100" "gemini" 103 104 with
  | Ok db => db
  | Raise _ => db_extraction
  end.

Definition found : FoundReview :=
  {| fr_place_id := "ChIJ";
     fr_place_info := place_data extraction;
     fr_text := review_text;
     fr_rating := Some 5;
     fr_time := Some 1700000000;
     fr_author_name := Some "Alice";
     fr_relative_time_description := Some "a week ago";
     fr_name_matches := [("Jane Doe", 95, "Jane Doe")];
     fr_location_matches := [] |}.

(** Collaborators: the registry knows [jane] under the keyword
    ["Stouffville"] and nobody under any other keyword; one review is kept
    for each professional; the AI collaborator returns nothing. *)
Definition env : Env :=
  {| clock := fun n => 1000 + Z.of_nat n;
     search_cmto_profiles := fun _ keyword _ _ =>
       if decide (keyword = "Stouffville") then [jane] else [];
     kept_reviews := fun _ _ => [found];
     analyze_single_review := fun _ _ => None;
     model_name := "gemini-2.5-flash-preview-04-17" |}.

Definition fresh (db : DB) : RunState :=
  {| rs_db := db; rs_tick := 0; rs_stats := zero_stats;
     rs_extractions := []; rs_processed := [];
     rs_successful := 0; rs_failed := 0 |}.

End Sample.

(** ** Invariants of the database *)

(** What the store keeps for a profile: no two stored reviews have the same
    hash, and [total_reviews] counts the stored reviews. *)
Definition profile_ok (row : ProfileRow) : Prop :=
  NoDup (review_hash <$> default [] (reviews_data row)) ∧
  int_or (total_reviews row) 0
  = Z.of_nat (length (default [] (reviews_data row))).

Definition store_ok (db : DB) : Prop :=
  ∀ pid row, rmt_profiles db !! pid = Some row → profile_ok row.

(** What a snapshot row holds: a score from 0 to 100 over at least one
    analysis, with counts of positive and negative analyses that are not
    negative and do not exceed the number of analyses. *)
Definition snapshot_ok (row : SnapshotRow) : Prop :=
  (0 <= composite_reputation_score row)%Q ∧
  (composite_reputation_score row <= 100)%Q ∧
  0 < total_reviews_analyzed row ∧
  0 ≤ positive_sentiment_count row ∧ 0 ≤ negative_sentiment_count row ∧
  positive_sentiment_count row + negative_sentiment_count row
    ≤ total_reviews_analyzed row ∧
  0 ≤ potential_false_positives row ≤ total_reviews_analyzed row.

Definition snapshots_ok (db : DB) : Prop :=
  ∀ id row, leaderboard_snapshots db !! id = Some row → snapshot_ok row.

(** A computation of a run keeps a property of the database, whether it
    returns or raises. *)
Definition db_keeps (P : DB → Prop) {A} (m : M A) : Prop :=
  ∀ s, P (rs_db s) → P (rs_db (m s).2).

(** The calls that write the store, with any arguments. *)
Inductive store_op : Type :=
| SaveProfile (rmt : RMTData) (run_id : string) (now : timestamp)
| SaveExtraction (e : ReviewExtraction) (run_id : string)
    (now1 now2 : timestamp)
| SaveAiAnalysis (a : ComprehensiveRMTAnalysis) (run_id model_used : string)
    (now1 now2 : timestamp)
| SaveAnalysis (id : py_value) (a : ComprehensiveRMTAnalysis)
    (run_id : string) (now1 now2 : timestamp)
| RunOp (op : run_op).

Definition apply_store_op (db : DB) (op : store_op) : DB :=
  match op with
  | SaveProfile rmt run_id now => save_rmt_profile db rmt run_id now
  | SaveExtraction e run_id now1 now2 =>
      (save_review_extraction db e run_id now1 now2).2
  | SaveAiAnalysis a run_id model_used now1 now2 =>
      match save_ai_analysis db a run_id model_used now1 now2 with
      | Ok db' => db'
      | Raise _ => db
      end
  | SaveAnalysis id a run_id now1 now2 =>
      match (save_analysis db id a run_id now1 now2).2 with
      | Ok db' => db'
      | Raise _ => db
      end
  | RunOp op => apply_run_op db op
  end.

(** ** A second scenario: the AI collaborator answers *)

Module Scenario.

(** The AI collaborator returns [Sample.analysis] for every request. *)
Definition env : Env :=
  {| clock := fun n => 1000 + Z.of_nat n;
     search_cmto_profiles := fun _ keyword _ _ =>
       if decide (keyword = "Stouffville") then [Sample.jane] else [];
     kept_reviews := fun _ _ => [Sample.found];
     analyze_single_review := fun _ _ => Some Sample.analysis;
     model_name := "gemini-2.5-flash-preview-04-17" |}.

(** A full run over one keyword, from the empty database. *)
Definition full_run : result string * RunState :=
  run_full_analysis env ["Stouffville"] (Sample.fresh empty_db).

End Scenario.

(** ** The counters of a run *)

(** The local variables of a run: [stats], the list of new extractions and
    [processed_rmts]. *)
Definition locals (s : RunState)
    : Stats * list ReviewExtraction * list string :=
  (rs_stats s, rs_extractions s, rs_processed s).

(** A computation that leaves the local variables alone. *)
Definition keeps_locals {A} (m : M A) : Prop :=
  ∀ s, locals (m s).2 = locals s.

(** The row of the run is there. *)
Definition run_open (run_id : string) (s : RunState) : Prop :=
  is_Some (monitoring_runs (rs_db s) !! run_id).

(** The counters of a full run agree with its lists, when [n] reviews at
    most have been analysed. *)
Definition full_counters (n : Z)
    (l : Stats * list ReviewExtraction * list string) : Prop :=
  st_rmts_processed l.1.1 = Z.of_nat (length l.2) ∧
  NoDup l.2 ∧
  st_reviews_extracted l.1.1 = Z.of_nat (length l.1.2) ∧
  0 ≤ st_reviews_analyzed l.1.1 ≤ n.

(** ** The backlog at the end of an incremental update *)

(** What analysing does to the database: the profiles stay as they are and
    no analysis row is removed or changed. *)
Definition grows_analyses (db db' : DB) : Prop :=
  rmt_profiles db' = rmt_profiles db ∧
  ∀ id row, ai_analyses db !! id = Some row → ai_analyses db' !! id = Some row.

(** A backlog entry that [_db_extraction_to_dict] accepts: its lists of
    matched segments and of confidence scores are empty. *)
Definition convertible (d : ExtractionData) : Prop :=
  ed_matched_text_segments d = [] ∧ ed_confidence_scores d = [].

Module Quiet.

(** The registry knows [Sample.jane] under every keyword; no review is kept
    for anybody. *)
Definition env : Env :=
  {| clock := fun n => 1000 + Z.of_nat n;
     search_cmto_profiles := fun _ _ _ _ => [Sample.jane];
     kept_reviews := fun _ _ => [];
     analyze_single_review := fun _ _ => None;
     model_name := "gemini-2.5-flash-preview-04-17" |}.

(** The state after a full run from the empty database. *)
Definition after_full_run : RunState :=
  (run_full_analysis env ["Stouffville"] (Sample.fresh empty_db)).2.

End Quiet.

Module Failing.

(** An incremental update after the full run of [Quiet]: a review is now kept
    for [Sample.jane], and the AI collaborator returns nothing for it. *)
Definition run : result string * RunState :=
  run_incremental_update Sample.env ["Stouffville"] Quiet.after_full_run.

End Failing.

(** ** The requests of an analysis-only run *)

(** A request of [get_unanalyzed_reviews] for the review with hash [h] of
    profile [pid]. *)
Definition is_request_of (pid h : string) (req : AnalysisRequest) : bool :=
  match req with
  | FromStore p _ _ r => bool_decide (p = pid) && bool_decide (review_hash r = h)
  | _ => false
  end.

Module Twice.

(** [Sample.db_analysed] after a second analysis of the same extraction was
    persisted. *)
Definition db : DB :=
  match save_ai_analysis Sample.db_analysed Sample.analysis "full_100" "gemini"
          105 106 with
  | Ok db => db
  | Raise _ => Sample.db_analysed
  end.

End Twice.

Module Analysed.

(** [Sample.db_extraction] after [save_analysis] has persisted an analysis
    whose identifier ends with the stored hash of the review. *)
Definition db : DB :=
  match
    (save_analysis Sample.db_extraction
       (PyStr ("p1_ChIJ_" +:+ review_hash_of (review_data Sample.extraction)))
       Sample.analysis "analysis_only_5" 7 8).2
  with
  | Ok db => db
  | Raise _ => Sample.db_extraction
  end.

End Analysed.

(** ** GeminiReviewAnalyzer: the leaderboard metrics *)

(** [round(x, ndigits)]: to the nearest multiple of [10^-ndigits], a tie to
    the even one.  The properties of the aggregator are proved for every
    rounding function that is monotone and leaves the integers alone. *)
Definition py_round (x : Q) (ndigits : nat) : Q :=
  (inject_Z (Difflib.intr (x * inject_Z (10 ^ Z.of_nat ndigits)))
   / inject_Z (10 ^ Z.of_nat ndigits))%Q.

(** [analysis.extraction_id.split('_')[0]] *)
Definition analysis_profile (a : ComprehensiveRMTAnalysis) : string :=
  default "" (head (split_on "_" (an_extraction_id a))).

(** [rmt_groups]: a dict from the profile id to the list of its analyses, in
    the order in which the keys were first inserted. *)
Fixpoint add_to_group (pid : string) (a : ComprehensiveRMTAnalysis)
    (groups : list (string * list ComprehensiveRMTAnalysis))
    : list (string * list ComprehensiveRMTAnalysis) :=
  match groups with
  | [] => [(pid, [a])]
  | (p, g) :: rest =>
      if decide (p = pid) then (p, g ++ [a])%list :: rest
      else (p, g) :: add_to_group pid a rest
  end.

Definition rmt_groups (analyses : list ComprehensiveRMTAnalysis)
    : list (string * list ComprehensiveRMTAnalysis) :=
  foldl (fun groups a => add_to_group (analysis_profile a) a groups) []
        analyses.

(** [gemini_review_analyzer.RMTLeaderboardMetrics] *)
Record RMTLeaderboardMetrics : Type := {
  lm_profile_id : string;
  lm_rmt_name : string;
  lm_total_reviews_analyzed : Z;
  high_confidence_reviews : Z;
  authentic_reviews : Z;
  lm_positive_sentiment_count : Z;
  lm_negative_sentiment_count : Z;
  lm_average_sentiment_score : Q;
  average_technical_skill : option Q;
  average_communication : option Q;
  average_professionalism : option Q;
  lm_recommendation_rate : Q;
  lm_repeat_client_rate : Q;
  lm_potential_false_positives : Z;
  low_confidence_matches : Z;
  lm_composite_reputation_score : Q;
}.

(** The constraints that pydantic checks when the model is built:
    [Field(ge=..., le=...)]. *)
Definition within (lo hi x : Q) : bool := Qle_bool lo x && Qle_bool x hi.

Definition within_opt (lo hi : Q) (x : option Q) : bool :=
  match x with
  | Some q => within lo hi q
  | None => true
  end.

Definition valid_metrics (m : RMTLeaderboardMetrics) : bool :=
  within (-1)%Q 1%Q (lm_average_sentiment_score m)
  && within_opt 1%Q 5%Q (average_technical_skill m)
  && within_opt 1%Q 5%Q (average_communication m)
  && within_opt 1%Q 5%Q (average_professionalism m)
  && within 0%Q 1%Q (lm_recommendation_rate m)
  && within 0%Q 1%Q (lm_repeat_client_rate m)
  && within 0%Q 100%Q (lm_composite_reputation_score m).

(** The score appended to [sentiment_scores] for an analysis. *)
Definition sentiment_value (sentiment : string) : Q :=
  if decide (sentiment = "very_positive") then 1%Q
  else if decide (sentiment = "positive") then (1 # 2)%Q
  else if decide (sentiment = "very_negative") then (-1)%Q
  else if decide (sentiment = "negative") then (- (1 # 2))%Q
  else 0%Q.

Definition is_positive_sentiment (a : ComprehensiveRMTAnalysis) : bool :=
  bool_decide (overall_sentiment a = "very_positive")
  || bool_decide (overall_sentiment a = "positive").

Definition is_negative_sentiment (a : ComprehensiveRMTAnalysis) : bool :=
  bool_decide (overall_sentiment a = "very_negative")
  || bool_decide (overall_sentiment a = "negative").

(** [round(sum(scores) / len(scores), 2) if scores else None] *)
Definition average_rating (rnd : Q → nat → Q) (scores : list Z) : option Q :=
  match scores with
  | [] => None
  | _ :: _ => Some (rnd (Qmean (inject_Z <$> scores)) 2%nat)
  end.

(** The body of the loop over [rmt_groups.items()]. *)
Definition group_metrics (rnd : Q → nat → Q) (pid : string)
    (group_analyses : list ComprehensiveRMTAnalysis) : RMTLeaderboardMetrics :=
  let total_reviews := Z.of_nat (length group_analyses) in
  let high_confidence :=
    count_where (fun a => negb (Qle_bool (mention_confidence a) (8 # 10)))
                group_analyses in
  let authentic :=
    count_where (fun a => bool_decide (review_authenticity a = "authentic"))
                group_analyses in
  let positive_count := count_where is_positive_sentiment group_analyses in
  let negative_count := count_where is_negative_sentiment group_analyses in
  let sentiment_scores : list Q :=
    (fun a => sentiment_value (overall_sentiment a)) <$> group_analyses in
  let avg_sentiment :=
    match sentiment_scores with
    | [] => 0%Q
    | _ :: _ => Qmean sentiment_scores
    end in
  let technical_scores : list Z :=
    omap technical_skill_rating group_analyses in
  let communication_scores : list Z :=
    omap communication_rating group_analyses in
  let professionalism_scores : list Z :=
    omap professionalism_rating group_analyses in
  let recommendations := count_where recommendation_given group_analyses in
  let repeat_clients := count_where repeat_client_indicated group_analyses in
  let false_positives := count_where potential_false_positive group_analyses in
  let low_confidence :=
    count_where (fun a => negb (Qle_bool (6 # 10) (mention_confidence a)))
                group_analyses in
  let composite_score :=
    _calculate_composite_score total_reviews high_confidence authentic
      positive_count negative_count avg_sentiment
      (inject_Z <$> technical_scores) (inject_Z <$> communication_scores)
      (inject_Z <$> professionalism_scores)
      recommendations repeat_clients false_positives in
  {| lm_profile_id := pid;
     lm_rmt_name := "RMT_" +:+ pid;
     lm_total_reviews_analyzed := total_reviews;
     high_confidence_reviews := high_confidence;
     authentic_reviews := authentic;
     lm_positive_sentiment_count := positive_count;
     lm_negative_sentiment_count := negative_count;
     lm_average_sentiment_score := rnd avg_sentiment 3%nat;
     average_technical_skill := average_rating rnd technical_scores;
     average_communication := average_rating rnd communication_scores;
     average_professionalism := average_rating rnd professionalism_scores;
     lm_recommendation_rate :=
       if decide (0 < total_reviews)
       then rnd (inject_Z recommendations / inject_Z total_reviews)%Q 3%nat
       else 0%Q;
     lm_repeat_client_rate :=
       if decide (0 < total_reviews)
       then rnd (inject_Z repeat_clients / inject_Z total_reviews)%Q 3%nat
       else 0%Q;
     lm_potential_false_positives := false_positives;
     low_confidence_matches := low_confidence;
     lm_composite_reputation_score := rnd composite_score 2%nat |}.

(** [list.sort(key=lambda x: x.composite_reputation_score, reverse=True)]:
    stable. *)
Fixpoint insert_by_score (x : RMTLeaderboardMetrics)
    (l : list RMTLeaderboardMetrics) : list RMTLeaderboardMetrics :=
  match l with
  | [] => [x]
  | y :: l' =>
      if Qle_bool (lm_composite_reputation_score x)
                  (lm_composite_reputation_score y)
      then y :: insert_by_score x l'
      else x :: y :: l'
  end.

Definition sort_by_score (l : list RMTLeaderboardMetrics)
    : list RMTLeaderboardMetrics :=
  foldl (fun acc x => insert_by_score x acc) [] l.

(** [GeminiReviewAnalyzer.calculate_leaderboard_metrics]; building a model
    that breaks a constraint raises [pydantic.ValidationError]. *)
Definition calculate_leaderboard_metrics (rnd : Q → nat → Q)
    (analyses : list ComprehensiveRMTAnalysis)
    : result (list RMTLeaderboardMetrics) :=
  let leaderboard_metrics :=
    (fun '(pid, group) => group_metrics rnd pid group)
      <$> rmt_groups analyses in
  if forallb valid_metrics leaderboard_metrics
  then Ok (sort_by_score leaderboard_metrics)
  else Raise "ValidationError".

(** What pydantic has checked of an analysis: the ratings that are given are
    from 1 to 5. *)
Definition rating_ok (r : option Z) : Prop :=
  match r with
  | Some z => 1 ≤ z ≤ 5
  | None => True
  end.

Definition analysis_ok (a : ComprehensiveRMTAnalysis) : Prop :=
  rating_ok (technical_skill_rating a) ∧ rating_ok (communication_rating a)
  ∧ rating_ok (professionalism_rating a).



Module Board.

(** A second analysis, of another profile. *)
Definition other : ComprehensiveRMTAnalysis :=
  {| an_extraction_id := "p2_ChIJ_0a1b2c3d";
     overall_sentiment := "negative";
     confidence_score := 7 # 10;
     mention_confidence := 5 # 10;
     technical_skill_rating := Some 2;
     communication_rating := Some 1;
     professionalism_rating := None;
     review_authenticity := "unclear";
     repeat_client_indicated := true;
     recommendation_given := false;
     overall_analysis_confidence := 6 # 10;
     potential_false_positive := true |}.

Definition analyses : list ComprehensiveRMTAnalysis :=
  [other; Sample.analysis; other].

End Board.

(** ** RMTReviewExtractor: name variations and the reviews of a place *)

(** [s[0]] of a string that is not empty. *)
Definition first_char (s : string) : string :=
  match s with
  | String c _ => String c ""
  | EmptyString => ""
  end.

(** [list(set(filter(None, l)))]; the order of a [set] is not specified, the
    model lists each element once, and the properties proved of the result
    do not depend on the order. *)
Definition distinct_nonempty (l : list string) : list string :=
  remove_dups (filter (fun s => s ≠ "") l).

(** [RMTReviewExtractor.generate_name_variations] *)
Definition generate_name_variations (rmt : RMTData) : list string :=
  let first_names :=
    distinct_nonempty [first_name rmt; common_first_name rmt] in
  let last_names :=
    distinct_nonempty [last_name rmt; common_last_name rmt] in
  let variations :=
    first ← first_names;
    last ← last_names;
    [ first +:+ " " +:+ last;
      last +:+ ", " +:+ first;
      last +:+ " " +:+ first;
      "Dr. " +:+ first +:+ " " +:+ last;
      "Dr " +:+ first +:+ " " +:+ last;
      first +:+ " " +:+ last +:+ ", RMT";
      first +:+ " " +:+ last +:+ " RMT";
      first_char first +:+ ". " +:+ last;
      first +:+ " " +:+ first_char last +:+ ".";
      first_char first +:+ " " +:+ last;
      first +:+ " " +:+ first_char last;
      first;
      last ] in
  remove_dups (filter (fun x => (2 ≤ String.length x)%nat) variations).

(** [s.strip()] *)
Fixpoint lstrip (s : string) : string :=
  match s with
  | String c s' => if is_space c then lstrip s' else s
  | EmptyString => EmptyString
  end.

Definition reverse_string (s : string) : string :=
  String.string_of_list_ascii (rev (String.list_ascii_of_string s)).

Definition strip (s : string) : string :=
  reverse_string (lstrip (reverse_string (lstrip s))).

(** A review of the Places API: the keys that are read with [.get]. *)
Record GoogleReview : Type := {
  gr_text : option string;
  gr_rating : option Z;
  gr_time : option Z;
  gr_author_name : option string;
  gr_relative_time_description : option string;
}.

(** The body of the loop of [extract_review_data] over the reviews of a
    place: the extraction made of a review, if any. *)
Definition review_extraction (fz : Fuzz) (rmt : RMTData)
    (name_variations location_variations : list string) (place_id : string)
    (place_info : PlaceData) (review : GoogleReview)
    : option ReviewExtraction :=
  let review_text := default "" (gr_text review) in
  if bool_decide (review_text = "")
     || (String.length (strip review_text) <? 10)%nat
  then None
  else
    let name_matches :=
      find_text_matches fz review_text name_variations "name" in
    let location_matches :=
      find_text_matches fz review_text location_variations "location" in
    match name_matches with
    | [] => None
    | _ :: _ =>
        Some (build_extraction rmt
                {| fr_place_id := place_id;
                   fr_place_info := place_info;
                   fr_text := review_text;
                   fr_rating := gr_rating review;
                   fr_time := gr_time review;
                   fr_author_name := gr_author_name review;
                   fr_relative_time_description :=
                     gr_relative_time_description review;
                   fr_name_matches := name_matches;
                   fr_location_matches := location_matches |})
    end.

Definition place_extractions (fz : Fuzz) (rmt : RMTData)
    (name_variations location_variations : list string) (place_id : string)
    (place_info : PlaceData) (reviews : list GoogleReview)
    : list ReviewExtraction :=
  omap (review_extraction fz rmt name_variations location_variations place_id
          place_info) reviews.

Module Visit.

(** Two reviews of a place: one names [Sample.jane], the other is too
    short. *)
Definition reviews : list GoogleReview :=
  [ {| gr_text := Some "Jane Doe was wonderful"; gr_rating := Some 5;
       gr_time := Some 1700000000; gr_author_name := Some "Alice";
       gr_relative_time_description := Some "a week ago" |};
    {| gr_text := Some "  Jane!   "; gr_rating := Some 4; gr_time := None;
       gr_author_name := None; gr_relative_time_description := None |} ].

Definition extractions : list ReviewExtraction :=
  place_extractions fuzzywuzzy Sample.jane
    (generate_name_variations Sample.jane) ["Stouffville"] "ChIJ"
    (place_data Sample.extraction) reviews.

End Visit.

(** * Properties *)

(** ** hashlib.md5: test vectors *)

Example md5_empty : MD5.hexdigest "" = "d41d8cd98f00b204e9800998ecf8427e".
Proof. vm_compute. reflexivity. Qed.

Example md5_abc : MD5.hexdigest "abc" = "900150983cd24fb0d6963f7d28e17f72".
Proof. vm_compute. reflexivity. Qed.

Example md5_two_blocks :
  MD5.hexdigest "aaaaaaaaaaaaaaaaaaaaaaaaaaaaaaaaaaaaaaaaaaaaaaaaaaaaaaaa"
  = "3b0c8ac703f828b04c6c197006d17218".
Proof. vm_compute. reflexivity. Qed.

Example md5_review :
  MD5.hexdigest "Great massage by Jane Doe|Alice|1700000000"
  = "579a08fc0f713735df58691de6539c65".
Proof. vm_compute. reflexivity. Qed.

(** ** The extraction store: [save_review_extraction] *)

Lemma save_review_extraction_no_row db e run_id t1 t2 :
  rmt_profiles db !! profile_id (rmt_data e) = None →
  save_review_extraction db e run_id t1 t2 = (true, db).
Proof.
  intros Hnone. unfold save_review_extraction. by rewrite Hnone.
Qed.

Lemma save_review_extraction_fresh db e run_id t1 t2 row :
  rmt_profiles db !! profile_id (rmt_data e) = Some row →
  review_hash_of (review_data e) ∉ review_hash <$> stored_reviews db (profile_id (rmt_data e)) →
  (save_review_extraction db e run_id t1 t2).1 = true ∧
  stored_reviews (save_review_extraction db e run_id t1 t2).2 (profile_id (rmt_data e))
  = (stored_reviews db (profile_id (rmt_data e)) ++ [new_review e run_id t1])%list.
Proof.
  intros Hrow Hfresh. unfold stored_reviews in *. unfold save_review_extraction.
  rewrite Hrow in *. case_decide as Hin; [done|]. simpl.
  by rewrite lookup_insert_eq.
Qed.

Lemma save_review_extraction_present db e run_id t1 t2 :
  review_hash_of (review_data e) ∈ review_hash <$> stored_reviews db (profile_id (rmt_data e)) →
  save_review_extraction db e run_id t1 t2 = (false, db).
Proof.
  intros Hin. unfold stored_reviews in Hin. unfold save_review_extraction.
  destruct (rmt_profiles db !! profile_id (rmt_data e)) as [row|].
  - by rewrite decide_True.
  - by apply elem_of_nil in Hin.
Qed.

Lemma copies_zero db pid h :
  copies db pid h = 0%nat ↔ h ∉ review_hash <$> stored_reviews db pid.
Proof.
  unfold copies. induction (stored_reviews db pid) as [|r rs IH]; simpl.
  - split; [intros _ Hin; by apply elem_of_nil in Hin | done].
  - rewrite filter_cons. case_decide as Hh.
    + split; [done|]. intros Hn. exfalso. apply Hn. subst h. apply list_elem_of_here.
    + rewrite IH, not_elem_of_cons. split; [intros ?; split; [by intros ->|done]|by intros [_ ?]].
Qed.

Lemma review_hash_of_same (rd rd' : ReviewData) :
  text rd' = text rd → author_name rd' = author_name rd → time rd' = time rd →
  review_hash_of rd' = review_hash_of rd.
Proof. unfold review_hash_of, review_content. by intros -> -> ->. Qed.

(** C2 (amended).  When the professional has a row in [rmt_profiles], calling
    [save_review_extraction] twice over the same review (same text, author and
    raw time, whatever the run ids and the other fields) suppresses the second
    call: it returns [False] and leaves the whole database as the first call
    left it.  The number of stored records with the review hash becomes one
    when it was zero and is unchanged otherwise; a review that was not stored
    is reported new and appended. *)
Theorem idempotent_extraction db e e' run_id run_id' t1 t2 t3 t4 :
  is_Some (rmt_profiles db !! profile_id (rmt_data e)) →
  profile_id (rmt_data e') = profile_id (rmt_data e) →
  text (review_data e') = text (review_data e) →
  author_name (review_data e') = author_name (review_data e) →
  time (review_data e') = time (review_data e) →
  let pid := profile_id (rmt_data e) in
  let h := review_hash_of (review_data e) in
  let db1 := (save_review_extraction db e run_id t1 t2).2 in
  second_save_suppressed db e e' run_id run_id' t1 t2 t3 t4 ∧
  copies db1 pid h = Nat.max 1 (copies db pid h) ∧
  (copies db pid h = 0%nat →
     (save_review_extraction db e run_id t1 t2).1 = true ∧
     stored_reviews db1 pid = (stored_reviews db pid ++ [new_review e run_id t1])%list).
Proof.
  intros [row Hrow] Hpid Ht Ha Htm pid h db1.
  pose proof (review_hash_of_same _ _ Ht Ha Htm) as Hh.
  destruct (decide (h ∈ review_hash <$> stored_reviews db pid)) as [Hin|Hnin].
  - assert (Hsame : save_review_extraction db e run_id t1 t2 = (false, db))
      by by apply save_review_extraction_present.
    assert (Hdb1 : db1 = db) by (unfold db1; by rewrite Hsame).
    split; [|split].
    + unfold second_save_suppressed. fold db1. rewrite Hdb1.
      apply save_review_extraction_present. by rewrite Hpid, Hh.
    + rewrite Hdb1. destruct (copies db pid h) eqn:Hc; [|lia].
      apply copies_zero in Hc. done.
    + intros Hc. apply copies_zero in Hc. done.
  - destruct (save_review_extraction_fresh db e run_id t1 t2 row Hrow Hnin) as [Hr Hst].
    fold pid db1 in Hst.
    split; [|split].
    + unfold second_save_suppressed. fold db1.
      apply save_review_extraction_present. rewrite Hpid, Hh. fold pid h.
      rewrite Hst, fmap_app. apply elem_of_app. right. simpl. apply list_elem_of_here.
    + apply copies_zero in Hnin as Hc. rewrite Hc.
      unfold copies in *. rewrite Hst, filter_app, length_app, Hc. simpl.
      rewrite filter_cons. simpl. by rewrite decide_True.
    + done.
Qed.

Lemma idempotent_extraction_witness :
  second_save_suppressed Sample.db_profile Sample.extraction Sample.extraction
    "full_100" "incremental_200" 101 102 201 202.
Proof.
  apply (idempotent_extraction Sample.db_profile Sample.extraction
           Sample.extraction "full_100" "incremental_200" 101 102 201 202);
    [eexists; vm_compute; reflexivity | reflexivity ..].
Defined.

(** C2 as stated fails when the professional has no row: the second call is
    not suppressed. *)
Lemma idempotent_extraction_needs_profile :
  ¬ second_save_suppressed empty_db Sample.extraction Sample.extraction
      "full_100" "incremental_200" 101 102 201 202 ∧
  copies (save_review_extraction
            (save_review_extraction empty_db Sample.extraction "full_100" 101 102).2
            Sample.extraction "incremental_200" 201 202).2 "p1"
         (review_hash_of (review_data Sample.extraction)) = 0%nat.
Proof.
  split.
  - unfold second_save_suppressed.
    rewrite !save_review_extraction_no_row by reflexivity. intros [=].
  - rewrite !save_review_extraction_no_row by reflexivity. reflexivity.
Qed.

(** C10. When no [rmt_profiles] row exists for the professional of an
    extraction, [save_review_extraction] returns [True] and leaves the
    database unchanged, and an identical second call returns [True] again:
    nothing is stored and the duplicate is not detected. *)
Theorem save_review_extraction_missing_profile db e run_id run_id' t1 t2 t3 t4 :
  rmt_profiles db !! profile_id (rmt_data e) = None →
  save_review_extraction db e run_id t1 t2 = (true, db) ∧
  save_review_extraction (save_review_extraction db e run_id t1 t2).2 e run_id' t3 t4
  = (true, db).
Proof.
  intros Hnone. rewrite save_review_extraction_no_row by done.
  split; [done|]. simpl. by apply save_review_extraction_no_row.
Qed.

Lemma save_review_extraction_missing_profile_witness :
  save_review_extraction empty_db Sample.extraction "full_100" 101 102 = (true, empty_db) ∧
  save_review_extraction
    (save_review_extraction empty_db Sample.extraction "full_100" 101 102).2
    Sample.extraction "incremental_200" 201 202 = (true, empty_db).
Proof.
  apply (save_review_extraction_missing_profile empty_db Sample.extraction).
  reflexivity.
Defined.

(** ** The backlog query: [get_unanalyzed_extractions] *)

Lemma elem_of_analyzed_hashes db pid h :
  h ∈ analyzed_hashes db pid ↔
  ∃ id row, ai_analyses db !! id = Some row ∧ ar_profile_id row = pid
            ∧ ar_review_hash row = h.
Proof.
  unfold analyzed_hashes. rewrite list_elem_of_fmap. split.
  - intros (row & -> & Hrow). apply list_elem_of_filter in Hrow as [Hpid Hrow].
    apply list_elem_of_fmap in Hrow as ([id row'] & -> & Hin).
    apply elem_of_map_to_list in Hin. by exists id, row'.
  - intros (id & row & Hlk & Hpid & Hh). exists row. split; [done|].
    apply list_elem_of_filter. split; [done|].
    apply list_elem_of_fmap. exists (id, row). split; [done|].
    by apply elem_of_map_to_list.
Qed.

Lemma elem_of_profiles_with_reviews db pid reviews :
  (pid, reviews) ∈ profiles_with_reviews db ↔
  reviews ≠ [] ∧ ∃ row, rmt_profiles db !! pid = Some row
                        ∧ reviews_data row = Some reviews.
Proof.
  unfold profiles_with_reviews. rewrite list_elem_of_omap. split.
  - intros ([pid' row] & Hin & Hsel). apply elem_of_map_to_list in Hin.
    destruct (reviews_data row) as [[|r rs]|] eqn:Hrd; simplify_eq.
    split; [done|]. by exists row.
  - intros (Hne & row & Hlk & Hrd). exists (pid, row).
    split; [by apply elem_of_map_to_list|].
    rewrite Hrd. by destruct reviews.
Qed.

Lemma elem_of_stored_reviews db pid r :
  r ∈ stored_reviews db pid ↔
  ∃ reviews, (pid, reviews) ∈ profiles_with_reviews db ∧ r ∈ reviews.
Proof.
  unfold stored_reviews. split.
  - destruct (rmt_profiles db !! pid) as [row|] eqn:Hlk;
      [|by intros ?%elem_of_nil].
    destruct (reviews_data row) as [reviews|] eqn:Hrd; simpl;
      [|by intros ?%elem_of_nil].
    intros Hin. exists reviews. split; [|done].
    apply elem_of_profiles_with_reviews. split; [|by exists row].
    intros ->. by apply elem_of_nil in Hin.
  - intros (reviews & Hsel & Hin).
    apply elem_of_profiles_with_reviews in Hsel as (_ & row & -> & ->). done.
Qed.

(** Without a limit, the backlog query selects a stored review exactly when no
    [ai_analyses] row carries its profile and its stored hash. *)
Lemma unanalyzed_reviews_spec db pid r :
  (pid, r) ∈ unanalyzed_reviews db None ↔
  r ∈ stored_reviews db pid ∧
  ¬ ∃ id row, ai_analyses db !! id = Some row ∧ ar_profile_id row = pid
              ∧ ar_review_hash row = review_hash r.
Proof.
  rewrite <-elem_of_analyzed_hashes, elem_of_stored_reviews.
  unfold unanalyzed_reviews, sql_limit. rewrite list_elem_of_bind. split.
  - intros ([pid' reviews] & Hin & Hsel).
    apply list_elem_of_fmap in Hin as (r' & [= -> ->] & Hin).
    apply list_elem_of_filter in Hin as [Hun Hin]. eauto.
  - intros ((reviews & Hsel & Hin) & Hun). exists (pid, reviews).
    split; [|done]. apply list_elem_of_fmap. exists r. split; [done|].
    by apply list_elem_of_filter.
Qed.

Lemma get_unanalyzed_extractions_spec db pid r :
  (pid, r) ∈ unanalyzed_reviews db None →
  extraction_data pid r ∈ get_unanalyzed_extractions db None.
Proof.
  intros Hin. unfold get_unanalyzed_extractions.
  apply list_elem_of_fmap. by exists (pid, r).
Qed.

(** ** The key of an analysis row: [save_ai_analysis] *)

Lemma hexdigest_length s : String.length (MD5.hexdigest s) = 32%nat.
Proof.
  unfold MD5.hexdigest. destruct (MD5.digest s) as [[[a b] c] d].
  generalize (MD5.hex_word a ++ MD5.hex_word b ++ MD5.hex_word c ++ MD5.hex_word d)%list
             (eq_refl : length (MD5.hex_word a ++ MD5.hex_word b ++ MD5.hex_word c
                                  ++ MD5.hex_word d)%list = 32%nat).
  intros l <-. induction l as [|x l IH]; simpl; [done|by rewrite IH].
Qed.

Lemma substring_length_le n m s : (String.length (String.substring n m s) ≤ m)%nat.
Proof.
  revert n m. induction s as [|c s IH]; intros [|n] [|m]; simpl; try lia.
  - specialize (IH 0%nat m). lia.
  - apply (IH n 0%nat).
  - apply (IH n (S m)).
Qed.

Lemma split_on_nonempty sep s : split_on sep s ≠ [].
Proof.
  destruct s as [|c s]; simpl; [done|].
  case_decide; [done|]. by destruct (split_on sep s).
Qed.

Lemma split_on_app_sep sep x y :
  split_on sep (x +:+ String sep y) = (split_on sep x ++ split_on sep y)%list.
Proof.
  induction x as [|c x IH]; simpl.
  - by rewrite decide_True.
  - case_decide; [by rewrite IH|].
    rewrite IH. pose proof (split_on_nonempty sep x).
    by destruct (split_on sep x).
Qed.

Lemma split_on_last_length sep s :
  ∃ p, last (split_on sep s) = Some p ∧ (String.length p ≤ String.length s)%nat.
Proof.
  induction s as [|c s (p & Hlast & Hlen)]; simpl.
  - by exists "".
  - case_decide.
    + exists p. pose proof (split_on_nonempty sep s).
      destruct (split_on sep s); [done|]. split; [done|lia].
    + destruct (split_on sep s) as [|q [|q' qs]]; [done| |].
      * simplify_eq/=. exists (String c p). split; [done|simpl; lia].
      * exists p. split; [done|lia].
Qed.

Lemma split_on_extraction_id pid place txt :
  ∃ parts p,
    split_on "_" (make_extraction_id pid place txt) = parts ∧
    (3 ≤ length parts)%nat ∧ last parts = Some p ∧ (String.length p ≤ 8)%nat.
Proof.
  unfold make_extraction_id.
  change (pid +:+ "_" +:+ place +:+ "_" +:+ ?h)
    with (pid +:+ String "_" (place +:+ String "_" h)).
  rewrite !split_on_app_sep.
  destruct (split_on_last_length "_"
              (String.substring 0 8 (MD5.hexdigest txt))) as (p & Hlast & Hlen).
  eexists _, p. split; [done|].
  pose proof (substring_length_le 0 8 (MD5.hexdigest txt)).
  pose proof (split_on_nonempty "_" pid). pose proof (split_on_nonempty "_" place).
  pose proof (split_on_nonempty "_" (String.substring 0 8 (MD5.hexdigest txt))).
  split; [|split; [|lia]].
  - rewrite !length_app.
    destruct (split_on "_" pid), (split_on "_" place),
      (split_on "_" (String.substring 0 8 (MD5.hexdigest txt))); simpl; done || lia.
  - rewrite !last_app, Hlast. done.
Qed.

Lemma save_ai_analysis_profiles db a run_id model t1 t2 db' :
  save_ai_analysis db a run_id model t1 t2 = Ok db' →
  rmt_profiles db' = rmt_profiles db ∧ monitoring_runs db' = monitoring_runs db.
Proof.
  unfold save_ai_analysis. intros H. repeat case_match; by simplify_eq.
Qed.

Lemma save_ai_analysis_rows db a run_id model t1 t2 db' id row :
  save_ai_analysis db a run_id model t1 t2 = Ok db' →
  ai_analyses db' !! id = Some row →
  ai_analyses db !! id = Some row ∨
  (ar_review_hash row = default "" (last (split_on "_" (an_extraction_id a)))
   ∧ ar_profile_id row = default "" (head (split_on "_" (an_extraction_id a)))).
Proof.
  unfold save_ai_analysis. intros H Hlk. repeat case_match; simplify_eq; auto.
  simpl in Hlk. apply lookup_insert_Some in Hlk as [[_ <-]|[_ Hlk]]; auto.
Qed.

(** C1.  What [save_ai_analysis] does with the identifier that
    [extract_review_data] gives an extraction: the row it inserts is keyed by
    the last part of the identifier, the first 8 hex digits of the MD5 of
    the review text alone, and never by the stored 32-digit [review_hash] (the
    MD5 of text, author and raw time).  So no review whose stored hash is such
    a digest leaves the backlog: a review that [get_unanalyzed_extractions]
    returned before the analysis was persisted is still returned after. *)
Theorem analysed_extraction_stays_in_backlog db a pid place txt run_id model t1 t2 db' :
  an_extraction_id a = make_extraction_id pid place txt →
  save_ai_analysis db a run_id model t1 t2 = Ok db' →
  ∀ pid' r,
    (∃ rd, review_hash r = review_hash_of rd) →
    (pid', r) ∈ unanalyzed_reviews db None →
    (pid', r) ∈ unanalyzed_reviews db' None
    ∧ extraction_data pid' r ∈ get_unanalyzed_extractions db' None.
Proof.
  intros Hid Hsave pid' r [rd Hrd] Hin.
  assert (Hgoal : (pid', r) ∈ unanalyzed_reviews db' None);
    [|split; [done|by apply get_unanalyzed_extractions_spec]].
  apply unanalyzed_reviews_spec in Hin as [Hst Hno].
  destruct (save_ai_analysis_profiles _ _ _ _ _ _ _ Hsave) as [Hprof _].
  apply unanalyzed_reviews_spec. split.
  - unfold stored_reviews in *. by rewrite Hprof.
  - intros (id & row & Hlk & Hpid & Hh).
    destruct (save_ai_analysis_rows _ _ _ _ _ _ _ _ _ Hsave Hlk) as [Hold|[Hnew _]].
    + apply Hno. by exists id, row.
    + destruct (split_on_extraction_id pid place txt) as (parts & p & Hparts & _ & Hlast & Hlen).
      rewrite Hid, Hparts, Hlast in Hnew. simpl in Hnew.
      pose proof (hexdigest_length (review_content rd)) as H32.
      unfold review_hash_of in Hrd. rewrite <-Hrd, <-Hh, Hnew in H32. lia.
Qed.

Lemma analysed_extraction_stays_in_backlog_witness :
  save_ai_analysis Sample.db_extraction Sample.analysis "full_100" "gemini" 103 104
  = Ok Sample.db_analysed ∧
  (∃ id row, ai_analyses Sample.db_analysed !! id = Some row
             ∧ analysis_json row = Sample.analysis ∧ ar_profile_id row = "p1") ∧
  extraction_data "p1" (new_review Sample.extraction "full_100" 101)
    ∈ get_unanalyzed_extractions Sample.db_analysed None.
Proof.
  assert (Hsave : save_ai_analysis Sample.db_extraction Sample.analysis
                    "full_100" "gemini" 103 104 = Ok Sample.db_analysed)
    by (vm_compute; reflexivity).
  split; [exact Hsave|split].
  - exists "analysis_p1_ChIJ_297715b0_103". eexists. vm_compute. eauto.
  - apply (analysed_extraction_stays_in_backlog Sample.db_extraction
             Sample.analysis "p1" "ChIJ" Sample.review_text "full_100" "gemini"
             103 104 Sample.db_analysed eq_refl Hsave "p1"
             (new_review Sample.extraction "full_100" 101)).
    + by exists (review_data Sample.extraction).
    + vm_compute. constructor.
Defined.

(** ** The guard of [save_analysis] *)

Lemma is_prefix_spec p s :
  is_prefix p s = true ↔ ∃ post, s = p +:+ post.
Proof.
  revert s. induction p as [|a p IH]; intros s; simpl.
  - split; [by exists s|done].
  - destruct s as [|b s].
    + split; [done|by intros [post [=]]].
    + case_decide as Hab.
      * subst b. rewrite IH. split.
        -- intros [post ->]. by exists post.
        -- intros [post [= ->]]. by exists post.
      * split; [done|]. intros [post [= ? _]]. done.
Qed.

Lemma contains_spec s p :
  contains s p = true ↔ ∃ pre post, s = pre +:+ p +:+ post.
Proof.
  induction s as [|c s IH]; simpl.
  - rewrite orb_false_r, is_prefix_spec. split.
    + intros [post ->]. by exists "", post.
    + intros ([|? pre] & post & Heq); [by exists post|done].
  - rewrite orb_true_iff, IH, is_prefix_spec. split.
    + intros [[post ->]|(pre & post & ->)].
      * by exists "", post.
      * by exists (String c pre), post.
    + intros ([|c' pre] & post & Heq).
      * left. by exists post.
      * right. simpl in Heq. injection Heq as -> ->. by exists pre, post.
Qed.

(** C9.  [save_analysis] inserts no [ai_analyses] row when the identifier is
    not a string, is empty, or contains one of the sentinel substrings: it
    logs an error and returns, and the database is the one it was given. *)
Theorem save_analysis_rejects_bad_id db id a run_id t1 t2 :
  (∀ s, id ≠ PyStr s) ∨ id = PyStr "" ∨
  (∃ s x pre post, id = PyStr s ∧ x ∈ sentinels ∧ s = pre +:+ x +:+ post) →
  ∃ msg, save_analysis db id a run_id t1 t2 = ([msg], Ok db).
Proof.
  intros Hbad.
  assert (Hguard : bad_extraction_id id = true).
  { destruct Hbad as [Hns|[->|(s & x & pre & post & -> & Hx & Hs)]].
    - destruct id as [| |s]; [done..|]. by destruct (Hns s).
    - done.
    - unfold bad_extraction_id. apply orb_true_iff. right.
      apply existsb_exists. exists x. split.
      + by apply list_elem_of_In.
      + apply contains_spec. by exists pre, post. }
  unfold save_analysis. rewrite Hguard. by eexists.
Qed.

Lemma save_analysis_rejects_bad_id_witness :
  ∃ msg, save_analysis Sample.db_extraction (PyStr "p1_unknown_N/A")
           Sample.analysis "analysis_only_300" 300 301
         = ([msg], Ok Sample.db_extraction).
Proof.
  apply (save_analysis_rejects_bad_id Sample.db_extraction (PyStr "p1_unknown_N/A")).
  right. right. exists "p1_unknown_N/A", "unknown", "p1_", "_N/A".
  split; [reflexivity|]. split; [|reflexivity].
  apply list_elem_of_In. vm_compute. tauto.
Defined.

(** ** The reputation aggregator: [_calculate_composite_score] *)

(** C5.  Whatever the review count (zero included), the average sentiment,
    the lists of ratings and the counts, the composite score lies in
    [[0, 100]]. *)
Theorem composite_score_bounds n_reviews high_confidence authentic positive
    negative avg_sentiment technical communication professionalism
    recommendations repeat_clients false_positives :
  let score :=
    _calculate_composite_score n_reviews high_confidence authentic positive
      negative avg_sentiment technical communication professionalism
      recommendations repeat_clients false_positives in
  (0 <= score)%Q ∧ (score <= 100)%Q.
Proof.
  unfold _calculate_composite_score. case_decide; simpl.
  - split; [apply Qle_refl|done].
  - split; [apply Q.le_max_l|].
    apply Q.max_lub; [done|apply Q.le_min_l].
Qed.

Example composite_score_sample :
  (_calculate_composite_score 4 3 4 3 1 (1 # 2) [5; 4] [5] []
     2 1 1 == 271 # 4)%Q.
Proof. vm_compute. reflexivity. Qed.



(** ** A small program logic for runs *)

Lemma hoare_conseq {A} (P P' : RunState → Prop) (m : M A) Q Q' E E' :
  hoare P' m Q' E' →
  (∀ s, P s → P' s) → (∀ a s, Q' a s → Q a s) → (∀ e s, E' e s → E e s) →
  hoare P m Q E.
Proof.
  intros Hm HP HQ HE s Hs. specialize (Hm s (HP s Hs)).
  destruct (m s) as [[a|e] s']; auto.
Qed.

Lemma hoare_ret {A} (P : RunState → Prop) (a : A) Q E :
  (∀ s, P s → Q a s) → hoare P (ret a) Q E.
Proof. intros H s Hs. simpl. auto. Qed.

Lemma hoare_raise {A} (P : RunState → Prop) e (Q : A → RunState → Prop) E :
  (∀ s, P s → E e s) → hoare P (raise e) Q E.
Proof. intros H s Hs. simpl. auto. Qed.

Lemma hoare_bind {A B} P (m : M A) (k : A → M B) Q R E :
  hoare P m Q E → (∀ a, hoare (Q a) (k a) R E) → hoare P (bind m k) R E.
Proof.
  intros Hm Hk s Hs. unfold bind. specialize (Hm s Hs).
  destruct (m s) as [[a|e] s']; [|done]. by apply Hk.
Qed.

Lemma hoare_try {A} P (m : M A) (h : exn → M A) Q E E' :
  hoare P m Q E' → (∀ e, hoare (E' e) (h e) Q E) → hoare P (try_except m h) Q E.
Proof.
  intros Hm Hh s Hs. unfold try_except. specialize (Hm s Hs).
  destruct (m s) as [[a|e] s']; [done|]. by apply Hh.
Qed.

Lemma hoare_get {A} P (f : RunState → A) Q E :
  (∀ s, P s → Q (f s) s) → hoare P (get f) Q E.
Proof. intros H s Hs. simpl. auto. Qed.

Lemma hoare_modify P (f : RunState → RunState) Q E :
  (∀ s, P s → Q tt (f s)) → hoare P (modify f) Q E.
Proof. intros H s Hs. simpl. auto. Qed.

Lemma hoare_ask {A} P (f : nat → A) Q E :
  (∀ s, P s → Q (f (rs_tick s)) (with_tick s (S (rs_tick s)))) →
  hoare P (ask f) Q E.
Proof. intros H s Hs. simpl. auto. Qed.

(** A loop keeps an invariant that its body keeps for the elements of the
    list. *)
Lemma hoare_for_each {A} (I : RunState → Prop) (l : list A) body E :
  (∀ x, x ∈ l → hoare I (body x) (fun _ => I) E) →
  hoare I (for_each l body) (fun _ => I) E.
Proof.
  induction l as [|x l IH]; intros Hbody; simpl.
  - by apply hoare_ret.
  - eapply hoare_bind.
    + apply Hbody. apply list_elem_of_here.
    + intros ?. apply IH. intros y Hy. apply Hbody. by apply list_elem_of_further.
Qed.

(** ** What each database method does to the other tables *)

Lemma db_step_refl run_id db : db_step run_id db db.
Proof. repeat split; [|done..]. intros row Hrow. by exists row. Qed.

Lemma db_step_trans run_id db1 db2 db3 :
  db_step run_id db1 db2 → db_step run_id db2 db3 → db_step run_id db1 db3.
Proof.
  intros (H1 & H0 & H2 & H3 & H4) (G1 & G0 & G2 & G3 & G4). repeat split.
  - intros row Hrow. destruct (H1 row Hrow) as (row' & Hrow' & Hok).
    destruct (G1 row' Hrow') as (row'' & Hrow'' & Hok'). exists row''. auto.
  - auto.
  - intros id Hid. by rewrite G2, H2.
  - intros pid. etrans; [apply H3|apply G3].
  - auto.
Qed.

Lemma db_step_same_tables run_id db db' :
  monitoring_runs db' = monitoring_runs db →
  rmt_profiles db' = rmt_profiles db →
  db_step run_id db db'.
Proof.
  intros Hr Hp. unfold db_step, stored_reviews. rewrite Hr, Hp.
  repeat split; [|done..]. intros row Hrow. by exists row.
Qed.

Lemma save_rmt_profile_step run_id db rmt rid t :
  db_step run_id db (save_rmt_profile db rmt rid t) ∧
  is_Some (rmt_profiles (save_rmt_profile db rmt rid t) !! profile_id rmt).
Proof.
  unfold save_rmt_profile.
  destruct (rmt_profiles db !! profile_id rmt) as [row|] eqn:Hrow; simpl.
  - split; [|by rewrite lookup_insert_eq].
    repeat split; [by intros r Hr; exists r|done..| |].
    + intros pid. unfold stored_reviews. simpl.
      destruct (decide (pid = profile_id rmt)) as [->|Hne].
      * by rewrite lookup_insert_eq, Hrow.
      * by rewrite lookup_insert_ne.
    + intros pid Hpid. simpl. rewrite lookup_insert. by case_decide.
  - split; [|by rewrite lookup_insert_eq].
    repeat split; [by intros r Hr; exists r|done..| |].
    + intros pid. unfold stored_reviews. simpl.
      destruct (decide (pid = profile_id rmt)) as [->|Hne].
      * rewrite lookup_insert_eq, Hrow. simpl. done.
      * by rewrite lookup_insert_ne.
    + intros pid Hpid. simpl. rewrite lookup_insert. by case_decide.
Qed.

Lemma save_review_extraction_step run_id db e rid t1 t2 :
  db_step run_id db (save_review_extraction db e rid t1 t2).2.
Proof.
  unfold save_review_extraction.
  destruct (rmt_profiles db !! profile_id (rmt_data e)) as [row|] eqn:Hrow;
    [|apply db_step_refl].
  case_decide; [apply db_step_refl|]. simpl.
  repeat split; [by intros r Hr; exists r|done..| |].
  - intros pid. unfold stored_reviews. simpl.
    destruct (decide (pid = profile_id (rmt_data e))) as [->|Hne].
    + rewrite lookup_insert_eq, Hrow. simpl. by eexists.
    + by rewrite lookup_insert_ne.
  - intros pid Hpid. simpl. rewrite lookup_insert. by case_decide.
Qed.

Lemma save_review_extraction_stored db e rid t1 t2 :
  is_Some (rmt_profiles db !! profile_id (rmt_data e)) →
  extraction_stored (save_review_extraction db e rid t1 t2).2 e.
Proof.
  intros [row Hrow]. unfold extraction_stored.
  destruct (decide (review_hash_of (review_data e)
                      ∈ review_hash <$> stored_reviews db (profile_id (rmt_data e))))
    as [Hin|Hnin].
  - by rewrite save_review_extraction_present.
  - destruct (save_review_extraction_fresh db e rid t1 t2 row Hrow Hnin) as [_ ->].
    rewrite fmap_app. apply elem_of_app. right. apply list_elem_of_here.
Qed.

Lemma extraction_stored_step run_id db db' e :
  db_step run_id db db' → extraction_stored db e → extraction_stored db' e.
Proof.
  intros (_ & _ & _ & Hpre & _) Hst. unfold extraction_stored in *.
  destruct (Hpre (profile_id (rmt_data e))) as [k ->].
  rewrite fmap_app. apply elem_of_app. by left.
Qed.

Lemma completed_row_ok (row : RunRow) (error : option string) :
  status row = (if truthy error then "failed" else "completed") →
  error_message row = error → run_row_ok row.
Proof.
  intros Hst Herr. unfold run_row_ok. rewrite Hst, Herr.
  destruct error as [msg|]; simpl; [case_decide|].
  - split; [set_solver|done].
  - split; [set_solver|]. intros _. by exists msg.
  - split; [set_solver|done].
Qed.

Lemma complete_monitoring_run_step run_id db stats error t :
  db_step run_id db (complete_monitoring_run db run_id stats error t).
Proof.
  unfold complete_monitoring_run.
  destruct (monitoring_runs db !! run_id) as [row|] eqn:Hrow;
    [|apply db_step_refl].
  split; [|split; [|split; [|by split]]]; simpl.
  - intros row0 _. eexists. rewrite lookup_insert_eq. split; [done|].
    intros _. by eapply completed_row_ok.
  - congruence.
  - intros id Hid. by rewrite lookup_insert_ne.
Qed.

Lemma complete_monitoring_run_row db run_id stats error t row :
  monitoring_runs db !! run_id = Some row →
  ∃ row', monitoring_runs (complete_monitoring_run db run_id stats error t)
            !! run_id = Some row'
          ∧ status row' = (if truthy error then "failed" else "completed")
          ∧ error_message row' = error
          ∧ rmts_processed row' = st_rmts_processed stats
          ∧ reviews_extracted row' = st_reviews_extracted stats
          ∧ reviews_analyzed row' = st_reviews_analyzed stats.
Proof.
  intros Hrow. unfold complete_monitoring_run. rewrite Hrow. simpl.
  eexists. rewrite lookup_insert_eq. split; [done|]. by repeat split.
Qed.

Lemma complete_monitoring_run_tables db run_id stats error t :
  rmt_profiles (complete_monitoring_run db run_id stats error t) = rmt_profiles db
  ∧ ai_analyses (complete_monitoring_run db run_id stats error t) = ai_analyses db.
Proof.
  unfold complete_monitoring_run. by destruct (monitoring_runs db !! run_id).
Qed.

(** ** Quiet computations *)

Lemma quiet_ret {A} run_id (a : A) : quiet run_id (ret a).
Proof. intros s. split; [done|apply db_step_refl]. Qed.

Lemma quiet_raise {A} run_id e : quiet run_id (@raise A e).
Proof. intros s. split; [done|apply db_step_refl]. Qed.

Lemma quiet_bind {A B} run_id (m : M A) (k : A → M B) :
  quiet run_id m → (∀ a, quiet run_id (k a)) → quiet run_id (bind m k).
Proof.
  intros Hm Hk s. unfold bind. destruct (Hm s) as [He Hd].
  destruct (m s) as [[a|e] s']; simpl in *; [|done].
  destruct (Hk a s') as [He' Hd']. split; [congruence|].
  by eapply db_step_trans.
Qed.

Lemma quiet_try {A} run_id (m : M A) (h : exn → M A) :
  quiet run_id m → (∀ e, quiet run_id (h e)) → quiet run_id (try_except m h).
Proof.
  intros Hm Hh s. unfold try_except. destruct (Hm s) as [He Hd].
  destruct (m s) as [[a|e] s']; simpl in *; [done|].
  destruct (Hh e s') as [He' Hd']. split; [congruence|].
  by eapply db_step_trans.
Qed.

Lemma quiet_for_each {A} run_id (l : list A) body :
  (∀ x, quiet run_id (body x)) → quiet run_id (for_each l body).
Proof.
  intros Hbody. induction l as [|x l IH]; simpl.
  - apply quiet_ret.
  - apply quiet_bind; [apply Hbody|by intros _].
Qed.

Lemma quiet_ask {A} run_id (f : nat → A) : quiet run_id (ask f).
Proof. intros s. split; [done|apply db_step_refl]. Qed.

Lemma quiet_get {A} run_id (f : RunState → A) : quiet run_id (get f).
Proof. intros s. split; [done|apply db_step_refl]. Qed.

Lemma quiet_modify run_id (f : RunState → RunState) :
  (∀ s, rs_extractions (f s) = rs_extractions s
        ∧ db_step run_id (rs_db s) (rs_db (f s))) →
  quiet run_id (modify f).
Proof. intros Hf s. apply Hf. Qed.

Lemma quiet_sleep run_id : quiet run_id sleep.
Proof. apply quiet_modify. intros s. split; [done|apply db_step_refl]. Qed.

Lemma quiet_complete_run run_id env error : quiet run_id (complete_run env run_id error).
Proof.
  apply quiet_bind; [apply quiet_ask|]. intros t. apply quiet_modify.
  intros s. split; [done|]. apply complete_monitoring_run_step.
Qed.

Lemma quiet_save_profile run_id env rmt rid : quiet run_id (save_profile env rmt rid).
Proof.
  apply quiet_bind; [apply quiet_ask|]. intros t. apply quiet_modify.
  intros s. split; [done|]. apply save_rmt_profile_step.
Qed.

Lemma quiet_save_analysis_of_run run_id env a rid :
  quiet run_id (save_analysis_of_run env a rid).
Proof.
  apply quiet_bind; [apply quiet_ask|]. intros t1.
  apply quiet_bind; [apply quiet_ask|]. intros t2 s.
  destruct (save_ai_analysis (rs_db s) a rid (model_name env) t1 t2) as [db'|e] eqn:Hsave;
    simpl; (split; [done|]); [|apply db_step_refl].
  apply save_ai_analysis_profiles in Hsave as [Hp Hr].
  by apply db_step_same_tables.
Qed.

Lemma quiet_analyze_and_save run_id env rid req :
  quiet run_id (analyze_and_save env rid req).
Proof.
  apply quiet_bind; [apply quiet_ask|]. intros [a|].
  - apply quiet_bind; [|intros _; apply quiet_sleep].
    apply quiet_bind; [apply quiet_save_analysis_of_run|]. intros _.
    apply quiet_modify. intros s. split; [done|apply db_step_refl].
  - apply quiet_bind; [apply quiet_ret|intros _; apply quiet_sleep].
Qed.

Lemma quiet_generate_leaderboard_snapshot run_id env rid :
  quiet run_id (_generate_leaderboard_snapshot env rid).
Proof.
  intros s. unfold _generate_leaderboard_snapshot.
  destruct (insert_snapshots _ _ _ _ _) as [[m|e] n]; simpl;
    (split; [done|]); [|apply db_step_refl].
  by apply db_step_same_tables.
Qed.

Lemma quiet_extract_review_data run_id env rmt :
  quiet run_id (extract_review_data env rmt).
Proof.
  apply quiet_bind; [apply quiet_ask|]. intros found. apply quiet_ret.
Qed.

Lemma quiet_db_extraction_to_dict run_id d :
  quiet run_id (_db_extraction_to_dict d).
Proof.
  unfold _db_extraction_to_dict.
  destruct (ed_matched_text_segments d), (ed_confidence_scores d);
    apply quiet_ret || apply quiet_raise.
Qed.

(** A quiet computation keeps the invariant of the run, and the presence of
    a profile. *)
Lemma quiet_run_inv {A} run_id db0 (m : M A) :
  quiet run_id m →
  hoare (run_inv run_id db0) m (fun _ => run_inv run_id db0)
        (fun _ => run_inv run_id db0).
Proof.
  intros Hm s [Hstep Hext]. destruct (Hm s) as [He Hd].
  assert (run_inv run_id db0 (m s).2) as Hinv.
  { split; [by eapply db_step_trans|]. rewrite He. intros e Hin.
    eapply extraction_stored_step; eauto. }
  by destruct (m s) as [[a|e] s'].
Qed.

Lemma quiet_run_inv_at {A} run_id db0 pid (m : M A) :
  quiet run_id m →
  hoare (run_inv_at run_id db0 pid) m (fun _ => run_inv_at run_id db0 pid)
        (fun _ => run_inv_at run_id db0 pid).
Proof.
  intros Hm s [Hinv Hpid]. pose proof (quiet_run_inv run_id db0 m Hm s Hinv) as H.
  destruct (Hm s) as [_ (_ & _ & _ & _ & Hkeep)].
  destruct (m s) as [[a|e] s']; (split; [done|by apply Hkeep]).
Qed.

(** ** The [try] blocks keep the invariant *)

Lemma save_extraction_eq env e run_id s :
  save_extraction env e run_id s
  = (Ok (save_review_extraction (rs_db s) e run_id (clock env (rs_tick s))
           (clock env (S (rs_tick s)))).1,
     with_db (with_tick (with_tick s (S (rs_tick s))) (S (S (rs_tick s))))
       (save_review_extraction (rs_db s) e run_id (clock env (rs_tick s))
          (clock env (S (rs_tick s)))).2).
Proof.
  unfold save_extraction, bind, ask. simpl.
  by destruct (save_review_extraction _ _ _ _ _).
Qed.

Lemma process_extractions_inv run_id db0 env rmt found :
  hoare (run_inv_at run_id db0 (profile_id rmt))
        (process_extractions env run_id (build_extraction rmt <$> found))
        (fun _ => run_inv_at run_id db0 (profile_id rmt))
        (fun _ => run_inv_at run_id db0 (profile_id rmt)).
Proof.
  apply hoare_for_each. intros e He.
  apply list_elem_of_fmap in He as (fr & -> & _).
  set (e := build_extraction rmt fr).
  intros s [[Hstep Hext] Hpid]. unfold bind. rewrite save_extraction_eq.
  set (t1 := clock env (rs_tick s)). set (t2 := clock env (S (rs_tick s))).
  pose proof (save_review_extraction_step run_id (rs_db s) e run_id t1 t2) as Hd.
  pose proof (save_review_extraction_stored (rs_db s) e run_id t1 t2 Hpid) as Hst.
  destruct (save_review_extraction (rs_db s) e run_id t1 t2) as [is_new db'].
  simpl in *.
  assert (Hpid' : is_Some (rmt_profiles db' !! profile_id rmt))
    by (by apply Hd).
  assert (Hstep' : db_step run_id db0 db') by (by eapply db_step_trans).
  assert (Hold : ∀ e', e' ∈ rs_extractions s → extraction_stored db' e')
    by (intros e' Hin; apply (extraction_stored_step run_id (rs_db s)); auto).
  destruct is_new; simpl; (split; [split|]); try done.
  intros e' [Hin| ->%list_elem_of_singleton]%elem_of_app; auto.
Qed.

Lemma run_inv_at_weaken run_id db0 pid s :
  run_inv_at run_id db0 pid s → run_inv run_id db0 s.
Proof. by intros [? _]. Qed.

Lemma profile_loop_inv run_id db0 env rmt :
  hoare (run_inv run_id db0)
        (save_profile env rmt run_id ;;ᵣ
         modify (fun s => with_stats s (add_rmts_processed (rs_stats s))) ;;ᵣ
         extractions ←ᵣ extract_review_data env rmt;
         process_extractions env run_id extractions)
        (fun _ => run_inv run_id db0) (fun _ => run_inv run_id db0).
Proof.
  eapply hoare_conseq with
    (Q' := fun _ => run_inv_at run_id db0 (profile_id rmt))
    (E' := fun _ => run_inv run_id db0); [|done|by intros ?? []|done].
  eapply hoare_bind with (Q := fun _ => run_inv_at run_id db0 (profile_id rmt)).
  { intros s Hinv.
    pose proof (quiet_run_inv run_id db0 _ (quiet_save_profile run_id env rmt run_id) s Hinv) as H.
    unfold save_profile, bind in *. simpl in *. split; [done|].
    apply save_rmt_profile_step. exact run_id. }
  intros _.
  eapply hoare_bind with (Q := fun _ => run_inv_at run_id db0 (profile_id rmt)).
  { eapply hoare_conseq; [apply quiet_run_inv_at|done|done|by intros ?? []].
    apply quiet_modify. intros s. split; [done|apply db_step_refl]. }
  intros _.
  eapply hoare_bind with
    (Q := fun es s => run_inv_at run_id db0 (profile_id rmt) s
                      ∧ ∃ found, es = build_extraction rmt <$> found).
  { intros s Hinv.
    pose proof (quiet_run_inv_at run_id db0 (profile_id rmt) _
                  (quiet_extract_review_data run_id env rmt) s Hinv) as H.
    unfold extract_review_data, bind, ask in *. simpl in *.
    split; [done|by eexists]. }
  intros es s [Hs [found ->]].
  pose proof (process_extractions_inv run_id db0 env rmt found s Hs) as H.
  destruct (process_extractions _ _ _ s) as [[a|e] s']; [done|by destruct H].
Qed.

Lemma run_tail_inv run_id db0 env :
  hoare (run_inv run_id db0)
        (_generate_leaderboard_snapshot env run_id ;;ᵣ
         complete_run env run_id None ;;ᵣ ret run_id)
        (fun _ => run_inv run_id db0) (fun _ => run_inv run_id db0).
Proof.
  apply quiet_run_inv.
  apply quiet_bind; [apply quiet_generate_leaderboard_snapshot|]. intros _.
  apply quiet_bind; [apply quiet_complete_run|]. intros _. apply quiet_ret.
Qed.

Lemma full_body_inv run_id db0 env keywords :
  hoare (run_inv run_id db0) (full_body env run_id keywords)
        (fun _ => run_inv run_id db0) (fun _ => run_inv run_id db0).
Proof.
  unfold full_body.
  eapply hoare_bind with (Q := fun _ => run_inv run_id db0).
  { apply hoare_for_each. intros keyword _.
    eapply hoare_bind with (Q := fun _ => run_inv run_id db0).
    { apply quiet_run_inv, quiet_ask. }
    intros profiles. apply hoare_for_each. intros rmt _.
    eapply hoare_bind with (Q := fun _ => run_inv run_id db0).
    { apply quiet_run_inv, quiet_get. }
    intros processed. case_decide.
    - by apply hoare_ret.
    - eapply hoare_bind with (Q := fun _ => run_inv run_id db0).
      { apply quiet_run_inv, quiet_modify. intros s. split; [done|apply db_step_refl]. }
      intros _. apply profile_loop_inv. }
  intros _.
  eapply hoare_bind with (Q := fun _ => run_inv run_id db0).
  { apply quiet_run_inv, quiet_get. }
  intros all.
  eapply hoare_bind with (Q := fun _ => run_inv run_id db0).
  { apply quiet_run_inv, quiet_for_each. intros e. apply quiet_analyze_and_save. }
  intros _. apply run_tail_inv.
Qed.

Lemma incremental_body_inv run_id db0 env keywords :
  hoare (run_inv run_id db0) (incremental_body env run_id keywords)
        (fun _ => run_inv run_id db0) (fun _ => run_inv run_id db0).
Proof.
  unfold incremental_body.
  eapply hoare_bind with (Q := fun _ => run_inv run_id db0).
  { apply hoare_for_each. intros keyword _.
    eapply hoare_bind with (Q := fun _ => run_inv run_id db0).
    { apply quiet_run_inv, quiet_ask. }
    intros profiles. apply hoare_for_each. intros rmt _.
    apply profile_loop_inv. }
  intros _.
  eapply hoare_bind with (Q := fun _ => run_inv run_id db0).
  { apply quiet_run_inv, quiet_get. }
  intros new.
  eapply hoare_bind with (Q := fun _ => run_inv run_id db0).
  { apply quiet_run_inv, quiet_for_each. intros e. apply quiet_analyze_and_save. }
  intros _.
  eapply hoare_bind with (Q := fun _ => run_inv run_id db0).
  { apply quiet_run_inv, quiet_get. }
  intros unanalyzed.
  eapply hoare_bind with (Q := fun _ => run_inv run_id db0).
  { apply quiet_run_inv, quiet_for_each. intros d.
    apply quiet_bind; [apply quiet_db_extraction_to_dict|].
    intros req. apply quiet_analyze_and_save. }
  intros _. apply run_tail_inv.
Qed.

(** ** The outcome of a run *)

Lemma start_run_eq env rtype keywords s :
  start_run env rtype keywords s
  = let s2 := with_tick (with_tick s (S (rs_tick s))) (S (S (rs_tick s))) in
    match start_monitoring_run (rs_db s) rtype keywords (clock env (rs_tick s))
            (clock env (S (rs_tick s))) with
    | Ok (run_id, db') => (Ok run_id, with_db s2 db')
    | Raise e => (Raise e, s2)
    end.
Proof. reflexivity. Qed.

Lemma start_monitoring_run_ok db rtype keywords t1 t2 run_id db' :
  start_monitoring_run db rtype keywords t1 t2 = Ok (run_id, db') →
  run_id = rtype +:+ "_" +:+ pretty t1 ∧
  monitoring_runs db !! run_id = None ∧
  (∃ row, monitoring_runs db' !! run_id = Some row ∧ status row = "running"
          ∧ error_message row = None) ∧
  (∀ id, id ≠ run_id → monitoring_runs db' !! id = monitoring_runs db !! id) ∧
  rmt_profiles db' = rmt_profiles db ∧ ai_analyses db' = ai_analyses db.
Proof.
  unfold start_monitoring_run.
  destruct (monitoring_runs db !! _) as [row|] eqn:Hrow; [done|].
  intros [= <- <-]. simpl. split; [done|]. split; [done|].
  split; [|split; [|done]].
  - eexists. by rewrite lookup_insert_eq.
  - intros id Hid. by rewrite lookup_insert_ne.
Qed.

Lemma start_monitoring_run_raise db rtype keywords t1 t2 e :
  start_monitoring_run db rtype keywords t1 t2 = Raise e →
  is_Some (monitoring_runs db !! (rtype +:+ "_" +:+ pretty t1)).
Proof.
  unfold start_monitoring_run.
  by destruct (monitoring_runs db !! _) as [row|] eqn:Hrow.
Qed.

(** The [try] block with its handler: the invariant holds at the end, and
    when the run raises, its row has been completed with the message. *)
Lemma try_block_outcome env run_id db0 body s r s' :
  hoare (run_inv run_id db0) body (fun _ => run_inv run_id db0)
        (fun _ => run_inv run_id db0) →
  run_inv run_id db0 s →
  is_Some (monitoring_runs db0 !! run_id) →
  try_except body (fail_run env run_id) s = (r, s') →
  run_inv run_id db0 s' ∧
  ∀ msg, r = Raise msg →
    ∃ row, monitoring_runs (rs_db s') !! run_id = Some row
           ∧ status row = (if decide (msg = "") then "completed" else "failed")
           ∧ error_message row = Some msg.
Proof.
  intros Hbody Hinv [row0 Hrow0] Htry. unfold try_except in Htry.
  specialize (Hbody s Hinv). destruct (body s) as [[a|e] s1].
  - injection Htry as <- <-. split; [done|by intros msg].
  - unfold fail_run, bind, complete_run, bind, ask, modify, raise in Htry.
    simpl in Htry. injection Htry as <- <-. simpl.
    destruct Hbody as [Hstep Hext].
    destruct (proj1 Hstep row0 Hrow0) as (row1 & Hrow1 & _).
    set (t := clock env (rs_tick s1)).
    pose proof (complete_monitoring_run_step run_id (rs_db s1) (rs_stats s1)
                  (Some e) t) as Hc.
    split.
    + split; [by eapply db_step_trans|]. simpl. intros e' Hin.
      eapply extraction_stored_step; eauto.
    + intros msg [= <-].
      destruct (complete_monitoring_run_row (rs_db s1) run_id (rs_stats s1)
                  (Some e) t row1 Hrow1) as (row' & Hrow' & Hst & Herr & _).
      exists row'. unfold truthy in Hst. by repeat case_decide.
Qed.

Lemma started_run_inv run_id db db' s :
  monitoring_runs db !! run_id = None →
  (∀ id, id ≠ run_id → monitoring_runs db' !! id = monitoring_runs db !! id) →
  rmt_profiles db' = rmt_profiles db →
  run_inv run_id db' s → 
  (∀ id row, monitoring_runs db !! id = Some row →
             monitoring_runs (rs_db s) !! id = Some row) ∧
  (∀ pid, stored_reviews db pid `prefix_of` stored_reviews (rs_db s) pid).
Proof.
  intros Hnone Hother Hprof [(_ & _ & Hrows & Hpre & _) _]. split.
  - intros id row Hrow. assert (id ≠ run_id) by congruence.
    by rewrite Hrows, Hother.
  - intros pid. specialize (Hpre pid). unfold stored_reviews in *.
    by rewrite Hprof in Hpre.
Qed.

(** ** The exceptions of a run have a message *)




















Lemma run_incremental_update_eq env keywords s :
  run_incremental_update env keywords s
  = match get_last_successful_run (rs_db s) None with
    | Some _ =>
        bind (start_run env "incremental" keywords) (fun run_id =>
          bind (modify reset_locals) (fun _ =>
            try_except (incremental_body env run_id keywords)
              (fail_run env run_id))) (with_tick s (S (rs_tick s)))
    | None => run_full_analysis env keywords s
    end.
Proof.
  unfold run_incremental_update, bind at 1, get.
  by destruct (get_last_successful_run (rs_db s) None).
Qed.



(** The same for [run_incremental_update], when a completed run exists. *)
Lemma run_incremental_update_raises env keywords s msg s' last :
  get_last_successful_run (rs_db s) None = Some last →
  let run_id := "incremental_" +:+ pretty (clock env (S (rs_tick s))) in
  monitoring_runs (rs_db s) !! run_id = None →
  run_incremental_update env keywords s = (Raise msg, s') →
  (∃ row, monitoring_runs (rs_db s') !! run_id = Some row
          ∧ status row = (if decide (msg = "") then "completed" else "failed")
          ∧ error_message row = Some msg) ∧
  (∀ e, e ∈ rs_extractions s' → extraction_stored (rs_db s') e) ∧
  (∀ pid, stored_reviews (rs_db s) pid `prefix_of` stored_reviews (rs_db s') pid).
Proof.
  intros Hlast run_id Hnone. unfold run_incremental_update, bind at 1, get.
  rewrite Hlast. unfold bind at 1, ask. unfold bind. rewrite start_run_eq.
  simpl.
  destruct (start_monitoring_run _ _ _ _ _) as [[rid db1]|e] eqn:Hstart.
  2:{ apply start_monitoring_run_raise in Hstart as [row Hrow].
      change ("incremental" +:+ "_" +:+ ?x) with ("incremental_" +:+ x) in Hrow.
      fold run_id in Hrow. congruence. }
  apply start_monitoring_run_ok in Hstart
    as (-> & _ & (row1 & Hrow1 & _) & Hother & Hprof & _).
  change ("incremental" +:+ "_" +:+ ?x) with ("incremental_" +:+ x) in *.
  fold run_id in Hrow1, Hother |- *. simpl. intros Htry.
  eapply (try_block_outcome env run_id db1) in Htry as [Hinv Hrow];
    [|apply incremental_body_inv| |by exists row1].
  2:{ split; [apply db_step_refl|]. simpl. by intros e ?%elem_of_nil. }
  split; [by apply Hrow|]. split; [apply Hinv|].
  eapply (started_run_inv run_id (rs_db s)); eauto.
Qed.

(** ** Runs and the rows of other runs *)

Lemma running_row_ok (row : RunRow) :
  status row = "running" → run_row_ok row.
Proof. intros Hst. unfold run_row_ok. rewrite Hst. split; [set_solver|done]. Qed.

(** A run that inserted its row in [db], giving [db1], and then went on as a
    run may: the rows that were in [db] are as they were, and no row has a
    status or a message that is not allowed. *)
Lemma opened_run_effect run_id db db1 db' :
  monitoring_runs db !! run_id = None →
  (∃ row, monitoring_runs db1 !! run_id = Some row ∧ status row = "running") →
  (∀ id, id ≠ run_id → monitoring_runs db1 !! id = monitoring_runs db !! id) →
  db_step run_id db1 db' →
  (∀ id row, monitoring_runs db !! id = Some row →
             monitoring_runs db' !! id = Some row) ∧
  (runs_ok db → runs_ok db').
Proof.
  intros Hnone (row1 & Hrow1 & Hst1) Hother (Hown & _ & Hrows & _).
  assert (Hkeep : ∀ id row, monitoring_runs db !! id = Some row →
                            monitoring_runs db' !! id = Some row).
  { intros id row Hrow. assert (id ≠ run_id) by congruence.
    by rewrite Hrows, Hother. }
  split; [done|]. intros Hok id row Hrow.
  destruct (decide (id = run_id)) as [->|Hne].
  - destruct (Hown row1 Hrow1) as (row' & Hrow' & Hok').
    assert (row = row') as -> by congruence.
    by apply Hok', running_row_ok.
  - rewrite Hrows, Hother in Hrow by done. by eapply Hok.
Qed.

Lemma try_block_step env run_id db0 body s :
  hoare (run_inv run_id db0) body (fun _ => run_inv run_id db0)
        (fun _ => run_inv run_id db0) →
  run_inv run_id db0 s →
  db_step run_id db0 (rs_db (try_except body (fail_run env run_id) s).2).
Proof.
  intros Hbody Hinv. unfold try_except.
  specialize (Hbody s Hinv). destruct (body s) as [[a|e] s1]; [apply Hbody|].
  assert (Hq : quiet run_id (fail_run env run_id e)).
  { apply quiet_bind; [apply quiet_complete_run|]. intros _. apply quiet_raise. }
  pose proof (quiet_run_inv run_id db0 _ Hq s1 Hbody) as H.
  by destruct (fail_run env run_id e s1) as [[a|e'] s2]; destruct H.
Qed.

Lemma run_effect env rtype keywords body s :
  (∀ run_id db0, hoare (run_inv run_id db0) (body run_id)
                   (fun _ => run_inv run_id db0) (fun _ => run_inv run_id db0)) →
  let s' := (bind (start_run env rtype keywords) (fun run_id =>
               bind (modify reset_locals) (fun _ =>
                 try_except (body run_id) (fail_run env run_id))) s).2 in
  (∀ id row, monitoring_runs (rs_db s) !! id = Some row →
             monitoring_runs (rs_db s') !! id = Some row) ∧
  (runs_ok (rs_db s) → runs_ok (rs_db s')).
Proof.
  intros Hbody. unfold bind at 1. rewrite start_run_eq. simpl.
  destruct (start_monitoring_run _ _ _ _ _) as [[rid db1]|e] eqn:Hstart;
    [|done].
  apply start_monitoring_run_ok in Hstart
    as (-> & Hnone & (row1 & Hrow1 & Hst1 & _) & Hother & Hprof & _).
  simpl. eapply opened_run_effect; [done|by exists row1|done|].
  unfold bind. simpl. apply try_block_step; [apply Hbody|].
  split; [apply db_step_refl|]. simpl. by intros e ?%elem_of_nil.
Qed.

Lemma save_analysis_tables db id a run_id t1 t2 db' :
  (save_analysis db id a run_id t1 t2).2 = Ok db' →
  monitoring_runs db' = monitoring_runs db ∧ rmt_profiles db' = rmt_profiles db.
Proof.
  unfold save_analysis. intros H. repeat case_match; by simplify_eq/=.
Qed.

Lemma quiet_save_analysis_in_run run_id env a rid :
  quiet run_id (save_analysis_in_run env a rid).
Proof.
  apply quiet_bind; [apply quiet_ask|]. intros t1.
  apply quiet_bind; [apply quiet_ask|]. intros t2 s.
  destruct ((save_analysis (rs_db s) (PyStr (an_extraction_id a)) a rid t1 t2).2)
    as [db'|e] eqn:Hsave; simpl; (split; [done|]); [|apply db_step_refl].
  apply save_analysis_tables in Hsave as [Hr Hp].
  by apply db_step_same_tables.
Qed.

Lemma quiet_with_counts run_id (f g : RunState → Z) :
  quiet run_id (modify (fun s => with_counts s (f s) (g s))).
Proof. apply quiet_modify. intros s. split; [done|apply db_step_refl]. Qed.

Lemma quiet_sleep_for run_id delay : quiet run_id (sleep_for delay).
Proof.
  unfold sleep_for. destruct (Qle_bool 0 delay);
    [apply quiet_sleep|apply quiet_raise].
Qed.

Lemma quiet_analysis_loop run_id env rid delay items :
  quiet run_id (analysis_loop env rid delay items).
Proof.
  induction items as [|req items IH]; simpl.
  - apply quiet_ret.
  - apply quiet_bind; [|intros _; apply IH].
    apply quiet_try; [|intros _; apply quiet_with_counts].
    apply quiet_bind; [apply quiet_ask|]. intros analysis.
    apply quiet_bind.
    + destruct analysis as [a|]; [|apply quiet_with_counts].
      apply quiet_bind; [apply quiet_save_analysis_in_run|].
      intros _. apply quiet_with_counts.
    + intros _. destruct items; [apply quiet_ret|apply quiet_sleep_for].
Qed.

Lemma update_monitoring_run_step run_id db n successful failed t :
  db_step run_id db (update_monitoring_run db run_id n successful failed t).
Proof.
  unfold update_monitoring_run.
  destruct (monitoring_runs db !! run_id) as [row|] eqn:Hrow;
    [|apply db_step_refl].
  split; [|split; [|split; [|by split]]]; simpl.
  - intros row0 _. eexists. rewrite lookup_insert_eq. split; [done|].
    intros _. unfold run_row_ok. simpl. case_decide; (split; [set_solver|done]).
  - congruence.
  - intros id Hid. by rewrite lookup_insert_ne.
Qed.

Lemma create_monitoring_run_ok db run_id t db' :
  create_monitoring_run db run_id t = Ok db' →
  monitoring_runs db !! run_id = None ∧
  (∃ row, monitoring_runs db' !! run_id = Some row ∧ status row = "running") ∧
  (∀ id, id ≠ run_id → monitoring_runs db' !! id = monitoring_runs db !! id).
Proof.
  unfold create_monitoring_run.
  destruct (monitoring_runs db !! run_id) as [row|] eqn:Hrow; [done|].
  intros [= <-]. simpl. split; [done|]. split.
  - eexists. by rewrite lookup_insert_eq.
  - intros id Hid. by rewrite lookup_insert_ne.
Qed.

Lemma run_analysis_effect env limit delay s :
  let s' := (run_analysis env limit delay s).2 in
  (∀ id row, monitoring_runs (rs_db s) !! id = Some row →
             monitoring_runs (rs_db s') !! id = Some row) ∧
  (runs_ok (rs_db s) → runs_ok (rs_db s')).
Proof.
  intros s'.
  assert (∃ r, run_analysis env limit delay s = (r, s')) as [r Hrun].
  { exists (run_analysis env limit delay s).1. unfold s'.
    by destruct (run_analysis _ _ _ _). }
  clearbody s'. revert Hrun. unfold run_analysis, bind at 1, get.
  destruct (get_unanalyzed_reviews (rs_db s) limit) as [|req reqs].
  { intros [= _ <-]. by split. }
  unfold bind at 1, ask at 1. cbv beta iota.
  unfold bind at 1, ask at 1. cbv beta iota.
  unfold bind at 1. cbv beta iota.
  set (run_id := "analysis_only_" +:+ pretty (clock env (rs_tick s))).
  change (rs_db (with_tick _ _)) with (rs_db s).
  destruct (create_monitoring_run (rs_db s) run_id _) as [db1|e] eqn:Hcreate.
  2:{ intros [= _ <-]. by split. }
  apply create_monitoring_run_ok in Hcreate as (Hnone & Hrow1 & Hother).
  intros Hrun. eapply opened_run_effect; [done..|].
  match type of Hrun with
  | bind ?m ?k ?s0 = _ =>
      assert (Hq : quiet run_id (bind m k)); [|destruct (Hq s0) as [_ Hd]]
  end.
  { apply quiet_bind; [apply quiet_with_counts|]. intros _.
    apply quiet_bind; [apply quiet_analysis_loop|]. intros _.
    apply quiet_bind; [apply quiet_ask|]. intros t.
    apply quiet_bind; [|intros _; apply quiet_ret].
    apply quiet_modify. intros s0. split; [done|]. apply update_monitoring_run_step. }
  by rewrite Hrun in Hd.
Qed.

(** No entry point touches the row of an earlier run, and none leaves a row
    with a status or an error message that is not allowed. *)
Lemma run_driver_effect env d s :
  (∀ id row, monitoring_runs (rs_db s) !! id = Some row →
             monitoring_runs (rs_db (run_driver env d s)) !! id = Some row) ∧
  (runs_ok (rs_db s) → runs_ok (rs_db (run_driver env d s))).
Proof.
  destruct d as [keywords|keywords|limit delay]; simpl.
  - apply (run_effect env "full" keywords (fun run_id => full_body env run_id keywords)).
    intros run_id db0. apply full_body_inv.
  - rewrite run_incremental_update_eq.
    destruct (get_last_successful_run (rs_db s) None) as [last|].
    + apply (run_effect env "incremental" keywords
               (fun run_id => incremental_body env run_id keywords)
               (with_tick s (S (rs_tick s)))).
      intros run_id db0. apply incremental_body_inv.
    + apply (run_effect env "full" keywords (fun run_id => full_body env run_id keywords)).
      intros run_id db0. apply full_body_inv.
  - apply run_analysis_effect.
Qed.

(** Any sequence of the calls that write [monitoring_runs]. *)
Lemma apply_run_op_ok db op : runs_ok db → runs_ok (apply_run_op db op).
Proof.
  intros Hok. destruct op as [rtype kws t1 t2|run_id stats error t|run_id t|run_id n su fa t];
    simpl.
  - destruct (start_monitoring_run db rtype kws t1 t2) as [[rid db']|e] eqn:Hs; [|done].
    apply start_monitoring_run_ok in Hs as (-> & Hnone & (row1 & Hrow1 & Hst & _) & Hother & _).
    eapply (opened_run_effect _ db db'); [done|by exists row1|done|apply db_step_refl|done].
  - intros id row Hrow.
    pose proof (complete_monitoring_run_step run_id db stats error t) as (Hown & Hn & Hrows & _).
    destruct (decide (id = run_id)) as [->|Hne].
    + destruct (monitoring_runs db !! run_id) as [row0|] eqn:Hrow0.
      * destruct (Hown row0 eq_refl) as (row' & Hrow' & Hok').
        assert (row = row') as -> by congruence. apply Hok'. by eapply Hok.
      * rewrite Hn in Hrow; done.
    + rewrite Hrows in Hrow by done. by eapply Hok.
  - destruct (create_monitoring_run db run_id t) as [db'|e] eqn:Hs; [|done].
    apply create_monitoring_run_ok in Hs as (Hnone & Hrow1 & Hother).
    eapply (opened_run_effect _ db db'); [done..|apply db_step_refl|done].
  - intros id row Hrow.
    pose proof (update_monitoring_run_step run_id db n su fa t) as (Hown & Hn & Hrows & _).
    destruct (decide (id = run_id)) as [->|Hne].
    + destruct (monitoring_runs db !! run_id) as [row0|] eqn:Hrow0.
      * destruct (Hown row0 eq_refl) as (row' & Hrow' & Hok').
        assert (row = row') as -> by congruence. apply Hok'. by eapply Hok.
      * rewrite Hn in Hrow; done.
    + rewrite Hrows in Hrow by done. by eapply Hok.
Qed.


(** ** The life cycle of a run *)

Lemma run_drivers_effect env ds s :
  (∀ id row, monitoring_runs (rs_db s) !! id = Some row →
             monitoring_runs (rs_db (run_drivers env ds s)) !! id = Some row) ∧
  (runs_ok (rs_db s) → runs_ok (rs_db (run_drivers env ds s))).
Proof.
  revert s. induction ds as [|d ds IH]; intros s; simpl; [done|].
  destruct (run_driver_effect env d s) as [Hk Ho].
  destruct (IH (run_driver env d s)) as [Hk' Ho']. split; auto.
Qed.

Lemma apply_run_ops_ok ops db :
  runs_ok db → runs_ok (foldl apply_run_op db ops).
Proof.
  revert db. induction ops as [|op ops IH]; intros db Hok; simpl; [done|].
  by apply IH, apply_run_op_ok.
Qed.

(** C6 (amended).  Every row of [monitoring_runs], whatever sequence of
    [start_monitoring_run], [complete_monitoring_run], [create_monitoring_run]
    and [update_monitoring_run] calls wrote it, has status [running],
    [completed], [failed] or [completed_with_errors], and a [failed] row has
    an error message that is not empty; the same holds of the rows that the
    entry points [run_full_analysis], [run_incremental_update] and
    [run_analysis] leave.  No later call of an entry point changes the row
    of a failed run: its status stays [failed]. *)
Theorem run_lifecycle :
  (∀ ops, runs_ok (foldl apply_run_op empty_db ops)) ∧
  (∀ env ds s, runs_ok (rs_db s) → runs_ok (rs_db (run_drivers env ds s))) ∧
  (∀ env ds s id row,
     monitoring_runs (rs_db s) !! id = Some row → status row = "failed" →
     monitoring_runs (rs_db (run_drivers env ds s)) !! id = Some row).
Proof.
  split; [|split].
  - intros ops. apply apply_run_ops_ok. intros id row Hrow.
    simpl in Hrow. by rewrite lookup_empty in Hrow.
  - intros env ds s. apply run_drivers_effect.
  - intros env ds s id row Hrow _. by apply run_drivers_effect.
Qed.

Lemma run_lifecycle_witness :
  let s := Failing.run.2 in
  let later := [AnalysisOnly None 1; FullAnalysis ["Stouffville"];
                IncrementalUpdate ["Stouffville"]] in
  runs_ok (rs_db (run_drivers Sample.env later s)) ∧
  ∃ row, monitoring_runs (rs_db (run_drivers Sample.env later s))
           !! "incremental_1007" = Some row
         ∧ status row = "failed"
         ∧ error_message row
           = Some "the JSON object must be str, bytes or bytearray, not list".
Proof.
  intros s later. destruct run_lifecycle as (Hops & Hok & Hkeep).
  assert (Hrow : ∃ row, monitoring_runs (rs_db s) !! "incremental_1007" = Some row
                        ∧ status row = "failed"
                        ∧ error_message row
                          = Some "the JSON object must be str, bytes or bytearray, not list").
  { eexists. vm_compute. split; [reflexivity|split; reflexivity]. }
  destruct Hrow as (row & Hrow & Hst & Herr). split.
  - apply Hok. intros id row'. rewrite <-elem_of_map_to_list.
    let l := eval vm_compute in (map_to_list (monitoring_runs (rs_db s))) in
    replace (map_to_list (monitoring_runs (rs_db s))) with l
      by (vm_compute; reflexivity).
    intros Hrow'.
    repeat (apply elem_of_cons in Hrow' as [Hrow'|Hrow'];
            [injection Hrow' as -> ->;
             eapply completed_row_ok; [|reflexivity]; reflexivity|]).
    apply elem_of_nil in Hrow'. destruct Hrow'.
  - exists row. split; [exact (Hkeep _ _ _ _ _ Hrow Hst)|exact (conj Hst Herr)].
Defined.

(** C6 as stated fails: [run_analysis] leaves a run whose status is none of
    [running], [completed], [failed] when an analysis failed. *)
Lemma analysis_only_run_status :
  ∃ row, monitoring_runs
           (rs_db (run_driver Sample.env (AnalysisOnly None 1)
                     (Sample.fresh Sample.db_extraction)))
           !! "analysis_only_1000" = Some row
         ∧ status row = "completed_with_errors"
         ∧ ¬ documented_status row.
Proof.
  eexists. split; [vm_compute; reflexivity|]. split; [reflexivity|].
  unfold documented_status. simpl. intros H.
  repeat (apply elem_of_cons in H as [H|H]; [discriminate|]).
  by apply elem_of_nil in H.
Qed.

(** ** The match engine: sorting and deduplication *)

Lemma elem_of_insert_desc (x y : MatchResult) l :
  x ∈ insert_desc y l ↔ x = y ∨ x ∈ l.
Proof.
  induction l as [|z l IH]; simpl.
  - rewrite list_elem_of_singleton, elem_of_nil. tauto.
  - case_match.
    + rewrite !elem_of_cons. tauto.
    + rewrite !elem_of_cons, IH. tauto.
Qed.

Lemma elem_of_sort_desc (x : MatchResult) l : x ∈ sort_desc l ↔ x ∈ l.
Proof.
  unfold sort_desc.
  assert (H : ∀ acc, x ∈ foldl (fun acc y => insert_desc y acc) acc l
                     ↔ x ∈ acc ∨ x ∈ l).
  { induction l as [|y l IH]; intros acc; simpl.
    - rewrite elem_of_nil. tauto.
    - rewrite IH, elem_of_insert_desc, elem_of_cons. tauto. }
  rewrite H, elem_of_nil. tauto.
Qed.

Lemma elem_of_unique_matches (x : MatchResult) seen l :
  x ∈ unique_matches seen l → x ∈ l ∧ x.1.1 ∉ seen.
Proof.
  revert seen. induction l as [|y l IH]; intros seen; simpl.
  - by intros ?%elem_of_nil.
  - case_decide as Hseen.
    + intros [Hin Hn]%IH. split; [by apply list_elem_of_further|done].
    + intros [->|[Hin Hn]%IH]%elem_of_cons.
      * split; [apply list_elem_of_here|done].
      * split; [by apply list_elem_of_further|].
        by apply not_elem_of_cons in Hn as [_ ?].
Qed.

Lemma unique_matches_covers (x : MatchResult) seen l :
  x ∈ l → x.1.1 ∉ seen → ∃ y, y ∈ unique_matches seen l ∧ y.1.1 = x.1.1.
Proof.
  revert seen. induction l as [|z l IH]; intros seen; simpl.
  - by intros ?%elem_of_nil.
  - intros [->|Hin]%elem_of_cons Hseen.
    + rewrite decide_False by done. exists z. split; [apply list_elem_of_here|done].
    + case_decide as Hz; [by apply IH|].
      destruct (decide (z.1.1 = x.1.1)) as [Heq|Hne].
      * exists z. split; [apply list_elem_of_here|done].
      * destruct (IH (z.1.1 :: seen) Hin) as (y & Hy & Heq).
        { apply not_elem_of_cons. split; [congruence|done]. }
        exists y. split; [by apply list_elem_of_further|done].
Qed.

(** ** The match engine: one term *)

Lemma window_match_term fz text threshold t ws (m : MatchResult) :
  m ∈ window_match fz text threshold t ws →
  m.1.1 = t ∧ threshold ≤ m.1.2.
Proof.
  unfold window_match. destruct (List.find _ _) as [combo|] eqn:Hfind.
  - intros ->%list_elem_of_singleton. simpl. split; [done|].
    apply find_some in Hfind as [_ Hle]. by apply Z.leb_le.
  - by intros ?%elem_of_nil.
Qed.

Lemma window_matches_term fz text threshold t words (m : MatchResult) :
  m ∈ window_matches fz text threshold t words →
  m.1.1 = t ∧ threshold ≤ m.1.2.
Proof.
  induction words as [|w words IH]; simpl.
  - by intros ?%elem_of_nil.
  - intros [Hm|Hm]%elem_of_app; [by eapply window_match_term|auto].
Qed.

Lemma term_matches_term fz text threshold t (m : MatchResult) :
  m ∈ term_matches fz text threshold t → m.1.1 = t.
Proof.
  unfold term_matches. repeat case_match;
    try (by intros ?%elem_of_nil);
    try (by intros ->%list_elem_of_singleton).
  intros Hm. by eapply window_matches_term.
Qed.

(** The results for a term are among what the loop appended for it, and
    there is one as soon as the loop appended something. *)
Lemma find_text_matches_of_term fz text terms match_type t :
  text ≠ "" →
  let threshold :=
    if decide (match_type = "name") then name_confidence_threshold
    else location_confidence_threshold in
  (∀ m : MatchResult, m ∈ find_text_matches fz text terms match_type →
        m.1.1 = t → t ∈ terms ∧ m ∈ term_matches fz text threshold t) ∧
  (t ∈ terms → term_matches fz text threshold t ≠ [] →
   ∃ m : MatchResult, m ∈ find_text_matches fz text terms match_type ∧ m.1.1 = t).
Proof.
  intros Htext threshold. unfold find_text_matches.
  rewrite bool_decide_eq_false_2 by done. simpl.
  destruct terms as [|t0 terms]; [simpl|rewrite bool_decide_eq_false_2 by done].
  { split; [by intros m ?%elem_of_nil|by intros ?%elem_of_nil]. }
  fold threshold. split.
  - intros m [Hin _]%elem_of_unique_matches Hm.
    apply elem_of_sort_desc, list_elem_of_bind in Hin as (t' & Hin & Ht').
    apply term_matches_term in Hin as Heq. rewrite Hm in Heq. by subst t'.
  - intros Ht Hne.
    destruct (term_matches fz text threshold t) as [|m ms] eqn:Hms; [done|].
    assert (Hm : m ∈ term_matches fz text threshold t)
      by (rewrite Hms; apply list_elem_of_here).
    destruct (unique_matches_covers m []
                (sort_desc ((t0 :: terms) ≫= term_matches fz text threshold)))
      as (y & Hy & Heq).
    + apply elem_of_sort_desc, list_elem_of_bind. by exists t.
    + by intros ?%elem_of_nil.
    + exists y. split; [done|]. rewrite Heq. by eapply term_matches_term.
Qed.

(** ** The match engine: the fuzzy methods *)






(** C4 as stated fails: a term whose partial-ratio score is one point below
    the threshold, and which methods 1 and 2 do not match, still gets a
    MatchResult, from method 4. *)
Lemma below_threshold_still_matches :
  contains (clean_text_of "Christopher Alan Johnson is great")
           (lower "Christopher Johnson") = false ∧
  search (word_match false (lower "Christopher Johnson"))
         (clean_text_of "Christopher Alan Johnson is great") = None ∧
  partial_ratio fuzzywuzzy (lower "Christopher Johnson")
    (clean_text_of "Christopher Alan Johnson is great")
  = name_confidence_threshold - 1 ∧
  find_text_matches fuzzywuzzy "Christopher Alan Johnson is great"
    ["Christopher Johnson"] "name"
  = [("Christopher Johnson", 88, "Christopher Alan Johnson")].
Proof. vm_compute. repeat split. Qed.

(** ** The match engine: terms with punctuation *)
















(** ** The backlog query, the profile upsert and the last successful run *)

(** X1.  Without a limit, [get_unanalyzed_extractions] returns the entry of
    a stored review exactly when no [ai_analyses] row carries the profile id
    of the review together with its stored hash. *)
Theorem backlog_characterisation db d :
  d ∈ get_unanalyzed_extractions db None ↔
  ∃ pid r, d = extraction_data pid r ∧ r ∈ stored_reviews db pid ∧
    ¬ ∃ id row, ai_analyses db !! id = Some row ∧ ar_profile_id row = pid
                ∧ ar_review_hash row = review_hash r.
Proof.
  unfold get_unanalyzed_extractions. rewrite list_elem_of_fmap. split.
  - intros ([pid r] & -> & Hin). apply unanalyzed_reviews_spec in Hin.
    exists pid, r. by destruct Hin.
  - intros (pid & r & -> & Hin & Hno). exists (pid, r). split; [done|].
    by apply unanalyzed_reviews_spec.
Qed.




Lemma foldl_later_run l best :
  match foldl later_run best l with
  | Some r =>
      (Some r = best ∨ r ∈ l) ∧
      (∀ b, best = Some b →
         default 0 (completed_at b.2) ≤ default 0 (completed_at r.2)) ∧
      (∀ c, c ∈ l →
         default 0 (completed_at c.2) ≤ default 0 (completed_at r.2))
  | None => best = None ∧ l = []
  end.
Proof.
  revert best. induction l as [|c l IH]; intros best; simpl.
  - destruct best as [b|]; [|done]. split; [by left|].
    split; [by intros ? [= <-]|]. by intros c ?%elem_of_nil.
  - specialize (IH (later_run best c)).
    destruct (foldl later_run (later_run best c) l) as [r|].
    + destruct IH as (Hin & Hbest & Hall).
      assert (default 0 (completed_at c.2) ≤ default 0 (completed_at r.2)
              ∧ ∀ b, best = Some b →
                  default 0 (completed_at b.2) ≤ default 0 (completed_at r.2))
        as [Hc Hb].
      { unfold later_run in Hbest. destruct best as [b|].
        - case_decide as Hlt.
          + specialize (Hbest c eq_refl). split; [done|].
            intros b' [= <-]. lia.
          + specialize (Hbest b eq_refl). split; [lia|]. by intros b' [= <-].
        - split; [by apply Hbest|done]. }
      split; [|split; [done|]].
      * destruct Hin as [Heq|Hin]; [|right; by apply list_elem_of_further].
        unfold later_run in Heq. destruct best as [b|].
        -- case_decide; simplify_eq; [right; apply list_elem_of_here|by left].
        -- simplify_eq. right. apply list_elem_of_here.
      * intros c' [->|Hin']%elem_of_cons; auto.
    + destruct IH as [Hnone _]. unfold later_run in Hnone.
      destruct best; [case_decide|]; done.
Qed.

(** X4.  [get_last_successful_run] returns a row of [monitoring_runs] whose
    status is [completed] (and whose type is the requested one, when a
    non-empty type is given), and no such row was completed later; it
    returns nothing exactly when there is no such row. *)
Theorem last_successful_run_spec db rtype :
  let wanted (row : RunRow) :=
    status row = "completed" ∧
    match rtype with
    | Some t => t = "" ∨ run_type row = t
    | None => True
    end in
  match get_last_successful_run db rtype with
  | Some (id, row) =>
      monitoring_runs db !! id = Some row ∧ wanted row ∧
      ∀ id' row', monitoring_runs db !! id' = Some row' → wanted row' →
        default 0 (completed_at row') ≤ default 0 (completed_at row)
  | None => ∀ id' row', monitoring_runs db !! id' = Some row' → ¬ wanted row'
  end.
Proof.
  intros wanted. unfold get_last_successful_run.
  assert (∀ r : string * RunRow,
            is_successful_run rtype r = true ↔ wanted r.2) as Hw.
  { intros [id row]. unfold is_successful_run, wanted. simpl.
    rewrite andb_true_iff, bool_decide_eq_true.
    destruct rtype as [t|]; [|tauto].
    rewrite orb_true_iff, !bool_decide_eq_true. tauto. }
  pose proof (foldl_later_run
                (filter (fun r => is_successful_run rtype r = true)
                        (map_to_list (monitoring_runs db))) None) as H.
  destruct (foldl later_run None _) as [[id row]|].
  - destruct H as ([?|Hin] & _ & Hall); [done|].
    apply list_elem_of_filter in Hin as [Hok Hin].
    apply elem_of_map_to_list in Hin. split; [done|].
    split; [by apply (Hw (id, row))|].
    intros id' row' Hrow' Hwanted. apply (Hall (id', row')).
    apply list_elem_of_filter. split; [by apply Hw|].
    by apply elem_of_map_to_list.
  - destruct H as [_ Hnil]. intros id' row' Hrow' Hwanted.
    assert ((id', row') ∈ filter (fun r => is_successful_run rtype r = true)
                              (map_to_list (monitoring_runs db))) as Hin.
    { apply list_elem_of_filter. split; [by apply Hw|].
      by apply elem_of_map_to_list. }
    rewrite Hnil in Hin. by apply elem_of_nil in Hin.
Qed.

Lemma get_last_successful_run_none db :
  (∀ id row, monitoring_runs db !! id = Some row → status row ≠ "completed") →
  get_last_successful_run db None = None.
Proof.
  intros Hno. unfold get_last_successful_run.
  pose proof (foldl_later_run
                (filter (fun r => is_successful_run None r = true)
                        (map_to_list (monitoring_runs db))) None) as H.
  destruct (foldl later_run None _) as [[id row]|]; [|done].
  destruct H as ([?|Hin] & _); [done|].
  apply list_elem_of_filter in Hin as [Hok Hin].
  apply elem_of_map_to_list in Hin. unfold is_successful_run in Hok.
  apply andb_true_iff in Hok as [Hst%bool_decide_eq_true _].
  by destruct (Hno id row Hin).
Qed.

(** X5.  When no monitoring run has the status [completed] (there is none
    yet, or all have failed or are still running), [run_incremental_update]
    is [run_full_analysis]: it opens a run of type [full] and does what a
    full run does. *)
Theorem incremental_update_falls_back env keywords s :
  (∀ id row, monitoring_runs (rs_db s) !! id = Some row →
             status row ≠ "completed") →
  run_incremental_update env keywords s = run_full_analysis env keywords s.
Proof.
  intros Hno. unfold run_incremental_update, bind at 1, get.
  by rewrite (get_last_successful_run_none _ Hno).
Qed.

Lemma incremental_update_falls_back_witness :
  run_incremental_update Sample.env ["Stouffville"]
    (Sample.fresh empty_db)
  = run_full_analysis Sample.env ["Stouffville"]
      (Sample.fresh empty_db).
Proof.
  apply incremental_update_falls_back. intros id row Hrow. simpl in Hrow.
  by rewrite lookup_empty in Hrow.
Defined.

(** ** Properties of the database that every run keeps *)

Section DbInvariant.

Variable P : DB → Prop.

Hypothesis P_runs : ∀ db db',
  rmt_profiles db' = rmt_profiles db →
  leaderboard_snapshots db' = leaderboard_snapshots db →
  ai_analyses db' = ai_analyses db → P db → P db'.
Hypothesis P_analyses : ∀ db m, P db → P (set_ai_analyses db m).
Hypothesis P_profile : ∀ db rmt run_id t, P db → P (save_rmt_profile db rmt run_id t).
Hypothesis P_extraction : ∀ db e run_id t1 t2,
  P db → P (save_review_extraction db e run_id t1 t2).2.
Hypothesis P_snapshots : ∀ env run_id db n m n',
  P db →
  insert_snapshots env run_id (leaderboard_query db) n (leaderboard_snapshots db)
  = (Ok m, n') →
  P (set_leaderboard_snapshots db m).

Lemma db_keeps_ret {A} (a : A) : db_keeps P (ret a).
Proof. by intros s. Qed.

Lemma db_keeps_raise {A} e : db_keeps P (@raise A e).
Proof. by intros s. Qed.

Lemma db_keeps_bind {A B} (m : M A) (k : A → M B) :
  db_keeps P m → (∀ a, db_keeps P (k a)) → db_keeps P (bind m k).
Proof.
  intros Hm Hk s Hs. unfold bind. specialize (Hm s Hs).
  destruct (m s) as [[a|e] s1]; [by apply Hk|done].
Qed.

Lemma db_keeps_try {A} (m : M A) (h : exn → M A) :
  db_keeps P m → (∀ e, db_keeps P (h e)) → db_keeps P (try_except m h).
Proof.
  intros Hm Hh s Hs. unfold try_except. specialize (Hm s Hs).
  destruct (m s) as [[a|e] s1]; [done|by apply Hh].
Qed.

Lemma db_keeps_for_each {A} (l : list A) body :
  (∀ x, db_keeps P (body x)) → db_keeps P (for_each l body).
Proof.
  intros Hbody. induction l as [|x l IH]; simpl; [apply db_keeps_ret|].
  apply db_keeps_bind; [apply Hbody|by intros _].
Qed.

Lemma db_keeps_ask {A} (f : nat → A) : db_keeps P (ask f).
Proof. by intros s. Qed.

Lemma db_keeps_get {A} (f : RunState → A) : db_keeps P (get f).
Proof. by intros s. Qed.

Lemma db_keeps_modify (f : RunState → RunState) :
  (∀ s, P (rs_db s) → P (rs_db (f s))) → db_keeps P (modify f).
Proof. intros Hf s. apply Hf. Qed.

Lemma db_keeps_sleep : db_keeps P sleep.
Proof. by intros s. Qed.

Lemma P_complete db run_id stats error t :
  P db → P (complete_monitoring_run db run_id stats error t).
Proof.
  apply P_runs; unfold complete_monitoring_run;
    by destruct (monitoring_runs db !! run_id).
Qed.

Lemma P_update db run_id n successful failed t :
  P db → P (update_monitoring_run db run_id n successful failed t).
Proof.
  apply P_runs; unfold update_monitoring_run;
    by destruct (monitoring_runs db !! run_id).
Qed.

Lemma P_start db rtype keywords t1 t2 run_id db' :
  start_monitoring_run db rtype keywords t1 t2 = Ok (run_id, db') →
  P db → P db'.
Proof.
  unfold start_monitoring_run. destruct (monitoring_runs db !! _); [done|].
  intros [= <- <-]. by apply P_runs.
Qed.

Lemma P_create db run_id t db' :
  create_monitoring_run db run_id t = Ok db' → P db → P db'.
Proof.
  unfold create_monitoring_run. destruct (monitoring_runs db !! _); [done|].
  intros [= <-]. by apply P_runs.
Qed.

Lemma P_ai_analysis db a run_id model t1 t2 db' :
  save_ai_analysis db a run_id model t1 t2 = Ok db' → P db → P db'.
Proof.
  unfold save_ai_analysis. case_decide; [|by intros [= <-]].
  destruct (ai_analyses db !! _); [done|]. intros [= <-]. apply P_analyses.
Qed.

Lemma P_analysis db id a run_id t1 t2 db' :
  (save_analysis db id a run_id t1 t2).2 = Ok db' → P db → P db'.
Proof.
  unfold save_analysis. destruct (bad_extraction_id id); [by intros [= <-]|].
  destruct id as [| |x]; [done..|].
  destruct (ai_analyses db !! _); [done|]. intros [= <-]. apply P_analyses.
Qed.

Lemma P_run_op db op : P db → P (apply_run_op db op).
Proof.
  destruct op as [rtype kws t1 t2|run_id st err t|run_id t|run_id n a b t];
    simpl.
  - destruct (start_monitoring_run _ _ _ _ _) as [[rid db']|e] eqn:H; [|done].
    by eapply P_start.
  - apply P_complete.
  - destruct (create_monitoring_run _ _ _) as [db'|e] eqn:H; [|done].
    by eapply P_create.
  - apply P_update.
Qed.

Lemma P_store_op db op : P db → P (apply_store_op db op).
Proof.
  destruct op as [rmt rid t|e rid t1 t2|a rid model t1 t2|id a rid t1 t2|op];
    simpl.
  - apply P_profile.
  - apply P_extraction.
  - destruct (save_ai_analysis _ _ _ _ _ _) eqn:H; [|done]. by eapply P_ai_analysis.
  - destruct (save_analysis _ _ _ _ _ _).2 eqn:H; [|done]. by eapply P_analysis.
  - apply P_run_op.
Qed.

Lemma P_store_ops ops db : P db → P (foldl apply_store_op db ops).
Proof.
  revert db. induction ops as [|op ops IH]; intros db Hdb; simpl; [done|].
  by apply IH, P_store_op.
Qed.

Lemma db_keeps_start_run env rtype keywords :
  db_keeps P (start_run env rtype keywords).
Proof.
  intros s Hs. rewrite start_run_eq. simpl.
  destruct (start_monitoring_run _ _ _ _ _) as [[rid db']|e] eqn:H; [|done].
  simpl. by eapply P_start.
Qed.

Lemma db_keeps_complete_run env run_id error :
  db_keeps P (complete_run env run_id error).
Proof. intros s Hs. simpl. by apply P_complete. Qed.

Lemma db_keeps_save_profile env rmt run_id :
  db_keeps P (save_profile env rmt run_id).
Proof. intros s Hs. simpl. by apply P_profile. Qed.

Lemma db_keeps_save_extraction env e run_id :
  db_keeps P (save_extraction env e run_id).
Proof.
  intros s Hs. rewrite save_extraction_eq. simpl.
  pose proof (P_extraction (rs_db s) e run_id (clock env (rs_tick s))
                (clock env (S (rs_tick s))) Hs) as H.
  by destruct (save_review_extraction _ _ _ _ _).
Qed.

Lemma db_keeps_save_analysis_of_run env a run_id :
  db_keeps P (save_analysis_of_run env a run_id).
Proof.
  intros s Hs. unfold save_analysis_of_run, bind, ask. simpl.
  destruct (save_ai_analysis _ _ _ _ _ _) as [db'|e] eqn:H; [|done].
  simpl. by eapply P_ai_analysis.
Qed.

Lemma db_keeps_analyze_and_save env run_id req :
  db_keeps P (analyze_and_save env run_id req).
Proof.
  unfold analyze_and_save. apply db_keeps_bind; [apply db_keeps_ask|].
  intros a. apply db_keeps_bind; [|intros _; apply db_keeps_sleep].
  destruct a as [a|]; [|apply db_keeps_ret].
  apply db_keeps_bind; [apply db_keeps_save_analysis_of_run|].
  intros _. by apply db_keeps_modify.
Qed.

Lemma db_keeps_generate_leaderboard_snapshot env run_id :
  db_keeps P (_generate_leaderboard_snapshot env run_id).
Proof.
  intros s Hs. unfold _generate_leaderboard_snapshot.
  destruct (insert_snapshots _ _ _ _ _) as [[m|e] n] eqn:H; [|done].
  simpl. by eapply P_snapshots.
Qed.

Lemma db_keeps_process_extractions env run_id es :
  db_keeps P (process_extractions env run_id es).
Proof.
  apply db_keeps_for_each. intros e.
  apply db_keeps_bind; [apply db_keeps_save_extraction|].
  intros [|]; [by apply db_keeps_modify|apply db_keeps_ret].
Qed.

Lemma db_keeps_extract_review_data env rmt :
  db_keeps P (extract_review_data env rmt).
Proof.
  apply db_keeps_bind; [apply db_keeps_ask|]. intros ?. apply db_keeps_ret.
Qed.

Lemma db_keeps_fail_run env run_id e : db_keeps P (fail_run env run_id e).
Proof.
  apply db_keeps_bind; [apply db_keeps_complete_run|].
  intros _. apply db_keeps_raise.
Qed.

Lemma db_keeps_run_tail env run_id :
  db_keeps P (_generate_leaderboard_snapshot env run_id ;;ᵣ
              complete_run env run_id None ;;ᵣ ret run_id).
Proof.
  apply db_keeps_bind; [apply db_keeps_generate_leaderboard_snapshot|].
  intros _. apply db_keeps_bind; [apply db_keeps_complete_run|].
  intros _. apply db_keeps_ret.
Qed.

Lemma db_keeps_full_body env run_id keywords :
  db_keeps P (full_body env run_id keywords).
Proof.
  unfold full_body. apply db_keeps_bind.
  { apply db_keeps_for_each. intros kw.
    apply db_keeps_bind; [apply db_keeps_ask|]. intros profiles.
    apply db_keeps_for_each. intros rmt.
    apply db_keeps_bind; [apply db_keeps_get|]. intros processed.
    case_decide; [apply db_keeps_ret|].
    apply db_keeps_bind; [by apply db_keeps_modify|]. intros _.
    apply db_keeps_bind; [apply db_keeps_save_profile|]. intros _.
    apply db_keeps_bind; [by apply db_keeps_modify|]. intros _.
    apply db_keeps_bind; [apply db_keeps_extract_review_data|]. intros es.
    apply db_keeps_process_extractions. }
  intros _. apply db_keeps_bind; [apply db_keeps_get|]. intros es.
  apply db_keeps_bind.
  { apply db_keeps_for_each. intros e. apply db_keeps_analyze_and_save. }
  intros _. apply db_keeps_run_tail.
Qed.

Lemma db_keeps_db_extraction_to_dict d : db_keeps P (_db_extraction_to_dict d).
Proof.
  unfold _db_extraction_to_dict.
  destruct (ed_matched_text_segments d), (ed_confidence_scores d);
    (apply db_keeps_ret || apply db_keeps_raise).
Qed.

Lemma db_keeps_incremental_body env run_id keywords :
  db_keeps P (incremental_body env run_id keywords).
Proof.
  unfold incremental_body. apply db_keeps_bind.
  { apply db_keeps_for_each. intros kw.
    apply db_keeps_bind; [apply db_keeps_ask|]. intros profiles.
    apply db_keeps_for_each. intros rmt.
    apply db_keeps_bind; [apply db_keeps_save_profile|]. intros _.
    apply db_keeps_bind; [by apply db_keeps_modify|]. intros _.
    apply db_keeps_bind; [apply db_keeps_extract_review_data|]. intros es.
    apply db_keeps_process_extractions. }
  intros _. apply db_keeps_bind; [apply db_keeps_get|]. intros es.
  apply db_keeps_bind.
  { apply db_keeps_for_each. intros e. apply db_keeps_analyze_and_save. }
  intros _. apply db_keeps_bind; [apply db_keeps_get|]. intros backlog.
  apply db_keeps_bind.
  { apply db_keeps_for_each. intros d.
    apply db_keeps_bind; [apply db_keeps_db_extraction_to_dict|].
    intros req. apply db_keeps_analyze_and_save. }
  intros _. apply db_keeps_run_tail.
Qed.

Lemma db_keeps_run_full_analysis env keywords :
  db_keeps P (run_full_analysis env keywords).
Proof.
  unfold run_full_analysis.
  apply db_keeps_bind; [apply db_keeps_start_run|]. intros run_id.
  apply db_keeps_bind; [by apply db_keeps_modify|]. intros _.
  apply db_keeps_try; [apply db_keeps_full_body|apply db_keeps_fail_run].
Qed.

Lemma db_keeps_run_incremental_update env keywords :
  db_keeps P (run_incremental_update env keywords).
Proof.
  unfold run_incremental_update.
  apply db_keeps_bind; [apply db_keeps_get|]. intros [last|];
    [|apply db_keeps_run_full_analysis].
  apply db_keeps_bind; [apply db_keeps_ask|]. intros _.
  apply db_keeps_bind; [apply db_keeps_start_run|]. intros run_id.
  apply db_keeps_bind; [by apply db_keeps_modify|]. intros _.
  apply db_keeps_try; [apply db_keeps_incremental_body|apply db_keeps_fail_run].
Qed.

Lemma db_keeps_with_counts (f g : RunState → Z) :
  db_keeps P (modify (fun s => with_counts s (f s) (g s))).
Proof. by apply db_keeps_modify. Qed.

Lemma db_keeps_analysis_loop env run_id delay items :
  db_keeps P (analysis_loop env run_id delay items).
Proof.
  induction items as [|req items IH]; simpl; [apply db_keeps_ret|].
  apply db_keeps_bind; [|intros _; apply IH].
  apply db_keeps_try; [|intros _; apply db_keeps_with_counts].
  apply db_keeps_bind; [apply db_keeps_ask|]. intros a.
  apply db_keeps_bind.
  - destruct a as [a|]; [|apply db_keeps_with_counts].
    apply db_keeps_bind; [|intros _; apply db_keeps_with_counts].
    apply db_keeps_bind; [apply db_keeps_ask|]. intros t1.
    apply db_keeps_bind; [apply db_keeps_ask|]. intros t2.
    intros s Hs.
    destruct (save_analysis _ _ _ _ _ _).2 as [db'|e] eqn:H; [|done].
    simpl. by eapply P_analysis.
  - intros _. destruct items; [apply db_keeps_ret|].
    unfold sleep_for. destruct (Qle_bool 0 delay); [apply db_keeps_sleep|].
    by intros s.
Qed.

Lemma db_keeps_run_analysis env limit delay :
  db_keeps P (run_analysis env limit delay).
Proof.
  unfold run_analysis. apply db_keeps_bind; [apply db_keeps_get|].
  intros [|req items]; [apply db_keeps_ret|].
  apply db_keeps_bind; [apply db_keeps_ask|]. intros t.
  apply db_keeps_bind; [apply db_keeps_ask|]. intros t'.
  apply db_keeps_bind.
  { intros s Hs. destruct (create_monitoring_run _ _ _) as [db'|e] eqn:H;
      [|done]. simpl. by eapply P_create. }
  intros _. apply db_keeps_bind; [apply db_keeps_with_counts|].
  intros _. apply db_keeps_bind; [apply db_keeps_analysis_loop|].
  intros _. apply db_keeps_bind; [apply db_keeps_ask|]. intros t''.
  apply db_keeps_bind; [|intros _; apply db_keeps_ret].
  apply db_keeps_modify. intros s Hs. simpl. by apply P_update.
Qed.

Lemma P_run_driver env d s : P (rs_db s) → P (rs_db (run_driver env d s)).
Proof.
  destruct d as [kws|kws|limit delay]; simpl.
  - apply db_keeps_run_full_analysis.
  - apply db_keeps_run_incremental_update.
  - apply db_keeps_run_analysis.
Qed.

Lemma P_run_drivers env ds s : P (rs_db s) → P (rs_db (run_drivers env ds s)).
Proof.
  revert s. induction ds as [|d ds IH]; intros s Hs; simpl; [done|].
  by apply IH, P_run_driver.
Qed.

End DbInvariant.

(** ** The store never holds a review twice *)

Lemma store_ok_profiles db db' :
  rmt_profiles db' = rmt_profiles db → store_ok db → store_ok db'.
Proof. unfold store_ok. by intros ->. Qed.

Lemma store_ok_save_rmt_profile db rmt run_id t :
  store_ok db → store_ok (save_rmt_profile db rmt run_id t).
Proof.
  intros Hok pid row. unfold save_rmt_profile.
  destruct (rmt_profiles db !! profile_id rmt) as [old|] eqn:Hold; simpl;
    (destruct (decide (pid = profile_id rmt)) as [->|Hne];
     [rewrite lookup_insert_eq; intros [= <-]
     |rewrite lookup_insert_ne by done; apply Hok]).
  - apply (Hok _ _ Hold).
  - split; [constructor|done].
Qed.

Lemma store_ok_save_review_extraction db e run_id t1 t2 :
  store_ok db → store_ok (save_review_extraction db e run_id t1 t2).2.
Proof.
  intros Hok. unfold save_review_extraction.
  destruct (rmt_profiles db !! profile_id (rmt_data e)) as [old|] eqn:Hold;
    [|by case_decide].
  case_decide as Hin; [done|]. simpl. intros pid row. simpl.
  destruct (decide (pid = profile_id (rmt_data e))) as [->|Hne];
    [rewrite lookup_insert_eq; intros [= <-]
    |rewrite lookup_insert_ne by done; apply Hok].
  destruct (Hok _ _ Hold) as [Hnd Hlen]. split; simpl.
  - rewrite fmap_app. apply NoDup_app. split; [done|]. split.
    + intros h Hh [->|[]%elem_of_nil]%elem_of_cons. done.
    + apply NoDup_singleton.
  - rewrite length_app, Nat2Z.inj_add, <-Hlen. simpl.
    case_decide; lia.
Qed.

(** X6.  No review is stored twice: in the database that any sequence of
    calls of [save_rmt_profile], [save_review_extraction], [save_ai_analysis],
    [save_analysis] and the monitoring-run methods builds from the empty
    database, and in the database that any sequence of [run_full_analysis],
    [run_incremental_update] and [run_analysis] leaves when it started from
    such a database, the stored reviews of a profile have pairwise different
    hashes and [total_reviews] is their number. *)
Theorem stored_reviews_stay_distinct :
  (∀ ops, store_ok (foldl apply_store_op empty_db ops)) ∧
  (∀ env ds s, store_ok (rs_db s) → store_ok (rs_db (run_drivers env ds s))).
Proof.
  split.
  - intros ops. apply (P_store_ops store_ok).
    + intros db db' Hp _ _. by apply store_ok_profiles.
    + intros db m. by apply store_ok_profiles.
    + apply store_ok_save_rmt_profile.
    + apply store_ok_save_review_extraction.
    + intros pid row Hrow. simpl in Hrow. by rewrite lookup_empty in Hrow.
  - intros env ds s. apply (P_run_drivers store_ok).
    + intros db db' Hp _ _. by apply store_ok_profiles.
    + intros db m. by apply store_ok_profiles.
    + apply store_ok_save_rmt_profile.
    + apply store_ok_save_review_extraction.
    + intros env' run_id db n m n' Hdb _. revert Hdb. by apply store_ok_profiles.
Qed.

Lemma stored_reviews_stay_distinct_witness :
  let ds := [FullAnalysis ["Stouffville"]; IncrementalUpdate ["Stouffville"]] in
  let db := rs_db (run_drivers (Sample.env) ds (Sample.fresh empty_db)) in
  store_ok db ∧ length (stored_reviews db "p1") = 1%nat.
Proof.
  intros ds db. split.
  - destruct stored_reviews_stay_distinct as [_ H]. apply H.
    intros pid row Hrow. simpl in Hrow. by rewrite lookup_empty in Hrow.
  - vm_compute. reflexivity.
Defined.

(** ** The snapshot rows *)

Lemma count_where_bounds {A} (p : A → bool) (l : list A) :
  0 ≤ count_where p l ≤ Z.of_nat (length l).
Proof.
  unfold count_where. split; [lia|]. apply Nat2Z.inj_le.
  induction l as [|x l IH]; simpl; [done|]. destruct (p x); simpl; lia.
Qed.

Lemma count_where_disjoint {A} (p q : A → bool) (l : list A) :
  (∀ x, p x = true → q x = true → False) →
  count_where p l + count_where q l ≤ Z.of_nat (length l).
Proof.
  intros Hpq. unfold count_where. rewrite <-Nat2Z.inj_add. apply Nat2Z.inj_le.
  induction l as [|x l IH]; simpl; [done|].
  specialize (Hpq x). destruct (p x), (q x); simpl; [exfalso; by apply Hpq|lia..].
Qed.

Lemma positive_not_negative row : is_positive row = true → is_negative row = true → False.
Proof.
  unfold is_positive, is_negative.
  rewrite !orb_true_iff, !bool_decide_eq_true. intros [->| ->] [?|?]; done.
Qed.

Lemma snapshot_score_bounds r : (0 <= snapshot_score r <= 100)%Q.
Proof.
  unfold snapshot_score. split; [apply Q.le_max_l|].
  apply Q.max_lub; [done|apply Q.le_min_l].
Qed.

Lemma leaderboard_query_rows db r :
  r ∈ leaderboard_query db →
  0 < lr_total_reviews r ∧
  0 ≤ lr_positive_count r ∧ 0 ≤ lr_negative_count r ∧
  lr_positive_count r + lr_negative_count r ≤ lr_total_reviews r ∧
  0 ≤ lr_false_positives r ≤ lr_total_reviews r.
Proof.
  unfold leaderboard_query. intros ([pid prow] & Hin & Hr)%list_elem_of_omap.
  destruct (analyses_of db pid) as [|a rows] eqn:Hrows; [done|].
  injection Hr as <-. simpl. split; [lia|].
  pose proof (count_where_bounds is_positive (a :: rows)).
  pose proof (count_where_bounds is_negative (a :: rows)).
  pose proof (count_where_bounds
                (fun r => potential_false_positive (analysis_json r))
                (a :: rows)).
  pose proof (count_where_disjoint is_positive is_negative (a :: rows)
                positive_not_negative).
  simpl in *. lia.
Qed.

Lemma insert_snapshots_ok env run_id rows n m m' n' :
  (∀ r, r ∈ rows →
     0 < lr_total_reviews r ∧
     0 ≤ lr_positive_count r ∧ 0 ≤ lr_negative_count r ∧
     lr_positive_count r + lr_negative_count r ≤ lr_total_reviews r ∧
     0 ≤ lr_false_positives r ≤ lr_total_reviews r) →
  (∀ id row, m !! id = Some row → snapshot_ok row) →
  insert_snapshots env run_id rows n m = (Ok m', n') →
  ∀ id row, m' !! id = Some row → snapshot_ok row.
Proof.
  revert n m. induction rows as [|r rows IH]; intros n m Hrows Hm; simpl.
  - by intros [= <- <-].
  - destruct (m !! _) as [old|] eqn:Hold; [done|]. intros Hins.
    eapply IH; [| |exact Hins].
    + intros r' Hr'. apply Hrows. by apply list_elem_of_further.
    + intros id row. rewrite lookup_insert. case_decide as Hid; [|apply Hm].
      intros [= <-]. destruct (Hrows r) as (H1 & H2 & H3 & H4 & H5);
        [apply list_elem_of_here|].
      pose proof (snapshot_score_bounds r) as [??].
      unfold snapshot_ok. simpl. tauto.
Qed.

(** X7.  Every row of [leaderboard_snapshots] that
    [_generate_leaderboard_snapshot] has written in any sequence of runs from
    a database without snapshots (or with sound ones) has a composite score
    from 0 to 100, covers at least one analysis, and counts no more positive
    plus negative analyses, and no more possible false positives, than it
    covers. *)
Theorem snapshot_rows_sound env ds s :
  snapshots_ok (rs_db s) → snapshots_ok (rs_db (run_drivers env ds s)).
Proof.
  apply (P_run_drivers snapshots_ok).
  - intros db db' _ Hs _. unfold snapshots_ok. by rewrite Hs.
  - by intros db m.
  - intros db rmt run_id t. unfold snapshots_ok, save_rmt_profile.
    by destruct (rmt_profiles db !! profile_id rmt).
  - intros db e run_id t1 t2. unfold snapshots_ok, save_review_extraction.
    destruct (rmt_profiles db !! profile_id (rmt_data e)); [|by case_decide].
    by case_decide.
  - intros env' run_id db n m n' Hdb Hins id row. simpl.
    eapply insert_snapshots_ok; [|exact Hdb|exact Hins].
    apply leaderboard_query_rows.
Qed.

Lemma snapshot_rows_sound_witness :
  let db := rs_db (run_drivers Scenario.env [FullAnalysis ["Stouffville"]]
                     (Sample.fresh empty_db)) in
  snapshots_ok db ∧
  ∃ row, leaderboard_snapshots db !! "snapshot_p1_1011" = Some row
         ∧ (composite_reputation_score row == 96)%Q.
Proof.
  intros db. split.
  - apply snapshot_rows_sound. intros id row Hrow. simpl in Hrow.
    by rewrite lookup_empty in Hrow.
  - eexists. split; [vm_compute; reflexivity|]. vm_compute. reflexivity.
Defined.

(** ** The counters of a completed run *)

Lemma hoare_frame {A} run_id
    (L : Stats * list ReviewExtraction * list string → Prop) (m : M A) :
  quiet run_id m → keeps_locals m →
  hoare (fun s => run_open run_id s ∧ L (locals s)) m
        (fun _ s => run_open run_id s ∧ L (locals s)) (fun _ _ => True).
Proof.
  intros Hq Hl s [[row Hrow] HL]. specialize (Hq s) as [_ Hstep].
  specialize (Hl s). destruct (m s) as [[a|e] s1]; [|done]. simpl in *.
  split; [|by rewrite Hl].
  destruct (proj1 Hstep row Hrow) as (row' & Hrow' & _). by exists row'.
Qed.

Lemma keeps_locals_ask {A} (f : nat → A) : keeps_locals (ask f).
Proof. by intros s. Qed.

Lemma keeps_locals_sleep : keeps_locals sleep.
Proof. by intros s. Qed.

Lemma keeps_locals_save_profile env rmt run_id :
  keeps_locals (save_profile env rmt run_id).
Proof. by intros s. Qed.

Lemma keeps_locals_complete_run env run_id error :
  keeps_locals (complete_run env run_id error).
Proof. by intros s. Qed.

Lemma keeps_locals_save_extraction env e run_id :
  keeps_locals (save_extraction env e run_id).
Proof.
  intros s. rewrite save_extraction_eq.
  by destruct (save_review_extraction _ _ _ _ _).
Qed.

Lemma keeps_locals_save_analysis_of_run env a run_id :
  keeps_locals (save_analysis_of_run env a run_id).
Proof.
  intros s. unfold save_analysis_of_run, bind, ask. simpl.
  by destruct (save_ai_analysis _ _ _ _ _ _).
Qed.

Lemma keeps_locals_extract_review_data env rmt :
  keeps_locals (extract_review_data env rmt).
Proof.
  intros s. unfold extract_review_data, bind, ask.
  by destruct (kept_reviews env (rs_tick s) rmt).
Qed.

Lemma keeps_locals_generate_leaderboard_snapshot env run_id :
  keeps_locals (_generate_leaderboard_snapshot env run_id).
Proof.
  intros s. unfold _generate_leaderboard_snapshot.
  by destruct (insert_snapshots _ _ _ _ _) as [[m|e] n].
Qed.

(** The extraction loop of a full run keeps the counters, with no review
    analysed yet. *)
Lemma full_extraction_counters env run_id keywords :
  hoare (fun s => run_open run_id s ∧ full_counters 0 (locals s))
    (for_each keywords (fun keyword =>
       profiles ←ᵣ ask (fun n =>
         search_cmto_profiles env n keyword max_rmts_per_keyword true);
       for_each profiles (fun rmt =>
         processed ←ᵣ get rs_processed;
         if decide (profile_id rmt ∈ processed) then ret tt
         else
           modify (fun s => with_processed s (profile_id rmt :: rs_processed s)) ;;ᵣ
           save_profile env rmt run_id ;;ᵣ
           modify (fun s => with_stats s (add_rmts_processed (rs_stats s))) ;;ᵣ
           extractions ←ᵣ extract_review_data env rmt;
           process_extractions env run_id extractions)))
    (fun _ s => run_open run_id s ∧ full_counters 0 (locals s))
    (fun _ _ => True).
Proof.
  apply hoare_for_each. intros keyword _.
  eapply hoare_bind.
  { apply (hoare_frame run_id (full_counters 0));
      [apply quiet_ask|apply keeps_locals_ask]. }
  intros profiles. apply hoare_for_each. intros rmt _.
  (* the state between the two counter updates *)
  eapply hoare_bind with
    (Q := fun processed s =>
            processed = rs_processed s ∧ run_open run_id s
            ∧ full_counters 0 (locals s)).
  { apply hoare_get. by intros s Hs. }
  intros processed. case_decide as Hin; [apply hoare_ret; by intros s (_ & Hs)|].
  eapply hoare_bind with
    (Q := fun _ s =>
            run_open run_id s ∧
            full_counters 0
              (add_rmts_processed (rs_stats s), rs_extractions s,
               rs_processed s)).
  { apply hoare_modify. intros s (-> & Hopen & (Hn & Hnd & He & Ha)).
    split; [done|]. unfold full_counters, locals in *. simpl in *.
    split; [lia|]. split; [by constructor|]. done. }
  intros ?. eapply hoare_bind.
  { apply (hoare_frame run_id
             (fun l => full_counters 0 (add_rmts_processed l.1.1, l.1.2, l.2)));
      [apply quiet_save_profile|apply keeps_locals_save_profile]. }
  intros ?. eapply hoare_bind with
    (Q := fun _ s => run_open run_id s ∧ full_counters 0 (locals s)).
  { apply hoare_modify. by intros s Hs. }
  intros ?. eapply hoare_bind.
  { apply (hoare_frame run_id (full_counters 0));
      [apply quiet_extract_review_data|apply keeps_locals_extract_review_data]. }
  intros extractions. apply hoare_for_each. intros e _.
  eapply hoare_bind.
  { apply (hoare_frame run_id (full_counters 0));
      [|apply keeps_locals_save_extraction].
    intros s. rewrite save_extraction_eq. simpl.
    pose proof (save_review_extraction_step run_id (rs_db s) e run_id
                  (clock env (rs_tick s)) (clock env (S (rs_tick s)))) as H.
    by destruct (save_review_extraction _ _ _ _ _). }
  intros [|]; [|apply hoare_ret; by intros s Hs].
  apply hoare_modify. intros s (Hopen & (Hn & Hnd & He & Ha)).
  split; [done|]. unfold full_counters, locals in *. simpl in *.
  rewrite length_app. simpl. split; [done|]. split; [done|]. split; lia.
Qed.

Lemma analyze_and_save_counters env run_id req es n :
  hoare (fun s => run_open run_id s ∧ full_counters n (locals s)
                  ∧ rs_extractions s = es)
    (analyze_and_save env run_id req)
    (fun _ s => run_open run_id s ∧ full_counters (n + 1) (locals s)
                ∧ rs_extractions s = es)
    (fun _ _ => True).
Proof.
  set (L := fun k (l : Stats * list ReviewExtraction * list string) =>
              full_counters k l ∧ l.1.2 = es).
  assert (Hweak : ∀ s, run_open run_id s ∧ L n (locals s) →
                       run_open run_id s ∧ L (n + 1) (locals s)).
  { intros s (Hopen & (Hn & Hnd & He & Ha) & Hes). split; [done|].
    split; [|done]. unfold full_counters. split; [done|]. split; [done|].
    split; [done|lia]. }
  unfold analyze_and_save.
  eapply hoare_conseq with
    (P' := fun s => run_open run_id s ∧ L n (locals s))
    (Q' := fun _ s => run_open run_id s ∧ L (n + 1) (locals s))
    (E' := fun _ _ => True);
    [|by intros s (? & ? & ?)|by intros a s (? & ? & ?)|done].
  eapply hoare_bind.
  { apply (hoare_frame run_id (L n)); [apply quiet_ask|apply keeps_locals_ask]. }
  intros a. eapply hoare_bind with
    (Q := fun _ s => run_open run_id s ∧ L (n + 1) (locals s)).
  - destruct a as [a|]; [|apply hoare_ret; exact Hweak].
    eapply hoare_bind.
    { apply (hoare_frame run_id (L n));
        [apply quiet_save_analysis_of_run
        |apply keeps_locals_save_analysis_of_run]. }
    intros ?. apply hoare_modify.
    intros s (Hopen & (Hn & Hnd & He & Ha) & Hes). split; [done|].
    split; [|done]. unfold full_counters, locals in *. simpl in *.
    split; [done|]. split; [done|]. split; [done|lia].
  - intros ?. apply (hoare_frame run_id (L (n + 1)));
      [apply quiet_sleep|apply keeps_locals_sleep].
Qed.

Lemma analysis_counters {A} env run_id (items : list A) mk es n :
  hoare (fun s => run_open run_id s ∧ full_counters n (locals s)
                  ∧ rs_extractions s = es)
    (for_each items (fun x => analyze_and_save env run_id (mk x)))
    (fun _ s => run_open run_id s
                ∧ full_counters (n + Z.of_nat (length items)) (locals s)
                ∧ rs_extractions s = es)
    (fun _ _ => True).
Proof.
  revert n. induction items as [|x items IH]; intros n.
  - apply hoare_ret. intros s Hs. simpl. by rewrite Z.add_0_r.
  - cbn [for_each]. eapply hoare_bind; [apply analyze_and_save_counters|].
    intros ?. eapply hoare_conseq; [apply (IH (n + 1))|done| |done].
    intros r s (Ho & (H1 & H2 & H3 & H4) & He). rewrite length_cons.
    repeat split; try done; lia.
Qed.

(** The end of a run: the snapshot, and the counters written to the row. *)
Lemma run_tail_counters env run_id
    (L : Stats * list ReviewExtraction * list string → Prop) :
  hoare (fun s => run_open run_id s ∧ L (locals s))
    (_generate_leaderboard_snapshot env run_id ;;ᵣ
     complete_run env run_id None ;;ᵣ ret run_id)
    (fun a s =>
       a = run_id ∧ L (locals s) ∧
       ∃ row, monitoring_runs (rs_db s) !! run_id = Some row
              ∧ status row = "completed" ∧ error_message row = None
              ∧ rmts_processed row = st_rmts_processed (rs_stats s)
              ∧ reviews_extracted row = st_reviews_extracted (rs_stats s)
              ∧ reviews_analyzed row = st_reviews_analyzed (rs_stats s))
    (fun _ _ => True).
Proof.
  eapply hoare_bind.
  { apply (hoare_frame run_id L);
      [apply quiet_generate_leaderboard_snapshot
      |apply keeps_locals_generate_leaderboard_snapshot]. }
  intros ?. intros s [[row Hrow] Hc]. simpl.
  split; [done|]. split; [done|].
  destruct (complete_monitoring_run_row (rs_db s) run_id (rs_stats s) None
              (clock env (rs_tick s)) row Hrow)
    as (row' & Hrow' & Hst & Herr & H1 & H2 & H3).
  by exists row'.
Qed.

Lemma full_body_counters env run_id keywords :
  hoare (fun s => run_open run_id s ∧ full_counters 0 (locals s))
    (full_body env run_id keywords)
    (fun a s =>
       a = run_id ∧
       ∃ row, monitoring_runs (rs_db s) !! run_id = Some row
              ∧ status row = "completed" ∧ error_message row = None
              ∧ rmts_processed row = Z.of_nat (length (rs_processed s))
              ∧ NoDup (rs_processed s)
              ∧ reviews_extracted row = Z.of_nat (length (rs_extractions s))
              ∧ 0 ≤ reviews_analyzed row ≤ reviews_extracted row)
    (fun _ _ => True).
Proof.
  unfold full_body. eapply hoare_bind; [apply full_extraction_counters|].
  intros ?. eapply hoare_bind with
    (Q := fun es s => run_open run_id s ∧ full_counters 0 (locals s)
                      ∧ rs_extractions s = es).
  { apply hoare_get. intros s [??]. simpl. auto. }
  intros es. eapply hoare_bind;
    [apply (analysis_counters env run_id es FromExtraction es 0)|].
  intros ?. eapply hoare_conseq;
    [apply (run_tail_counters env run_id
              (fun l => full_counters (0 + Z.of_nat (length es)) l
                        ∧ l.1.2 = es))
    |by intros s (? & ? & ?)| |done].
  intros r s (-> & ((Hn & Hnd & He & Ha) & Hes) & row & Hrow & Hst & Herr
              & H1 & H2 & H3).
  split; [done|]. exists row. unfold locals in *. simpl in *.
  rewrite H1, H2, H3, He, Hn, Hes. repeat split; try done; lia.
Qed.

(** X8.  When [run_full_analysis] returns, the row of its run is
    [completed] without an error message, and its counters are exact:
    [rmts_processed] is the number of distinct profile ids that were
    processed, [reviews_extracted] is the number of extractions that
    [save_review_extraction] reported new (each of them is in the store), and
    [reviews_analyzed] is at most [reviews_extracted]. *)
Theorem completed_full_run_accounting env keywords s run_id s' :
  run_full_analysis env keywords s = (Ok run_id, s') →
  run_id = "full_" +:+ pretty (clock env (rs_tick s)) ∧
  (∃ row, monitoring_runs (rs_db s') !! run_id = Some row
          ∧ status row = "completed" ∧ error_message row = None
          ∧ rmts_processed row = Z.of_nat (length (rs_processed s'))
          ∧ NoDup (rs_processed s')
          ∧ reviews_extracted row = Z.of_nat (length (rs_extractions s'))
          ∧ 0 ≤ reviews_analyzed row ≤ reviews_extracted row) ∧
  (∀ e, e ∈ rs_extractions s' → extraction_stored (rs_db s') e).
Proof.
  unfold run_full_analysis, bind. rewrite start_run_eq. simpl.
  destruct (start_monitoring_run _ _ _ _ _) as [[rid db1]|e] eqn:Hstart;
    [|done].
  apply start_monitoring_run_ok in Hstart
    as (-> & _ & (row1 & Hrow1 & _) & _).
  simpl. unfold try_except.
  change ("full" +:+ "_" +:+ ?x) with ("full_" +:+ x) in *.
  set (rid := "full_" +:+ pretty (clock env (rs_tick s))) in *.
  set (s1 := reset_locals _).
  pose proof (full_body_counters env rid keywords s1) as Hc.
  pose proof (full_body_inv rid db1 env keywords s1) as Hi.
  destruct (full_body env rid keywords s1) as [[a|e] s2].
  - intros [= <- <-].
    destruct Hc as [-> Hrow].
    { split; [by exists row1|]. repeat split; simpl; try done. constructor. }
    split; [done|]. split; [exact Hrow|]. apply Hi.
    split; [apply db_step_refl|]. simpl. by intros e ?%elem_of_nil.
  - intros H. unfold fail_run, bind, complete_run, bind, ask, modify, raise in H.
    simpl in H. discriminate.
Qed.

Lemma completed_full_run_accounting_witness :
  Scenario.full_run = (Ok "full_1000", Scenario.full_run.2) ∧
  ∃ row, monitoring_runs (rs_db Scenario.full_run.2) !! "full_1000" = Some row
         ∧ status row = "completed" ∧ error_message row = None
         ∧ rmts_processed row = 1 ∧ reviews_extracted row = 1
         ∧ 0 ≤ reviews_analyzed row ≤ 1.
Proof.
  assert (H : Scenario.full_run = (Ok "full_1000", Scenario.full_run.2))
    by (vm_compute; reflexivity).
  split; [exact H|].
  destruct (completed_full_run_accounting Scenario.env ["Stouffville"]
              (Sample.fresh empty_db) "full_1000" _ H)
    as (_ & (row & Hrow & Hst & Herr & Hn & _ & He & Ha) & _).
  assert (Hp : length (rs_processed Scenario.full_run.2) = 1%nat)
    by (vm_compute; reflexivity).
  assert (Hx : length (rs_extractions Scenario.full_run.2) = 1%nat)
    by (vm_compute; reflexivity).
  exists row.
  rewrite Hp in Hn. rewrite Hx in He. rewrite He in Ha.
  split; [exact Hrow|]. split; [exact Hst|]. split; [exact Herr|].
  split; [exact Hn|]. split; [exact He|exact Ha].
Defined.

(** ** The backlog at the end of an incremental update *)

Lemma grows_analyses_refl db : grows_analyses db db.
Proof. by split. Qed.

Lemma grows_analyses_trans db1 db2 db3 :
  grows_analyses db1 db2 → grows_analyses db2 db3 → grows_analyses db1 db3.
Proof. intros [H1 H2] [G1 G2]. split; [congruence|auto]. Qed.

Lemma analyzed_hashes_mono db db' pid h :
  grows_analyses db db' → h ∈ analyzed_hashes db pid →
  h ∈ analyzed_hashes db' pid.
Proof.
  intros [_ Hrows]. rewrite !elem_of_analyzed_hashes.
  intros (id & row & Hrow & Hp & Hh). exists id, row. auto.
Qed.

(** Analysing only shrinks the backlog. *)
Lemma backlog_mono db db' limit d :
  grows_analyses db db' →
  d ∈ get_unanalyzed_extractions db' limit →
  d ∈ get_unanalyzed_extractions db limit.
Proof.
  intros Hg. pose proof Hg as [Hprof _].
  unfold get_unanalyzed_extractions, unanalyzed_reviews, profiles_with_reviews.
  rewrite Hprof. rewrite !list_elem_of_fmap.
  intros ([pid r] & -> & Hin). exists (pid, r). split; [done|].
  apply list_elem_of_bind in Hin as ([pid' reviews] & Hin & Hsel).
  apply list_elem_of_bind. exists (pid', reviews). split; [|done].
  apply list_elem_of_fmap in Hin as (r' & [= -> ->] & Hin).
  apply list_elem_of_fmap. exists r'. split; [done|].
  apply list_elem_of_filter in Hin as [Hun Hin].
  apply list_elem_of_filter. split; [|done].
  intros Hh. apply Hun. by eapply analyzed_hashes_mono.
Qed.

Lemma save_ai_analysis_grows db a run_id model t1 t2 db' :
  save_ai_analysis db a run_id model t1 t2 = Ok db' → grows_analyses db db'.
Proof.
  unfold save_ai_analysis. case_decide; [|intros [= <-]; apply grows_analyses_refl].
  destruct (ai_analyses db !! _) as [old|] eqn:Hold; [done|].
  intros [= <-]. split; [done|]. simpl. intros id row Hrow.
  rewrite lookup_insert_ne; [done|]. intros <-. congruence.
Qed.

Lemma analyze_and_save_grows env run_id req s :
  grows_analyses (rs_db s) (rs_db (analyze_and_save env run_id req s).2).
Proof.
  unfold analyze_and_save, bind, ask. simpl.
  destruct (analyze_single_review env (rs_tick s) req) as [a|]; simpl;
    [|apply grows_analyses_refl].
  unfold save_analysis_of_run, bind, ask. simpl.
  destruct (save_ai_analysis _ _ _ _ _ _) as [db'|e] eqn:H; simpl;
    [by eapply save_ai_analysis_grows|apply grows_analyses_refl].
Qed.

Lemma run_tail_grows env run_id s :
  grows_analyses (rs_db s)
    (rs_db ((_generate_leaderboard_snapshot env run_id ;;ᵣ
             complete_run env run_id None ;;ᵣ ret run_id) s).2).
Proof.
  unfold bind, _generate_leaderboard_snapshot.
  destruct (insert_snapshots _ _ _ _ _) as [[m|e] n]; simpl;
    [|apply grows_analyses_refl].
  unfold complete_monitoring_run.
  by destruct (monitoring_runs _ !! run_id).
Qed.

(** The loop over the backlog returns only when every entry was
    convertible. *)
Lemma backlog_loop_returns env run_id db0 items :
  hoare (fun s => grows_analyses db0 (rs_db s))
    (for_each items (fun d =>
       req ←ᵣ _db_extraction_to_dict d; analyze_and_save env run_id req))
    (fun _ s => grows_analyses db0 (rs_db s) ∧ ∀ d, d ∈ items → convertible d)
    (fun _ _ => True).
Proof.
  induction items as [|d items IH]; simpl.
  - apply hoare_ret. intros s Hs. split; [done|]. by intros d ?%elem_of_nil.
  - destruct (ed_matched_text_segments d) as [|x xs] eqn:H1;
      [destruct (ed_confidence_scores d) as [|y ys] eqn:H2|].
    + eapply hoare_bind with (Q := fun _ s => grows_analyses db0 (rs_db s)).
      * intros s Hs. unfold bind, _db_extraction_to_dict.
        rewrite H1, H2. simpl.
        pose proof (analyze_and_save_grows env run_id (FromBacklog d) s) as Hg.
        destruct (analyze_and_save env run_id (FromBacklog d) s)
          as [[[]|e] s1]; [|done].
        by eapply grows_analyses_trans.
      * intros ?. eapply hoare_conseq; [apply IH|done| |done].
        intros r s [Hg Hall]. split; [done|].
        intros d' [->|Hin]%elem_of_cons; [done|auto].
    + intros s Hs. unfold bind, _db_extraction_to_dict.
      by rewrite H1, H2.
    + intros s Hs. unfold bind, _db_extraction_to_dict.
      by rewrite H1.
Qed.

(** X9.  [run_incremental_update] does not complete over a backlog: when it
    returns, every entry that [get_unanalyzed_extractions(limit=50)] still
    reports has no matched segments and no confidence scores.  An entry that
    has some makes [_db_extraction_to_dict] raise ([json.loads] is applied to
    a list), and the run ends in its handler. *)
Theorem incremental_update_returns_without_backlog env keywords s last run_id s' :
  get_last_successful_run (rs_db s) None = Some last →
  run_incremental_update env keywords s = (Ok run_id, s') →
  ∀ d, d ∈ get_unanalyzed_extractions (rs_db s') (Some 50) → convertible d.
Proof.
  intros Hlast. unfold run_incremental_update, bind at 1, get.
  rewrite Hlast. unfold bind at 1, ask. unfold bind at 1.
  rewrite start_run_eq. simpl.
  destruct (start_monitoring_run _ _ _ _ _) as [[rid db1]|e]; [|done].
  unfold bind at 1, modify. unfold try_except.
  set (s1 := reset_locals _).
  assert (hoare (fun _ => True) (incremental_body env rid keywords)
            (fun _ s2 => ∀ d, d ∈ get_unanalyzed_extractions (rs_db s2) (Some 50)
                              → convertible d)
            (fun _ _ => True)) as Hbody.
  { unfold incremental_body.
    eapply hoare_bind with (Q := fun _ _ => True).
    { intros s0 _. by destruct (for_each keywords _ s0) as [[]]. }
    intros ?. eapply hoare_bind with (Q := fun _ _ => True).
    { by apply hoare_get. }
    intros es. eapply hoare_bind with (Q := fun _ _ => True).
    { intros s0 _. by destruct (for_each es _ s0) as [[]]. }
    intros ?. eapply hoare_bind with
      (Q := fun items s0 =>
              items = get_unanalyzed_extractions (rs_db s0) (Some 50)).
    { by apply hoare_get. }
    intros items. intros s0 ->.
    pose proof (backlog_loop_returns env rid (rs_db s0)
                  (get_unanalyzed_extractions (rs_db s0) (Some 50)) s0
                  (grows_analyses_refl _)) as Hloop.
    unfold bind at 1.
    destruct (for_each _ _ s0) as [[[]|e] s2]; [|done].
    destruct Hloop as [Hg Hall].
    pose proof (run_tail_grows env rid s2) as Ht.
    destruct ((_generate_leaderboard_snapshot env rid ;;ᵣ
               complete_run env rid None ;;ᵣ ret rid) s2) as [[a'|e] s3];
      [|done].
    intros d Hd. apply Hall. eapply backlog_mono; [|exact Hd].
    by eapply grows_analyses_trans. }
  specialize (Hbody s1 I).
  destruct (incremental_body env rid keywords s1) as [[a'|e] s2].
  - by intros [= <- <-].
  - intros H. unfold fail_run, bind, complete_run, bind, ask, modify, raise in H.
    simpl in H. discriminate.
Qed.

Lemma incremental_update_returns_without_backlog_witness :
  let r := run_incremental_update Quiet.env ["Stouffville"]
             Quiet.after_full_run in
  r = (Ok "incremental_1007", r.2) ∧
  (∀ d, d ∈ get_unanalyzed_extractions (rs_db r.2) (Some 50) → convertible d) ∧
  (run_incremental_update Scenario.env ["Stouffville"] Scenario.full_run.2).1
  = Raise "the JSON object must be str, bytes or bytearray, not list".
Proof.
  intros r.
  assert (H : r = (Ok "incremental_1007", r.2)) by (vm_compute; reflexivity).
  split; [exact H|]. split; [|vm_compute; reflexivity].
  eapply (incremental_update_returns_without_backlog Quiet.env ["Stouffville"]
            Quiet.after_full_run _ "incremental_1007" r.2);
    [vm_compute; reflexivity|exact H].
Defined.

(** ** The analysis-only run *)

Lemma filter_none {A} (p : A → bool) (l : list A) :
  (∀ x, x ∈ l → p x = false) → List.filter p l = [].
Proof.
  induction l as [|x l IH]; intros H; simpl; [done|].
  rewrite (H x) by apply list_elem_of_here.
  apply IH. intros y Hy. apply H. by apply list_elem_of_further.
Qed.

Lemma filter_bind_length {A B} (p : B → bool) (G : A → list B) (l : list A) x :
  NoDup l → x ∈ l →
  (∀ y, y ∈ l → y ≠ x → List.filter p (G y) = []) →
  length (List.filter p (l ≫= G)) = length (List.filter p (G x)).
Proof.
  induction l as [|y l IH]; intros Hnd Hin Hother.
  - by apply elem_of_nil in Hin.
  - apply NoDup_cons in Hnd as [Hy Hnd]. cbn [mbind list_bind].
    rewrite List.filter_app, length_app.
    apply elem_of_cons in Hin as [<-|Hin].
    + rewrite (filter_none p (l ≫= G)); [simpl; lia|].
      intros b (z & Hb & Hz)%list_elem_of_bind.
      assert (List.filter p (G z) = []) as Hnil.
      { apply Hother; [by apply list_elem_of_further|]. by intros ->. }
      destruct (p b) eqn:Hp; [|done].
      assert (b ∈ List.filter p (G z)) as Hbz.
      { apply list_elem_of_In, List.filter_In. split; [|done].
        by apply list_elem_of_In. }
      rewrite Hnil in Hbz. by apply elem_of_nil in Hbz.
    + rewrite Hother; [|apply list_elem_of_here|by intros ->]. simpl.
      apply IH; [done..|]. intros z Hz. apply Hother.
      by apply list_elem_of_further.
Qed.

Lemma filter_replicate_bind_length {A B} (p : B → bool) (G : A → list B) k x :
  length (List.filter p (replicate k x ≫= G))
  = (k * length (List.filter p (G x)))%nat.
Proof.
  induction k as [|k IH]; [done|]. cbn [replicate mbind list_bind].
  rewrite List.filter_app, length_app, IH, Nat.mul_succ_l. apply Nat.add_comm.
Qed.

Lemma count_hash_one (l : list StoredReview) r :
  NoDup (review_hash <$> l) → r ∈ l →
  length (List.filter (fun r' => bool_decide (review_hash r' = review_hash r)) l)
  = 1%nat.
Proof.
  induction l as [|a l IH]; intros Hnd Hin; [by apply elem_of_nil in Hin|].
  rewrite fmap_cons in Hnd. apply NoDup_cons in Hnd as [Ha Hnd]. simpl.
  case_bool_decide as Heq.
  - simpl. f_equal. rewrite filter_none; [done|].
    intros r' Hr'. apply bool_decide_eq_false. intros Hr'h. apply Ha.
    rewrite Heq, <-Hr'h. apply list_elem_of_fmap. by exists r'.
  - apply elem_of_cons in Hin as [->|Hin]; [done|]. by apply IH.
Qed.

Lemma filter_fmap_length {A B} (p : B → bool) (f : A → B) (l : list A) :
  length (List.filter p (f <$> l)) = length (List.filter (fun x => p (f x)) l).
Proof.
  induction l as [|x l IH]; [done|]. rewrite fmap_cons. cbn [List.filter].
  destruct (p (f x)); cbn [length]; by rewrite IH.
Qed.

Lemma list_bind_bind {A B C} (f : A → list B) (g : B → list C) (l : list A) :
  (l ≫= f) ≫= g = l ≫= (fun x => f x ≫= g).
Proof.
  induction l as [|x l IH]; [done|]. cbn [mbind list_bind].
  by rewrite bind_app, IH.
Qed.

(** X10.  The [LEFT JOIN] of [get_unanalyzed_reviews] repeats a profile once
    for each of its analysis rows: a stored review that has no analysis row
    with its hash is returned as many times as its profile has analysis
    rows (once when it has none), so a profile with two analyses of other
    hashes has each remaining review queued twice. *)
Theorem join_repeats_requests db pid row reviews r :
  rmt_profiles db !! pid = Some row →
  reviews_data row = Some reviews → r ∈ reviews →
  NoDup (review_hash <$> reviews) →
  review_hash r ∉ analyzed_hashes db pid →
  length (List.filter (is_request_of pid (review_hash r))
            (get_unanalyzed_reviews db None))
  = Nat.max 1 (length (analyses_of db pid)).
Proof.
  intros Hrow Hrd Hr Hnd Hun. unfold get_unanalyzed_reviews, sql_limit.
  unfold joined_profiles. rewrite list_bind_bind.
  set (G := fun x : string * ProfileRow => _ ≫= _).
  rewrite (filter_bind_length _ G _ (pid, row));
    [|apply NoDup_map_to_list|by apply elem_of_map_to_list|].
  - unfold G. rewrite Hrd. destruct reviews as [|r0 rs];
      [by apply elem_of_nil in Hr|].
    rewrite filter_replicate_bind_length.
    rewrite filter_fmap_length. simpl is_request_of.
    rewrite bool_decide_true by done. simpl andb.
    rewrite (count_hash_one _ r); [lia| |by apply list_elem_of_filter].
    eapply sublist_NoDup; [exact Hnd|]. apply fmap_sublist, sublist_filter.
  - intros [pid' row'] Hin Hne. apply elem_of_map_to_list in Hin.
    assert (pid' ≠ pid) as Hpid by (intros ->; congruence).
    apply filter_none. intros req (c & Hreq & Hc)%list_elem_of_bind.
    destruct (reviews_data row') as [[|r1 rs1]|];
      [by apply elem_of_nil in Hc| |by apply elem_of_nil in Hc].
    apply elem_of_replicate in Hc as [-> _].
    apply list_elem_of_fmap in Hreq as (r' & -> & _). simpl.
    by rewrite bool_decide_false.
Qed.

Lemma join_repeats_requests_witness :
  length (analyses_of Twice.db "p1") = 2%nat ∧
  length (List.filter
            (is_request_of "p1" (review_hash_of (review_data Sample.extraction)))
            (get_unanalyzed_reviews Twice.db None))
  = Nat.max 1 (length (analyses_of Twice.db "p1")).
Proof.
  split; [vm_compute; reflexivity|].
  assert (∃ row, rmt_profiles Twice.db !! "p1" = Some row
                 ∧ reviews_data row
                   = Some [new_review Sample.extraction "full_100" 101])
    as (row & Hrow & Hrd).
  { eexists. split; vm_compute; reflexivity. }
  apply (join_repeats_requests Twice.db "p1" row
           [new_review Sample.extraction "full_100" 101]
           (new_review Sample.extraction "full_100" 101) Hrow Hrd).
  - apply list_elem_of_here.
  - apply NoDup_singleton.
  - vm_compute. intros H.
    repeat (apply elem_of_cons in H as [H|H]; [discriminate|]).
    by apply elem_of_nil in H.
Defined.

(** X11.  [save_analysis] names the row [analysis_{profile_id}_{seconds}]:
    after an analysis was saved, an analysis of the same profile that arrives
    within the same second of the clock is rejected by the primary key, and
    the database stays as it was. *)
Theorem save_analysis_same_second db id1 id2 a1 a2 run_id run_id' t t2 t3 db1 :
  save_analysis db (PyStr id1) a1 run_id t t2 = ([], Ok db1) →
  bad_extraction_id (PyStr id2) = false →
  head (split_on "_" id2) = head (split_on "_" id1) →
  save_analysis db1 (PyStr id2) a2 run_id' t t3
  = ([], Raise "UNIQUE constraint failed: ai_analyses.analysis_id").
Proof.
  unfold save_analysis. intros Hfirst Hgood Hhead. rewrite Hgood, Hhead.
  destruct (bad_extraction_id (PyStr id1)); [done|].
  destruct (ai_analyses db !! _) as [old|]; [done|].
  injection Hfirst as <-. simpl. by rewrite lookup_insert_eq.
Qed.

Lemma save_analysis_same_second_witness :
  ∃ db1,
    save_analysis Sample.db_extraction (PyStr "p1_ChIJ_aaaa") Sample.analysis
      "analysis_only_5" 7 8 = ([], Ok db1) ∧
    save_analysis db1 (PyStr "p1_ChIJ_bbbb") Sample.analysis
      "analysis_only_5" 7 9
    = ([], Raise "UNIQUE constraint failed: ai_analyses.analysis_id").
Proof.
  eexists. split; [reflexivity|].
  apply (save_analysis_same_second Sample.db_extraction "p1_ChIJ_aaaa"
           "p1_ChIJ_bbbb" Sample.analysis Sample.analysis "analysis_only_5"
           "analysis_only_5" 7 8 9); reflexivity.
Defined.






Lemma get_unanalyzed_reviews_nil db limit :
  (∀ pid r, r ∈ stored_reviews db pid →
     ∃ id row, ai_analyses db !! id = Some row ∧ ar_profile_id row = pid
               ∧ ar_review_hash row = review_hash r) →
  get_unanalyzed_reviews db limit = [].
Proof.
  intros Hall. unfold get_unanalyzed_reviews.
  assert (∀ l : list (string * ProfileRow * list StoredReview),
            (∀ c, c ∈ l → c ∈ joined_profiles db) →
            l ≫= (fun '(pid, row, reviews) =>
                    (fun r => FromStore pid row (repaired_extraction_id pid r) r)
                      <$> filter (fun r => review_hash r ∉ analyzed_hashes db pid)
                                 reviews) = []) as Hnil.
  { induction l as [|[[pid row] reviews] l IH]; intros Hl; [done|].
    cbn [mbind list_bind]. rewrite IH;
      [|intros c Hc; apply Hl; by apply list_elem_of_further].
    rewrite app_nil_r.
    assert ((pid, row, reviews) ∈ joined_profiles db) as Hin
      by apply Hl, list_elem_of_here.
    unfold joined_profiles in Hin.
    apply list_elem_of_bind in Hin as ([pid' row'] & Hin & Hsel).
    apply elem_of_map_to_list in Hsel.
    destruct (reviews_data row') as [[|r0 rs]|] eqn:Hrd;
      [by apply elem_of_nil in Hin| |by apply elem_of_nil in Hin].
    apply elem_of_replicate in Hin as [[= -> -> ->] _].
    destruct (filter _ _) as [|r rs'] eqn:Hf; [done|].
    assert (r ∈ filter (fun r => review_hash r ∉ analyzed_hashes db pid')
                  (r0 :: rs)) as Hr by (rewrite Hf; apply list_elem_of_here).
    apply list_elem_of_filter in Hr as [Hun Hr]. destruct Hun.
    apply elem_of_analyzed_hashes, Hall. unfold stored_reviews.
    by rewrite Hsel, Hrd. }
  apply Hnil. intros c Hc. unfold sql_limit in Hc.
  destruct limit as [n|]; [|done]. case_decide; [|done].
  apply elem_of_take in Hc as (i & Hi & _). by eapply list_elem_of_lookup_2.
Qed.

(** X13.  When every stored review has an analysis row with its profile id
    and its hash, [run_analysis] has nothing to do, whatever the limit and
    the delay: it returns [None] and leaves the database as it is, without a
    row in [monitoring_runs]. *)
Theorem run_analysis_nothing_to_do env limit delay s :
  (∀ pid r, r ∈ stored_reviews (rs_db s) pid →
     ∃ id row, ai_analyses (rs_db s) !! id = Some row ∧ ar_profile_id row = pid
               ∧ ar_review_hash row = review_hash r) →
  run_analysis env limit delay s = (Ok None, s).
Proof.
  intros Hall. unfold run_analysis, bind, get.
  by rewrite (get_unanalyzed_reviews_nil _ limit Hall).
Qed.

(** ** The match engine: what every result satisfies *)

Lemma term_matches_threshold fz text threshold t (m : MatchResult) :
  threshold ≤ 90 → m ∈ term_matches fz text threshold t → threshold ≤ m.1.2.
Proof.
  intros Hle. unfold term_matches. repeat case_match;
    try (by intros ?%elem_of_nil);
    try (intros ->%list_elem_of_singleton; simpl; lia).
  intros Hm. by eapply window_matches_term.
Qed.

Lemma insert_desc_sorted (x : MatchResult) l :
  StronglySorted (fun a b : MatchResult => b.1.2 ≤ a.1.2) l →
  StronglySorted (fun a b : MatchResult => b.1.2 ≤ a.1.2) (insert_desc x l).
Proof.
  induction l as [|y l IH]; intros Hs; simpl.
  - repeat constructor.
  - apply StronglySorted_inv in Hs as [Hs Hall].
    destruct (y.1.2 <? x.1.2) eqn:Hlt.
    + apply Z.ltb_lt in Hlt. constructor; [by constructor|].
      constructor; [lia|]. eapply Forall_impl; [exact Hall|].
      intros z Hz. simpl in *. lia.
    + apply Z.ltb_ge in Hlt. constructor; [by apply IH|].
      apply Forall_forall. intros z [->|Hz]%elem_of_insert_desc; [done|].
      by eapply Forall_forall in Hall.
Qed.

Lemma sort_desc_sorted l :
  StronglySorted (fun a b : MatchResult => b.1.2 ≤ a.1.2) (sort_desc l).
Proof.
  unfold sort_desc.
  assert (∀ acc, StronglySorted (fun a b : MatchResult => b.1.2 ≤ a.1.2) acc →
            StronglySorted (fun a b : MatchResult => b.1.2 ≤ a.1.2)
              (foldl (fun acc x => insert_desc x acc) acc l)) as H.
  { induction l as [|x l IH]; intros acc Hacc; simpl; [done|].
    by apply IH, insert_desc_sorted. }
  apply H. constructor.
Qed.

Lemma unique_matches_sorted seen l :
  StronglySorted (fun a b : MatchResult => b.1.2 ≤ a.1.2) l →
  StronglySorted (fun a b : MatchResult => b.1.2 ≤ a.1.2)
    (unique_matches seen l).
Proof.
  revert seen. induction l as [|y l IH]; intros seen Hs; simpl; [constructor|].
  apply StronglySorted_inv in Hs as [Hs Hall].
  case_decide; [by apply IH|]. constructor; [by apply IH|].
  apply Forall_forall. intros z [Hz _]%elem_of_unique_matches.
  by eapply Forall_forall in Hall.
Qed.

Lemma unique_matches_NoDup seen l :
  NoDup ((fun m : MatchResult => m.1.1) <$> unique_matches seen l).
Proof.
  revert seen. induction l as [|y l IH]; intros seen; simpl; [constructor|].
  case_decide; [apply IH|]. rewrite fmap_cons. constructor; [|apply IH].
  intros (z & Heq & [_ Hz]%elem_of_unique_matches)%list_elem_of_fmap.
  apply Hz. rewrite <-Heq. apply list_elem_of_here.
Qed.

(** The term and the confidence of a result. *)
Lemma find_text_matches_threshold fz text terms match_type (m : MatchResult) :
  m ∈ find_text_matches fz text terms match_type →
  m.1.1 ∈ terms ∧
  (if decide (match_type = "name") then name_confidence_threshold
   else location_confidence_threshold) ≤ m.1.2.
Proof.
  unfold find_text_matches.
  destruct (bool_decide (text = "") || bool_decide (terms = []));
    [by intros ?%elem_of_nil|].
  intros [Hin _]%elem_of_unique_matches.
  apply elem_of_sort_desc, list_elem_of_bind in Hin as (t & Hin & Ht).
  split; [by rewrite (term_matches_term _ _ _ _ _ Hin)|].
  eapply term_matches_threshold; [|exact Hin].
  unfold name_confidence_threshold, location_confidence_threshold.
  case_decide; lia.
Qed.

(** X16.  Whatever the scorers, the results of [find_text_matches] name
    search terms only, each term at most once; every confidence is at least
    the threshold of the match type (75 for names, 60 for locations); and the
    results are in the order of decreasing confidence. *)
Theorem find_text_matches_sound fz text terms match_type :
  let threshold :=
    if decide (match_type = "name") then name_confidence_threshold
    else location_confidence_threshold in
  let result := find_text_matches fz text terms match_type in
  (∀ m : MatchResult, m ∈ result → m.1.1 ∈ terms ∧ threshold ≤ m.1.2) ∧
  NoDup ((fun m : MatchResult => m.1.1) <$> result) ∧
  StronglySorted (fun a b : MatchResult => b.1.2 ≤ a.1.2) result.
Proof.
  intros threshold result. split; [|split].
  - intros m Hm.
    exact (find_text_matches_threshold fz text terms match_type m Hm).
  - unfold result, find_text_matches.
    destruct (bool_decide (text = "") || bool_decide (terms = []));
      [constructor|apply unique_matches_NoDup].
  - unfold result, find_text_matches.
    destruct (bool_decide (text = "") || bool_decide (terms = []));
      [constructor|apply unique_matches_sorted, sort_desc_sorted].
Qed.

(** ** The match engine: a term that occurs in the text *)

Lemma map_string_app f a b :
  map_string f (a +:+ b) = map_string f a +:+ map_string f b.
Proof. induction a as [|x a IH]; simpl; [done|by rewrite IH]. Qed.

Lemma map_string_app_inv f s x y :
  map_string f s = x +:+ y →
  ∃ a b, s = a +:+ b ∧ map_string f a = x ∧ map_string f b = y.
Proof.
  revert s. induction x as [|c x IH]; intros s; simpl.
  - intros H. by exists "", s.
  - destruct s as [|d s]; [done|]. simpl. intros [= Hd H].
    destruct (IH s H) as (a & b & -> & Ha & Hb).
    exists (String d a), b. simpl. by rewrite Hd, Ha.
Qed.

Lemma lower_char_word c : is_word (lower_char c) = is_word c.
Proof.
  destruct c as [b0 b1 b2 b3 b4 b5 b6 b7].
  destruct b0, b1, b2, b3, b4, b5, b6, b7; reflexivity.
Qed.

Lemma lower_char_blank c : lower_char c = " "%char → c = " "%char.
Proof.
  destruct c as [b0 b1 b2 b3 b4 b5 b6 b7].
  destruct b0, b1, b2, b3, b4, b5, b6, b7; (reflexivity || discriminate).
Qed.

Lemma clean_char_plain c :
  is_word c = true ∨ c = " "%char → clean_char (lower_char c) = lower_char c.
Proof.
  unfold clean_char. intros [Hw| ->]; [|done].
  by rewrite lower_char_word, Hw.
Qed.

Lemma clean_lower_plain t :
  (∀ c, c ∈ chars t → is_word c = true ∨ c = " "%char) →
  map_string clean_char (lower t) = lower t.
Proof.
  unfold lower. induction t as [|c t IH]; intros H; simpl; [done|].
  rewrite clean_char_plain by apply H, list_elem_of_here.
  rewrite IH; [done|]. intros c' Hc'. apply H. by apply list_elem_of_further.
Qed.

Lemma try_spaces_complete rest s k k' :
  (1 ≤ k' ≤ k)%nat → is_Some (rest (drop_string k' s)) →
  is_Some (try_spaces rest s k).
Proof.
  induction k as [|k IH]; intros Hk Hrest; [lia|]. cbn [try_spaces].
  destruct (rest (drop_string (S k) s)) as [m|] eqn:Hm; [done|].
  apply IH; [|done]. destruct (decide (k' = S k)) as [->|]; [|lia].
  rewrite Hm in Hrest. by destruct Hrest.
Qed.

(** The pattern of a term of word characters and blanks matches, under
    [re.IGNORECASE], every text that starts with the term in some letter
    case. *)
Lemma match_here_complete t b rest prev :
  (∀ c, c ∈ chars t → is_word c = true ∨ c = " "%char) →
  lower b = lower t →
  is_Some (match_here true false (pattern_of t) prev (b +:+ rest)).
Proof.
  revert b prev. induction t as [|c t IH]; intros b prev Hplain Hb.
  - destruct b; [done|discriminate].
  - destruct b as [|x b]; [discriminate|]. simpl in Hb.
    injection Hb as Hx Hb.
    assert (is_Some (match_here true false (pattern_of t) (is_word x)
                       (b +:+ rest))
            ∧ is_Some (match_here true false (pattern_of t) false
                         (b +:+ rest))) as [H1 H2].
    { split; apply IH; try done; intros c' Hc'; apply Hplain;
        by apply list_elem_of_further. }
    assert (pattern_of (String c t)
            = (if decide (c = " "%char) then Spaces else Lit c) :: pattern_of t)
      as -> by done.
    case_decide as Hc.
    + subst c. apply lower_char_blank in Hx as ->.
      change (is_Some (try_spaces (match_here true false (pattern_of t) false)
                         (String " " (b +:+ rest))
                         (S (space_run (b +:+ rest))))).
      apply (try_spaces_complete _ _ _ 1); [lia|exact H2].
    + change (is_Some (if char_eq true c x
                       then S <$> match_here true false (pattern_of t)
                                    (is_word x) (b +:+ rest)
                       else None)).
      unfold char_eq. rewrite bool_decide_eq_true_2 by done.
      destruct H1 as [n ->]. done.
Qed.

Lemma search_from_complete m a s prev pos :
  (∀ prev', is_Some (m prev' s)) →
  is_Some (search_from m prev (a +:+ s) pos).
Proof.
  intros Hm. revert prev pos. induction a as [|x a IH]; intros prev pos; simpl.
  - destruct (Hm prev) as [n Hn]. destruct s; simpl; by rewrite Hn.
  - destruct (m prev (String x (a +:+ s))); [done|]. apply IH.
Qed.

Lemma contains_clean_of_lower text t :
  (∀ c, c ∈ chars t → is_word c = true ∨ c = " "%char) →
  contains (lower text) (lower t) = true →
  contains (clean_text_of text) (lower t) = true.
Proof.
  intros Hplain (pre & post & Heq)%contains_spec. apply contains_spec.
  unfold clean_text_of. rewrite Heq, !map_string_app, clean_lower_plain by done.
  eauto.
Qed.

Lemma search_plain_complete text t :
  (∀ c, c ∈ chars t → is_word c = true ∨ c = " "%char) →
  contains (lower text) (lower t) = true →
  is_Some (search (plain_match true t) text).
Proof.
  intros Hplain (pre & post & Heq)%contains_spec.
  apply map_string_app_inv in Heq as (a & bc & -> & _ & Hbc).
  apply map_string_app_inv in Hbc as (b & c & -> & Hb & _).
  apply search_from_complete. intros prev'. by apply match_here_complete.
Qed.

(** X17.  A search term that is made of letters, digits, underscores and
    single blanks and occurs in the review text, in any letter case, is
    matched by the exact method: the engine returns one result for it, with
    confidence 95 and a segment cut from the review text. *)
Theorem literal_occurrence_is_exact fz text terms match_type t :
  t ∈ terms → t ≠ "" →
  (∀ c, c ∈ chars t → is_word c = true ∨ c = " "%char) →
  contains (lower text) (lower t) = true →
  ∃ pos len,
    (t, 95, String.substring pos len text)
      ∈ find_text_matches fz text terms match_type ∧
    ∀ m : MatchResult, m ∈ find_text_matches fz text terms match_type →
      m.1.1 = t → m = (t, 95, String.substring pos len text).
Proof.
  intros Ht Hne Hplain Hocc.
  assert (text ≠ "") as Htext.
  { intros ->. apply contains_spec in Hocc as (pre & post & Heq).
    destruct pre; [|done]. destruct t; [done|]. done. }
  destruct (find_text_matches_of_term fz text terms match_type t Htext)
    as [Hsub Hcov].
  set (threshold := if decide (match_type = "name")
                    then name_confidence_threshold
                    else location_confidence_threshold) in *.
  destruct (search_plain_complete text t Hplain Hocc) as [[pos len] Hs].
  assert (term_matches fz text threshold t
          = [(t, 95, String.substring pos len text)]) as Hterm.
  { unfold term_matches.
    by rewrite (contains_clean_of_lower text t Hplain Hocc), Hs. }
  exists pos, len.
  assert (∀ m : MatchResult, m ∈ find_text_matches fz text terms match_type →
            m.1.1 = t → m = (t, 95, String.substring pos len text)) as Hall.
  { intros m Hm Hmt. destruct (Hsub m Hm Hmt) as [_ Hin].
    rewrite Hterm in Hin. by apply list_elem_of_singleton in Hin. }
  split; [|done]. destruct (Hcov Ht) as (m & Hm & Hmt); [by rewrite Hterm|].
  by rewrite <-(Hall m Hm Hmt).
Qed.

Lemma literal_occurrence_is_exact_witness :
  contains (lower "I saw JANE DOE today") (lower "Jane Doe") = true ∧
  ∃ pos len,
    ("Jane Doe", 95, String.substring pos len "I saw JANE DOE today")
      ∈ find_text_matches fuzzywuzzy "I saw JANE DOE today" ["Jane Doe"] "name"
    ∧ ∀ m : MatchResult,
        m ∈ find_text_matches fuzzywuzzy "I saw JANE DOE today" ["Jane Doe"]
              "name" →
        m.1.1 = "Jane Doe" →
        m = ("Jane Doe", 95, String.substring pos len "I saw JANE DOE today").
Proof.
  split; [vm_compute; reflexivity|].
  apply (literal_occurrence_is_exact fuzzywuzzy "I saw JANE DOE today"
           ["Jane Doe"] "name" "Jane Doe").
  - apply list_elem_of_here.
  - discriminate.
  - intros c Hc. vm_compute in Hc.
    repeat (apply elem_of_cons in Hc as [->|Hc];
            [first [by left|by right]|]).
    by apply elem_of_nil in Hc.
  - vm_compute. reflexivity.
Defined.



(** ** The match engine: terms without a blank *)







(** ** Rounding *)

Lemma intr_cases q :
  (Difflib.intr q = Qfloor q ∧ (q - inject_Z (Qfloor q) <= 1 # 2)%Q)
  ∨ (Difflib.intr q = Qfloor q + 1 ∧ (1 # 2 <= q - inject_Z (Qfloor q))%Q).
Proof.
  unfold Difflib.intr.
  destruct (Qcompare_spec (q - inject_Z (Qfloor q)) (1 # 2)) as [He|Hl|Hg].
  - destruct (Z.even (Qfloor q)); [left|right]; (split; [done|]);
      rewrite He; apply Qle_refl.
  - left. split; [done|]. by apply Qlt_le_weak.
  - right. split; [done|]. by apply Qlt_le_weak.
Qed.

Lemma intr_strict q :
  (q - inject_Z (Qfloor q) < 1 # 2)%Q → Difflib.intr q = Qfloor q.
Proof.
  intros H. unfold Difflib.intr.
  destruct (Qcompare_spec (q - inject_Z (Qfloor q)) (1 # 2)) as [He|Hl|Hg];
    [|done|].
  - rewrite He in H. by apply Qlt_irrefl in H.
  - exfalso. apply (Qlt_irrefl (1 # 2)). by eapply Qlt_trans.
Qed.

Lemma intr_mono x y : (x <= y)%Q → Difflib.intr x ≤ Difflib.intr y.
Proof.
  intros Hxy. pose proof (Qfloor_resp_le x y Hxy) as Hf.
  destruct (Z.eq_dec (Qfloor x) (Qfloor y)) as [Heq|Hne].
  - unfold Difflib.intr. rewrite <-Heq.
    destruct (Qcompare_spec (x - inject_Z (Qfloor x)) (1 # 2)) as [He|Hl|Hg];
      destruct (Qcompare_spec (y - inject_Z (Qfloor x)) (1 # 2))
        as [He'|Hl'|Hg'];
      try (destruct (Z.even (Qfloor x))); try lia; exfalso; lra.
  - destruct (intr_cases x) as [[-> _]|[-> _]],
             (intr_cases y) as [[-> _]|[-> _]]; lia.
Qed.

Lemma intr_integer z : Difflib.intr (inject_Z z) = z.
Proof.
  rewrite intr_strict; rewrite Qfloor_Z; [done|]. lra.
Qed.

Lemma pow10_pos n : (0 < inject_Z (10 ^ Z.of_nat n))%Q.
Proof.
  change 0%Q with (inject_Z 0). rewrite <-Zlt_Qlt.
  apply Z.pow_pos_nonneg; lia.
Qed.

Lemma py_round_mono n x y : (x <= y)%Q → (py_round x n <= py_round y n)%Q.
Proof.
  intros Hxy. unfold py_round. pose proof (pow10_pos n) as Hp.
  apply Qmult_le_compat_r; [|by apply Qlt_le_weak, Qinv_lt_0_compat].
  rewrite <-Zle_Qle. apply intr_mono.
  apply Qmult_le_compat_r; [done|by apply Qlt_le_weak].
Qed.

Lemma py_round_integer n z : (py_round (inject_Z z) n == inject_Z z)%Q.
Proof.
  unfold py_round. pose proof (pow10_pos n) as Hp.
  assert (inject_Z z * inject_Z (10 ^ Z.of_nat n)
          = inject_Z (z * 10 ^ Z.of_nat n))%Q as -> by done.
  rewrite intr_integer, inject_Z_mult. field. lra.
Qed.

(** ** The groups of the leaderboard *)

Lemma add_to_group_keys pid a groups :
  (add_to_group pid a groups).*1
  = if decide (pid ∈ groups.*1) then groups.*1 else (groups.*1 ++ [pid])%list.
Proof.
  induction groups as [|[p g] groups IH].
  - rewrite decide_False; [done|]. by intros ?%elem_of_nil.
  - cbn [add_to_group]. rewrite fmap_cons. cbn [fst].
    destruct (decide (p = pid)) as [->|Hp]; rewrite fmap_cons; cbn [fst].
    + rewrite decide_True; [done|]. apply list_elem_of_here.
    + rewrite IH. destruct (decide (pid ∈ groups.*1)) as [Hin|Hin].
      * rewrite decide_True; [done|]. by apply list_elem_of_further.
      * rewrite decide_False; [done|].
        intros [?|?]%elem_of_cons; [congruence|done].
Qed.

Lemma elem_of_add_to_group pid a groups q h :
  NoDup groups.*1 →
  (q, h) ∈ add_to_group pid a groups ↔
  (q ≠ pid ∧ (q, h) ∈ groups) ∨
  (q = pid ∧ ((∃ g, (pid, g) ∈ groups ∧ h = (g ++ [a])%list)
              ∨ ((pid ∉ groups.*1) ∧ h = [a]))).
Proof.
  induction groups as [|[p g] groups IH]; intros Hnd.
  - cbn [add_to_group]. rewrite list_elem_of_singleton.
    assert (pid ∉ ([] : list (string * list ComprehensiveRMTAnalysis)).*1)
      by (by intros ?%elem_of_nil).
    split; [intros [= -> ->]; auto|].
    intros [[_ ?%elem_of_nil]|[-> [(g & ?%elem_of_nil & _)|[_ ->]]]]; done.
  - rewrite fmap_cons in Hnd. cbn [fst] in Hnd.
    apply NoDup_cons in Hnd as [Hp Hnd]. specialize (IH Hnd).
    assert (Hkey : ∀ g', (p, g') ∈ groups → False).
    { intros g' Hg'. apply Hp. apply list_elem_of_fmap. by exists (p, g'). }
    cbn [add_to_group]. rewrite fmap_cons. cbn [fst].
    destruct (decide (p = pid)) as [->|Hne].
    + split.
      * intros [[= -> ->]|Hin]%elem_of_cons.
        -- right. split; [done|]. left. exists g.
           split; [apply list_elem_of_here|done].
        -- left. split; [|by apply list_elem_of_further].
           intros ->. by eapply Hkey.
      * intros [[Hq Hin]|[-> [(g' & Hg' & ->)|[Hnin _]]]].
        -- apply elem_of_cons in Hin as [[= ? ?]|Hin]; [done|].
           by apply list_elem_of_further.
        -- apply elem_of_cons in Hg' as [[= ->]|Hg'];
             [apply list_elem_of_here|by destruct (Hkey g')].
        -- destruct Hnin. apply list_elem_of_here.
    + split.
      * intros [[= -> ->]|Hin]%elem_of_cons.
        -- left. split; [done|apply list_elem_of_here].
        -- apply IH in Hin as [[Hq Hin]|[-> [(g' & Hg' & ->)|[Hnin ->]]]].
           ++ left. split; [done|by apply list_elem_of_further].
           ++ right. split; [done|]. left. exists g'.
              split; [by apply list_elem_of_further|done].
           ++ right. split; [done|]. right. split; [|done].
              intros [?|?]%elem_of_cons; [congruence|done].
      * intros [[Hq Hin]|[-> [(g' & Hg' & ->)|[Hnin ->]]]].
        -- apply elem_of_cons in Hin as [[= -> ->]|Hin];
             [apply list_elem_of_here|].
           apply list_elem_of_further, IH. by left.
        -- apply elem_of_cons in Hg' as [[= ? ?]|Hg']; [congruence|].
           apply list_elem_of_further, IH. right. split; [done|].
           left. by exists g'.
        -- apply list_elem_of_further, IH. right. split; [done|]. right.
           split; [|done]. intros Hin. apply Hnin.
           by apply list_elem_of_further.
Qed.

(** The groups after the analyses [seen]: one group for each profile id that
    occurs, holding the analyses of the profile in their order. *)
Lemma rmt_groups_spec analyses :
  NoDup (rmt_groups analyses).*1 ∧
  (∀ p g, (p, g) ∈ rmt_groups analyses ↔
          g ≠ [] ∧ g = filter (fun a => analysis_profile a = p) analyses).
Proof.
  unfold rmt_groups.
  assert (∀ seen groups,
            (NoDup groups.*1 ∧
             ∀ p g, (p, g) ∈ groups ↔
                    g ≠ [] ∧ g = filter (fun a => analysis_profile a = p) seen) →
            NoDup (foldl (fun groups a =>
                            add_to_group (analysis_profile a) a groups)
                         groups analyses).*1 ∧
            ∀ p g, (p, g) ∈ foldl (fun groups a =>
                                     add_to_group (analysis_profile a) a groups)
                                  groups analyses ↔
                   g ≠ [] ∧ g = filter (fun a => analysis_profile a = p)
                                       (seen ++ analyses)%list) as H.
  { induction analyses as [|a analyses IH]; intros seen groups [Hnd Hg]; simpl.
    - by rewrite app_nil_r.
    - replace (seen ++ a :: analyses)%list with ((seen ++ [a]) ++ analyses)%list
        by (by rewrite <-app_assoc).
      apply IH. split.
      + rewrite add_to_group_keys. case_decide as Hin; [done|].
        apply NoDup_app. split; [done|]. split; [|apply NoDup_singleton].
        intros x Hx ->%list_elem_of_singleton. done.
      + intros p g. rewrite elem_of_add_to_group by done.
        rewrite filter_app, filter_cons, filter_nil. split.
        * intros [[Hne Hin]|[-> [(g' & Hg' & ->)|[Hnin ->]]]].
          -- apply Hg in Hin as [Hg1 Hg2]. rewrite decide_False by congruence.
             by rewrite app_nil_r.
          -- apply Hg in Hg' as [Hg1 Hg2]. rewrite decide_True by done.
             split; [by destruct g'|by rewrite <-Hg2].
          -- rewrite decide_True by done. split; [done|].
             destruct (filter _ seen) as [|x xs] eqn:Hf; [done|].
             destruct Hnin. apply list_elem_of_fmap.
             exists (analysis_profile a, x :: xs). split; [done|].
             apply Hg. by rewrite Hf.
        * intros [Hne ->]. case_decide as Hp.
          -- right. split; [done|].
             destruct (filter (fun a0 => analysis_profile a0 = p) seen)
               as [|x xs] eqn:Hf.
             ++ right. split; [|done].
                intros ((q & g') & Hq & Hin)%list_elem_of_fmap. simpl in Hq.
                subst q. apply Hg in Hin as [Hg1 Hg2]. subst p. congruence.
             ++ left. exists (x :: xs). split; [|done]. subst p. apply Hg.
                by rewrite Hf.
          -- left. split; [done|]. apply Hg. rewrite app_nil_r in Hne |- *.
             done. }
  apply (H [] []). split; [constructor|].
  intros p g. rewrite filter_nil. split; [by intros ?%elem_of_nil|].
  by intros [? ->].
Qed.

(** ** The metrics of a group *)

Lemma Qsum_bounds lo hi (l : list Q) :
  (∀ x, x ∈ l → (lo <= x <= hi)%Q) →
  (lo * inject_Z (Z.of_nat (length l)) <= Qsum l
   <= hi * inject_Z (Z.of_nat (length l)))%Q.
Proof.
  induction l as [|x l IH]; intros H.
  - change (inject_Z (Z.of_nat (length (@nil Q)))) with 0%Q.
    change (Qsum []) with 0%Q. split; lra.
  - destruct (H x) as [H1 H2]; [apply list_elem_of_here|].
    destruct IH as [I1 I2].
    { intros y Hy. apply H. by apply list_elem_of_further. }
    cbn [length Qsum foldr]. fold (Qsum l).
    rewrite Nat2Z.inj_succ, <-Z.add_1_r, inject_Z_plus.
    change (inject_Z 1) with 1%Q. split; nra.
Qed.

Lemma Qmean_bounds lo hi (l : list Q) :
  l ≠ [] → (∀ x, x ∈ l → (lo <= x <= hi)%Q) → (lo <= Qmean l <= hi)%Q.
Proof.
  intros Hne H. destruct (Qsum_bounds lo hi l H) as [H1 H2]. unfold Qmean.
  assert (0 < inject_Z (Z.of_nat (length l)))%Q as Hpos.
  { change 0%Q with (inject_Z 0). rewrite <-Zlt_Qlt. destruct l; [done|].
    simpl. lia. }
  split.
  - apply Qle_shift_div_l; [done|lra].
  - apply Qle_shift_div_r; [done|lra].
Qed.

Lemma sentiment_value_bounds s : (-1 <= sentiment_value s <= 1)%Q.
Proof. unfold sentiment_value. repeat case_decide; split; lra. Qed.

Lemma within_true lo hi x : (lo <= x <= hi)%Q → within lo hi x = true.
Proof.
  intros [H1 H2]. unfold within. apply andb_true_iff.
  split; by apply Qle_bool_iff.
Qed.

Lemma rate_bounds c t : 0 ≤ c ≤ t → 0 < t → (0 <= inject_Z c / inject_Z t <= 1)%Q.
Proof.
  intros Hc Ht.
  assert (0 < inject_Z t)%Q by (change 0%Q with (inject_Z 0); by rewrite <-Zlt_Qlt).
  assert (0 <= inject_Z c)%Q by (change 0%Q with (inject_Z 0); rewrite <-Zle_Qle; lia).
  assert (inject_Z c <= inject_Z t)%Q by (rewrite <-Zle_Qle; lia).
  split.
  - apply Qle_shift_div_l; [done|lra].
  - apply Qle_shift_div_r; [done|lra].
Qed.

Lemma composite_score_range n h a p ng avg t c pr r rp fp :
  (0 <= _calculate_composite_score n h a p ng avg t c pr r rp fp <= 100)%Q.
Proof.
  unfold _calculate_composite_score. case_decide; [split; lra|].
  split; [apply Q.le_max_l|]. apply Q.max_lub; [lra|apply Q.le_min_l].
Qed.

Section Rounding.

Variable rnd : Q → nat → Q.
Hypothesis rnd_mono : ∀ n x y, (x <= y)%Q → (rnd x n <= rnd y n)%Q.
Hypothesis rnd_integer : ∀ n z, (rnd (inject_Z z) n == inject_Z z)%Q.

Lemma rnd_within (lo hi : Z) x n :
  (inject_Z lo <= x <= inject_Z hi)%Q →
  within (inject_Z lo) (inject_Z hi) (rnd x n) = true.
Proof.
  intros [H1 H2]. apply within_true. split.
  - rewrite <-(rnd_integer n lo). by apply rnd_mono.
  - rewrite <-(rnd_integer n hi). by apply rnd_mono.
Qed.

Lemma average_rating_within (ratings : list (option Z))  :
  (∀ r, r ∈ ratings → rating_ok r) →
  within_opt 1 5 (average_rating rnd (omap id ratings)) = true.
Proof.
  intros Hok. unfold average_rating.
  destruct (omap id ratings) as [|z zs] eqn:Hz; [done|]. cbn [within_opt].
  apply (rnd_within 1 5). apply Qmean_bounds; [by rewrite fmap_cons|].
  intros x (z' & -> & Hz')%list_elem_of_fmap.
  rewrite <-Hz in Hz'. apply list_elem_of_omap in Hz' as (r & Hr & Hrz).
  destruct r as [r|]; [|done]. simpl in Hrz. injection Hrz as ->.
  specialize (Hok _ Hr). simpl in Hok.
  change 1%Q with (inject_Z 1). change 5%Q with (inject_Z 5).
  rewrite <-!Zle_Qle. lia.
Qed.

Lemma omap_fmap_id {A B} (f : A → option B) (l : list A) :
  omap f l = omap id (f <$> l).
Proof.
  induction l as [|x l IH]; [done|]. rewrite fmap_cons. cbn [omap list_omap].
  unfold id at 1. destruct (f x); by rewrite <-IH.
Qed.

Lemma group_metrics_valid pid group :
  (∀ a, a ∈ group → analysis_ok a) →
  valid_metrics (group_metrics rnd pid group) = true.
Proof.
  intros Hok. unfold valid_metrics, group_metrics.
  cbn [lm_average_sentiment_score average_technical_skill
       average_communication average_professionalism lm_recommendation_rate
       lm_repeat_client_rate lm_composite_reputation_score].
  rewrite !andb_true_iff. repeat apply conj.
  - apply (rnd_within (-1) 1).
    assert (∀ x, x ∈ (fun a => sentiment_value (overall_sentiment a)) <$> group
                 → (inject_Z (-1) <= x <= inject_Z 1)%Q) as Hall.
    { intros x (a' & -> & _)%list_elem_of_fmap. apply sentiment_value_bounds. }
    destruct ((fun a => sentiment_value (overall_sentiment a)) <$> group)
      as [|x xs]; [split; apply Qle_bool_iff; reflexivity|].
    by apply Qmean_bounds.
  - rewrite omap_fmap_id. apply average_rating_within.
    intros r (a & -> & Ha)%list_elem_of_fmap. apply (Hok a Ha).
  - rewrite omap_fmap_id. apply average_rating_within.
    intros r (a & -> & Ha)%list_elem_of_fmap. apply (Hok a Ha).
  - rewrite omap_fmap_id. apply average_rating_within.
    intros r (a & -> & Ha)%list_elem_of_fmap. apply (Hok a Ha).
  - case_decide; [|reflexivity].
    apply (rnd_within 0 1), rate_bounds; [apply count_where_bounds|done].
  - case_decide; [|reflexivity].
    apply (rnd_within 0 1), rate_bounds; [apply count_where_bounds|done].
  - apply (rnd_within 0 100), composite_score_range.
Qed.

End Rounding.

(** ** The order of the leaderboard *)

Lemma insert_by_score_perm x l : insert_by_score x l ≡ₚ x :: l.
Proof.
  induction l as [|y l IH]; simpl; [done|].
  destruct (Qle_bool _ _); [|done]. rewrite IH. apply Permutation_swap.
Qed.

Lemma sort_by_score_perm l : sort_by_score l ≡ₚ l.
Proof.
  unfold sort_by_score.
  assert (∀ acc, foldl (fun acc x => insert_by_score x acc) acc l
                 ≡ₚ (acc ++ l)%list) as H.
  { induction l as [|x l IH]; intros acc; simpl; [by rewrite app_nil_r|].
    rewrite IH, insert_by_score_perm. simpl. apply Permutation_middle. }
  apply (H []).
Qed.

Lemma insert_by_score_sorted x l :
  StronglySorted (fun a b => (lm_composite_reputation_score b
                              <= lm_composite_reputation_score a)%Q) l →
  StronglySorted (fun a b => (lm_composite_reputation_score b
                              <= lm_composite_reputation_score a)%Q)
    (insert_by_score x l).
Proof.
  induction l as [|y l IH]; intros Hs; simpl.
  - repeat constructor.
  - apply StronglySorted_inv in Hs as [Hs Hall].
    destruct (Qle_bool _ _) eqn:Hle.
    + apply Qle_bool_iff in Hle. constructor; [by apply IH|].
      rewrite insert_by_score_perm. by constructor.
    + assert (lm_composite_reputation_score y
              <= lm_composite_reputation_score x)%Q as Hyx.
      { destruct (Qlt_le_dec (lm_composite_reputation_score y)
                             (lm_composite_reputation_score x)) as [?|Hc];
          [by apply Qlt_le_weak|].
        apply Qle_bool_iff in Hc. congruence. }
      constructor; [by constructor|]. constructor; [done|].
      eapply Forall_impl; [exact Hall|]. intros z Hz. simpl in Hz.
      by eapply Qle_trans.
Qed.

Lemma sort_by_score_sorted l :
  StronglySorted (fun a b => (lm_composite_reputation_score b
                              <= lm_composite_reputation_score a)%Q)
    (sort_by_score l).
Proof.
  unfold sort_by_score.
  assert (∀ acc,
            StronglySorted (fun a b => (lm_composite_reputation_score b
                                        <= lm_composite_reputation_score a)%Q)
              acc →
            StronglySorted (fun a b => (lm_composite_reputation_score b
                                        <= lm_composite_reputation_score a)%Q)
              (foldl (fun acc x => insert_by_score x acc) acc l)) as H.
  { induction l as [|x l IH]; intros acc Hacc; simpl; [done|].
    by apply IH, insert_by_score_sorted. }
  apply H. constructor.
Qed.

(** X20.  For analyses whose ratings are from 1 to 5 (as pydantic has
    checked), and for every rounding function that is monotone and leaves
    the integers alone, [calculate_leaderboard_metrics] raises no validation
    error: it returns one entry for each profile id that occurs (the first
    part of an extraction id), none twice, in the order of decreasing
    composite score; the entry of a profile counts exactly the analyses of
    that profile, and its rounded averages, rates and composite score are
    within the bounds the model declares. *)
Theorem leaderboard_metrics_valid rnd analyses :
  (∀ n x y, (x <= y)%Q → (rnd x n <= rnd y n)%Q) →
  (∀ n z, (rnd (inject_Z z) n == inject_Z z)%Q) →
  (∀ a, a ∈ analyses → analysis_ok a) →
  ∃ ms,
    calculate_leaderboard_metrics rnd analyses = Ok ms ∧
    (∀ p, p ∈ lm_profile_id <$> ms ↔ p ∈ analysis_profile <$> analyses) ∧
    NoDup (lm_profile_id <$> ms) ∧
    StronglySorted (fun a b => (lm_composite_reputation_score b
                                <= lm_composite_reputation_score a)%Q) ms ∧
    ∀ m, m ∈ ms →
      valid_metrics m = true ∧
      lm_rmt_name m = "RMT_" +:+ lm_profile_id m ∧
      lm_total_reviews_analyzed m
      = Z.of_nat (length (filter (fun a => analysis_profile a = lm_profile_id m)
                                 analyses)) ∧
      0 < lm_total_reviews_analyzed m.
Proof.
  intros Hmono Hint Hok.
  destruct (rmt_groups_spec analyses) as [Hnd Hgroups].
  set (ms0 := (fun '(pid, group) => group_metrics rnd pid group)
                <$> rmt_groups analyses).
  assert (Hms0 : ∀ m, m ∈ ms0 ↔
            ∃ p, filter (fun a => analysis_profile a = p) analyses ≠ [] ∧
                 m = group_metrics rnd p
                       (filter (fun a => analysis_profile a = p) analyses)).
  { intros m. unfold ms0. rewrite list_elem_of_fmap. split.
    - intros ([p g] & -> & [Hne ->]%Hgroups). by exists p.
    - intros (p & Hne & ->). exists (p, filter (fun a => analysis_profile a = p)
                                           analyses).
      split; [done|]. by apply Hgroups. }
  assert (Hids : lm_profile_id <$> ms0 = (rmt_groups analyses).*1).
  { unfold ms0. rewrite <-list_fmap_compose. apply list_fmap_ext.
    by intros i [p g] _. }
  assert (Hvalid : forallb valid_metrics ms0 = true).
  { apply forallb_forall. intros m Hm%list_elem_of_In.
    apply Hms0 in Hm as (p & _ & ->). apply group_metrics_valid; [done..|].
    intros a [_ Ha]%list_elem_of_filter. by apply Hok. }
  exists (sort_by_score ms0). unfold calculate_leaderboard_metrics.
  fold ms0. rewrite Hvalid. split; [done|].
  pose proof (sort_by_score_perm ms0) as Hperm. split; [|split; [|split]].
  - intros p. rewrite Hperm, !list_elem_of_fmap. split.
    + intros (m & -> & (q & Hne & ->)%Hms0). simpl.
      destruct (filter _ analyses) as [|a l] eqn:Hf; [done|].
      assert (a ∈ filter (fun a => analysis_profile a = q) analyses) as Ha
        by (rewrite Hf; apply list_elem_of_here).
      apply list_elem_of_filter in Ha as [Hp Ha]. by exists a.
    + intros (a & -> & Ha).
      exists (group_metrics rnd (analysis_profile a)
                (filter (fun a' => analysis_profile a' = analysis_profile a)
                        analyses)).
      split; [done|]. apply Hms0. exists (analysis_profile a). split; [|done].
      intros Hnil.
      assert (a ∈ filter (fun a' => analysis_profile a' = analysis_profile a)
                    analyses) as Hin by (by apply list_elem_of_filter).
      rewrite Hnil in Hin. by apply elem_of_nil in Hin.
  - rewrite Hperm, Hids. done.
  - apply sort_by_score_sorted.
  - intros m Hm. rewrite Hperm in Hm. apply Hms0 in Hm as (p & Hne & ->).
    split; [|split; [done|split; [done|]]].
    + apply group_metrics_valid; [done..|].
      intros a [_ Ha]%list_elem_of_filter. by apply Hok.
    + simpl. destruct (filter _ analyses); [done|]. simpl. lia.
Qed.

Lemma leaderboard_metrics_valid_witness :
  ∃ ms,
    calculate_leaderboard_metrics py_round Board.analyses = Ok ms ∧
    (∀ p, p ∈ lm_profile_id <$> ms ↔ p ∈ analysis_profile <$> Board.analyses) ∧
    NoDup (lm_profile_id <$> ms) ∧
    StronglySorted (fun a b => (lm_composite_reputation_score b
                                <= lm_composite_reputation_score a)%Q) ms ∧
    ∀ m, m ∈ ms →
      valid_metrics m = true ∧
      lm_rmt_name m = "RMT_" +:+ lm_profile_id m ∧
      lm_total_reviews_analyzed m
      = Z.of_nat (length (filter (fun a => analysis_profile a = lm_profile_id m)
                                 Board.analyses)) ∧
      0 < lm_total_reviews_analyzed m.
Proof.
  apply (leaderboard_metrics_valid py_round Board.analyses py_round_mono
           py_round_integer).
  intros a Ha. unfold Board.analyses in Ha.
  repeat (apply elem_of_cons in Ha as [->|Ha];
          [unfold analysis_ok; simpl; lia|]).
  by apply elem_of_nil in Ha.
Defined.

(** ** The summary statistics *)



